(** * Pokemon memory card game (src/index.js): a shallow embedding

    The script keeps its game in a handful of variables closed over by the
    jQuery handlers, in the classes of the card elements of the page, and in
    the callbacks it hands to [setTimeout] and [setInterval].  The embedding
    makes the three explicit: one record [state] for the variables, the card
    elements and the browser's timer queue, and one function per handler or
    callback of the script, named after it.

    - The card elements live in [dom], indexed by creation order; an element
      keeps its index when [$gameGrid.empty()] detaches it, because closures
      and timers of the script can still hold it.  [grid] lists the elements
      currently attached.
    - Time is counted in milliseconds.  [Wait] lets one millisecond pass and
      [Fire h] runs the pending callback with handle [h], which the browser
      may do once its delay has elapsed.
    - [Math.random] and the network are inputs: the outcome of the two
      [sort] shuffles and of the request come with the start event.
    - The [await]s of [initializeGame] are taken in one step: no other
      handler runs between the click on Start and the dealt board. *)

From stdpp Require Import base list strings pretty.
From Stdlib Require Import ZArith Lia.

Open Scope Z_scope.

(** ** Constants and configuration *)

Definition POKEMON_IMAGE_PATH (id : Z) : string :=
  "https://raw.githubusercontent.com/PokeAPI/sprites/master/sprites/pokemon/other/official-artwork/"
  +:+ pretty id +:+ ".png".

Definition CARD_BACK_IMAGE_URL : string := "back.webp".

Definition MAX_POKEMON_ID_FOR_ARTWORK : Z := 1025.

Inductive difficulty := easy | medium | hard.

Record setting := { pairs : Z; time : Z }.

Definition gameSettings (d : difficulty) : setting :=
  match d with
  | easy => {| pairs := 3; time := 60 |}
  | medium => {| pairs := 6; time := 120 |}
  | hard => {| pairs := 10; time := 180 |}
  end.

(** ** Data *)

(** JavaScript truthiness of a string: every string but the empty one.  A
    missing property ([undefined]) is modelled by the empty string. *)
Definition truthy (s : string) : bool :=
  match s with EmptyString => false | String _ _ => true end.

(** An entry of [allPokemonList]. *)
Record pokemon := { name : string; id : Z; imageUrl : string }.

(** An entry of [cardsData]: [{ ...pokemon, cardId }]. *)
Record cardData := {
  cd_name : string; cd_id : Z; cd_imageUrl : string; cd_cardId : string }.

(** A [.card] element: its two data attributes, the image of its back
    ([data-src], and [src] once it has been set) and its two classes. *)
Record card := {
  pokemonId : Z;
  cardId : string;
  dataSrc : string;
  src : option string;
  flipped : bool;
  matched : bool }.

(** The anonymous functions given to [setInterval] and [setTimeout], named
    after the function that schedules them. *)
Inductive callback :=
  | cbStartTimer
  | cbProcessMismatch
  | cbResetTurnAfterDelay
  | cbWinAlert
  | cbLoseAlert
  | cbPowerUpReveal (cardsArray : list nat).

Record task := { handle : nat; due : Z; code : callback }.

(** The closure of one click on the power-up button: its counter
    [imagesToLoad] and its array [cardsToVisuallyFlip].  The [load error]
    handlers still registered for it are as many as the counter says: every
    registration increments it and every handler runs once and decrements. *)
Record activation := { imagesToLoad : nat; cardsToVisuallyFlip : list nat }.

Record state := {
  (* the select element and the configuration read from it *)
  selectVal : difficulty;
  currentDifficulty : difficulty;
  numPairs : Z;
  totalTime : Z;
  (* card tracking *)
  firstCard : option nat;
  secondCard : option nat;
  (* status flags *)
  lockBoard : bool;
  gameActive : bool;
  (* metrics *)
  clicks : Z;
  pairsMatched : Z;
  timeLeft : Z;
  timerInterval : option nat;
  powerUpUsedThisGame : bool;
  allPokemonList : list pokemon;
  (* the page *)
  dom : list card;
  grid : list nat;
  powerUpDisabled : bool;
  messages : list string;          (* texts put in #message-area, latest first *)
  alerts : list string;            (* alert boxes shown, latest first *)
  (* the browser's timers and pending image events *)
  now : Z;
  nextHandle : nat;
  tasks : list task;
  activations : list activation }.

(** What the outside world contributes to one game start: the processed
    reply of the catalogue request (after the [map] of
    [fetchAllPokemonListOnce]; [None] for a failed or malformed reply, an
    inner [None] for an entry mapped to [null]), and the outcomes of the two
    random [sort] calls. *)
Record oracle := {
  response : option (list (option (string * Z)));
  shuffled : list pokemon;
  dealt : list cardData }.

#[global] Instance difficulty_eq_dec : EqDecision difficulty.
Proof. solve_decision. Defined.
#[global] Instance pokemon_eq_dec : EqDecision pokemon.
Proof. solve_decision. Defined.
#[global] Instance cardData_eq_dec : EqDecision cardData.
Proof. solve_decision. Defined.
#[global] Instance card_eq_dec : EqDecision card.
Proof. solve_decision. Defined.
#[global] Instance callback_eq_dec : EqDecision callback.
Proof. solve_decision. Defined.
#[global] Instance task_eq_dec : EqDecision task.
Proof. solve_decision. Defined.

(** ** Field updates *)

Definition set_selectVal v s := {| selectVal := v; currentDifficulty := currentDifficulty s; numPairs := numPairs s; totalTime := totalTime s; firstCard := firstCard s; secondCard := secondCard s; lockBoard := lockBoard s; gameActive := gameActive s; clicks := clicks s; pairsMatched := pairsMatched s; timeLeft := timeLeft s; timerInterval := timerInterval s; powerUpUsedThisGame := powerUpUsedThisGame s; allPokemonList := allPokemonList s; dom := dom s; grid := grid s; powerUpDisabled := powerUpDisabled s; messages := messages s; alerts := alerts s; now := now s; nextHandle := nextHandle s; tasks := tasks s; activations := activations s |}.
Definition set_currentDifficulty v s := {| selectVal := selectVal s; currentDifficulty := v; numPairs := numPairs s; totalTime := totalTime s; firstCard := firstCard s; secondCard := secondCard s; lockBoard := lockBoard s; gameActive := gameActive s; clicks := clicks s; pairsMatched := pairsMatched s; timeLeft := timeLeft s; timerInterval := timerInterval s; powerUpUsedThisGame := powerUpUsedThisGame s; allPokemonList := allPokemonList s; dom := dom s; grid := grid s; powerUpDisabled := powerUpDisabled s; messages := messages s; alerts := alerts s; now := now s; nextHandle := nextHandle s; tasks := tasks s; activations := activations s |}.
Definition set_numPairs v s := {| selectVal := selectVal s; currentDifficulty := currentDifficulty s; numPairs := v; totalTime := totalTime s; firstCard := firstCard s; secondCard := secondCard s; lockBoard := lockBoard s; gameActive := gameActive s; clicks := clicks s; pairsMatched := pairsMatched s; timeLeft := timeLeft s; timerInterval := timerInterval s; powerUpUsedThisGame := powerUpUsedThisGame s; allPokemonList := allPokemonList s; dom := dom s; grid := grid s; powerUpDisabled := powerUpDisabled s; messages := messages s; alerts := alerts s; now := now s; nextHandle := nextHandle s; tasks := tasks s; activations := activations s |}.
Definition set_totalTime v s := {| selectVal := selectVal s; currentDifficulty := currentDifficulty s; numPairs := numPairs s; totalTime := v; firstCard := firstCard s; secondCard := secondCard s; lockBoard := lockBoard s; gameActive := gameActive s; clicks := clicks s; pairsMatched := pairsMatched s; timeLeft := timeLeft s; timerInterval := timerInterval s; powerUpUsedThisGame := powerUpUsedThisGame s; allPokemonList := allPokemonList s; dom := dom s; grid := grid s; powerUpDisabled := powerUpDisabled s; messages := messages s; alerts := alerts s; now := now s; nextHandle := nextHandle s; tasks := tasks s; activations := activations s |}.
Definition set_firstCard v s := {| selectVal := selectVal s; currentDifficulty := currentDifficulty s; numPairs := numPairs s; totalTime := totalTime s; firstCard := v; secondCard := secondCard s; lockBoard := lockBoard s; gameActive := gameActive s; clicks := clicks s; pairsMatched := pairsMatched s; timeLeft := timeLeft s; timerInterval := timerInterval s; powerUpUsedThisGame := powerUpUsedThisGame s; allPokemonList := allPokemonList s; dom := dom s; grid := grid s; powerUpDisabled := powerUpDisabled s; messages := messages s; alerts := alerts s; now := now s; nextHandle := nextHandle s; tasks := tasks s; activations := activations s |}.
Definition set_secondCard v s := {| selectVal := selectVal s; currentDifficulty := currentDifficulty s; numPairs := numPairs s; totalTime := totalTime s; firstCard := firstCard s; secondCard := v; lockBoard := lockBoard s; gameActive := gameActive s; clicks := clicks s; pairsMatched := pairsMatched s; timeLeft := timeLeft s; timerInterval := timerInterval s; powerUpUsedThisGame := powerUpUsedThisGame s; allPokemonList := allPokemonList s; dom := dom s; grid := grid s; powerUpDisabled := powerUpDisabled s; messages := messages s; alerts := alerts s; now := now s; nextHandle := nextHandle s; tasks := tasks s; activations := activations s |}.
Definition set_lockBoard v s := {| selectVal := selectVal s; currentDifficulty := currentDifficulty s; numPairs := numPairs s; totalTime := totalTime s; firstCard := firstCard s; secondCard := secondCard s; lockBoard := v; gameActive := gameActive s; clicks := clicks s; pairsMatched := pairsMatched s; timeLeft := timeLeft s; timerInterval := timerInterval s; powerUpUsedThisGame := powerUpUsedThisGame s; allPokemonList := allPokemonList s; dom := dom s; grid := grid s; powerUpDisabled := powerUpDisabled s; messages := messages s; alerts := alerts s; now := now s; nextHandle := nextHandle s; tasks := tasks s; activations := activations s |}.
Definition set_gameActive v s := {| selectVal := selectVal s; currentDifficulty := currentDifficulty s; numPairs := numPairs s; totalTime := totalTime s; firstCard := firstCard s; secondCard := secondCard s; lockBoard := lockBoard s; gameActive := v; clicks := clicks s; pairsMatched := pairsMatched s; timeLeft := timeLeft s; timerInterval := timerInterval s; powerUpUsedThisGame := powerUpUsedThisGame s; allPokemonList := allPokemonList s; dom := dom s; grid := grid s; powerUpDisabled := powerUpDisabled s; messages := messages s; alerts := alerts s; now := now s; nextHandle := nextHandle s; tasks := tasks s; activations := activations s |}.
Definition set_clicks v s := {| selectVal := selectVal s; currentDifficulty := currentDifficulty s; numPairs := numPairs s; totalTime := totalTime s; firstCard := firstCard s; secondCard := secondCard s; lockBoard := lockBoard s; gameActive := gameActive s; clicks := v; pairsMatched := pairsMatched s; timeLeft := timeLeft s; timerInterval := timerInterval s; powerUpUsedThisGame := powerUpUsedThisGame s; allPokemonList := allPokemonList s; dom := dom s; grid := grid s; powerUpDisabled := powerUpDisabled s; messages := messages s; alerts := alerts s; now := now s; nextHandle := nextHandle s; tasks := tasks s; activations := activations s |}.
Definition set_pairsMatched v s := {| selectVal := selectVal s; currentDifficulty := currentDifficulty s; numPairs := numPairs s; totalTime := totalTime s; firstCard := firstCard s; secondCard := secondCard s; lockBoard := lockBoard s; gameActive := gameActive s; clicks := clicks s; pairsMatched := v; timeLeft := timeLeft s; timerInterval := timerInterval s; powerUpUsedThisGame := powerUpUsedThisGame s; allPokemonList := allPokemonList s; dom := dom s; grid := grid s; powerUpDisabled := powerUpDisabled s; messages := messages s; alerts := alerts s; now := now s; nextHandle := nextHandle s; tasks := tasks s; activations := activations s |}.
Definition set_timeLeft v s := {| selectVal := selectVal s; currentDifficulty := currentDifficulty s; numPairs := numPairs s; totalTime := totalTime s; firstCard := firstCard s; secondCard := secondCard s; lockBoard := lockBoard s; gameActive := gameActive s; clicks := clicks s; pairsMatched := pairsMatched s; timeLeft := v; timerInterval := timerInterval s; powerUpUsedThisGame := powerUpUsedThisGame s; allPokemonList := allPokemonList s; dom := dom s; grid := grid s; powerUpDisabled := powerUpDisabled s; messages := messages s; alerts := alerts s; now := now s; nextHandle := nextHandle s; tasks := tasks s; activations := activations s |}.
Definition set_timerInterval v s := {| selectVal := selectVal s; currentDifficulty := currentDifficulty s; numPairs := numPairs s; totalTime := totalTime s; firstCard := firstCard s; secondCard := secondCard s; lockBoard := lockBoard s; gameActive := gameActive s; clicks := clicks s; pairsMatched := pairsMatched s; timeLeft := timeLeft s; timerInterval := v; powerUpUsedThisGame := powerUpUsedThisGame s; allPokemonList := allPokemonList s; dom := dom s; grid := grid s; powerUpDisabled := powerUpDisabled s; messages := messages s; alerts := alerts s; now := now s; nextHandle := nextHandle s; tasks := tasks s; activations := activations s |}.
Definition set_powerUpUsedThisGame v s := {| selectVal := selectVal s; currentDifficulty := currentDifficulty s; numPairs := numPairs s; totalTime := totalTime s; firstCard := firstCard s; secondCard := secondCard s; lockBoard := lockBoard s; gameActive := gameActive s; clicks := clicks s; pairsMatched := pairsMatched s; timeLeft := timeLeft s; timerInterval := timerInterval s; powerUpUsedThisGame := v; allPokemonList := allPokemonList s; dom := dom s; grid := grid s; powerUpDisabled := powerUpDisabled s; messages := messages s; alerts := alerts s; now := now s; nextHandle := nextHandle s; tasks := tasks s; activations := activations s |}.
Definition set_allPokemonList v s := {| selectVal := selectVal s; currentDifficulty := currentDifficulty s; numPairs := numPairs s; totalTime := totalTime s; firstCard := firstCard s; secondCard := secondCard s; lockBoard := lockBoard s; gameActive := gameActive s; clicks := clicks s; pairsMatched := pairsMatched s; timeLeft := timeLeft s; timerInterval := timerInterval s; powerUpUsedThisGame := powerUpUsedThisGame s; allPokemonList := v; dom := dom s; grid := grid s; powerUpDisabled := powerUpDisabled s; messages := messages s; alerts := alerts s; now := now s; nextHandle := nextHandle s; tasks := tasks s; activations := activations s |}.
Definition set_dom v s := {| selectVal := selectVal s; currentDifficulty := currentDifficulty s; numPairs := numPairs s; totalTime := totalTime s; firstCard := firstCard s; secondCard := secondCard s; lockBoard := lockBoard s; gameActive := gameActive s; clicks := clicks s; pairsMatched := pairsMatched s; timeLeft := timeLeft s; timerInterval := timerInterval s; powerUpUsedThisGame := powerUpUsedThisGame s; allPokemonList := allPokemonList s; dom := v; grid := grid s; powerUpDisabled := powerUpDisabled s; messages := messages s; alerts := alerts s; now := now s; nextHandle := nextHandle s; tasks := tasks s; activations := activations s |}.
Definition set_grid v s := {| selectVal := selectVal s; currentDifficulty := currentDifficulty s; numPairs := numPairs s; totalTime := totalTime s; firstCard := firstCard s; secondCard := secondCard s; lockBoard := lockBoard s; gameActive := gameActive s; clicks := clicks s; pairsMatched := pairsMatched s; timeLeft := timeLeft s; timerInterval := timerInterval s; powerUpUsedThisGame := powerUpUsedThisGame s; allPokemonList := allPokemonList s; dom := dom s; grid := v; powerUpDisabled := powerUpDisabled s; messages := messages s; alerts := alerts s; now := now s; nextHandle := nextHandle s; tasks := tasks s; activations := activations s |}.
Definition set_powerUpDisabled v s := {| selectVal := selectVal s; currentDifficulty := currentDifficulty s; numPairs := numPairs s; totalTime := totalTime s; firstCard := firstCard s; secondCard := secondCard s; lockBoard := lockBoard s; gameActive := gameActive s; clicks := clicks s; pairsMatched := pairsMatched s; timeLeft := timeLeft s; timerInterval := timerInterval s; powerUpUsedThisGame := powerUpUsedThisGame s; allPokemonList := allPokemonList s; dom := dom s; grid := grid s; powerUpDisabled := v; messages := messages s; alerts := alerts s; now := now s; nextHandle := nextHandle s; tasks := tasks s; activations := activations s |}.
Definition set_messages v s := {| selectVal := selectVal s; currentDifficulty := currentDifficulty s; numPairs := numPairs s; totalTime := totalTime s; firstCard := firstCard s; secondCard := secondCard s; lockBoard := lockBoard s; gameActive := gameActive s; clicks := clicks s; pairsMatched := pairsMatched s; timeLeft := timeLeft s; timerInterval := timerInterval s; powerUpUsedThisGame := powerUpUsedThisGame s; allPokemonList := allPokemonList s; dom := dom s; grid := grid s; powerUpDisabled := powerUpDisabled s; messages := v; alerts := alerts s; now := now s; nextHandle := nextHandle s; tasks := tasks s; activations := activations s |}.
Definition set_alerts v s := {| selectVal := selectVal s; currentDifficulty := currentDifficulty s; numPairs := numPairs s; totalTime := totalTime s; firstCard := firstCard s; secondCard := secondCard s; lockBoard := lockBoard s; gameActive := gameActive s; clicks := clicks s; pairsMatched := pairsMatched s; timeLeft := timeLeft s; timerInterval := timerInterval s; powerUpUsedThisGame := powerUpUsedThisGame s; allPokemonList := allPokemonList s; dom := dom s; grid := grid s; powerUpDisabled := powerUpDisabled s; messages := messages s; alerts := v; now := now s; nextHandle := nextHandle s; tasks := tasks s; activations := activations s |}.
Definition set_now v s := {| selectVal := selectVal s; currentDifficulty := currentDifficulty s; numPairs := numPairs s; totalTime := totalTime s; firstCard := firstCard s; secondCard := secondCard s; lockBoard := lockBoard s; gameActive := gameActive s; clicks := clicks s; pairsMatched := pairsMatched s; timeLeft := timeLeft s; timerInterval := timerInterval s; powerUpUsedThisGame := powerUpUsedThisGame s; allPokemonList := allPokemonList s; dom := dom s; grid := grid s; powerUpDisabled := powerUpDisabled s; messages := messages s; alerts := alerts s; now := v; nextHandle := nextHandle s; tasks := tasks s; activations := activations s |}.
Definition set_nextHandle v s := {| selectVal := selectVal s; currentDifficulty := currentDifficulty s; numPairs := numPairs s; totalTime := totalTime s; firstCard := firstCard s; secondCard := secondCard s; lockBoard := lockBoard s; gameActive := gameActive s; clicks := clicks s; pairsMatched := pairsMatched s; timeLeft := timeLeft s; timerInterval := timerInterval s; powerUpUsedThisGame := powerUpUsedThisGame s; allPokemonList := allPokemonList s; dom := dom s; grid := grid s; powerUpDisabled := powerUpDisabled s; messages := messages s; alerts := alerts s; now := now s; nextHandle := v; tasks := tasks s; activations := activations s |}.
Definition set_tasks v s := {| selectVal := selectVal s; currentDifficulty := currentDifficulty s; numPairs := numPairs s; totalTime := totalTime s; firstCard := firstCard s; secondCard := secondCard s; lockBoard := lockBoard s; gameActive := gameActive s; clicks := clicks s; pairsMatched := pairsMatched s; timeLeft := timeLeft s; timerInterval := timerInterval s; powerUpUsedThisGame := powerUpUsedThisGame s; allPokemonList := allPokemonList s; dom := dom s; grid := grid s; powerUpDisabled := powerUpDisabled s; messages := messages s; alerts := alerts s; now := now s; nextHandle := nextHandle s; tasks := v; activations := activations s |}.
Definition set_activations v s := {| selectVal := selectVal s; currentDifficulty := currentDifficulty s; numPairs := numPairs s; totalTime := totalTime s; firstCard := firstCard s; secondCard := secondCard s; lockBoard := lockBoard s; gameActive := gameActive s; clicks := clicks s; pairsMatched := pairsMatched s; timeLeft := timeLeft s; timerInterval := timerInterval s; powerUpUsedThisGame := powerUpUsedThisGame s; allPokemonList := allPokemonList s; dom := dom s; grid := grid s; powerUpDisabled := powerUpDisabled s; messages := messages s; alerts := alerts s; now := now s; nextHandle := nextHandle s; tasks := tasks s; activations := v |}.

(** ** The page: card elements and their classes *)

Definition addClass_flipped (cd : card) : card :=
  {| pokemonId := pokemonId cd; cardId := cardId cd; dataSrc := dataSrc cd;
     src := src cd; flipped := true; matched := matched cd |}.

Definition removeClass_flipped (cd : card) : card :=
  {| pokemonId := pokemonId cd; cardId := cardId cd; dataSrc := dataSrc cd;
     src := src cd; flipped := false; matched := matched cd |}.

Definition addClass_matched (cd : card) : card :=
  {| pokemonId := pokemonId cd; cardId := cardId cd; dataSrc := dataSrc cd;
     src := src cd; flipped := flipped cd; matched := true |}.

(** [!$pokemonImage.attr('src') && $pokemonImage.data('src')]: the image has
    no [src] yet and there is one to load. *)
Definition needsLoad (cd : card) : bool :=
  negb (default false (truthy <$> src cd)) && truthy (dataSrc cd).

(** [$pokemonImage.attr('src', dataSrc)] *)
Definition attr_src (cd : card) : card :=
  {| pokemonId := pokemonId cd; cardId := cardId cd; dataSrc := dataSrc cd;
     src := Some (dataSrc cd); flipped := flipped cd; matched := matched cd |}.

(** Apply a class change to element [c]. *)
Definition onCard (f : card → card) (c : nat) (s : state) : state :=
  set_dom (alter f c (dom s)) s.

(** Apply a class change to each element of a jQuery collection in turn. *)
Definition onCards (f : card → card) (cs : list nat) (s : state) : state :=
  foldl (λ s c, onCard f c s) s cs.

(** [$card.data('card-id')] and [$card.data('pokemon-id')]. *)
Definition data_card_id (s : state) (c : nat) : option string :=
  cardId <$> dom s !! c.

Definition data_pokemon_id (s : state) (c : nat) : option Z :=
  pokemonId <$> dom s !! c.

Definition hasClass_flipped (s : state) (c : nat) : bool :=
  default false (flipped <$> dom s !! c).

Definition hasClass_matched (s : state) (c : nat) : bool :=
  default false (matched <$> dom s !! c).

(** The three tile states of the specification, read off the two classes. *)
Inductive tileState := FaceDown | FaceUp | Matched.

Definition tileStateOf (cd : card) : tileState :=
  if matched cd then Matched else if flipped cd then FaceUp else FaceDown.

Definition tileAt (s : state) (c : nat) : option tileState :=
  tileStateOf <$> dom s !! c.

(** [$messageArea.text(m)] and [alert(m)]. *)
Definition say (m : string) (s : state) : state := set_messages (m :: messages s) s.
Definition alert (m : string) (s : state) : state := set_alerts (m :: alerts s) s.

(** ** Timers *)

(** [setTimeout(f, d)] and [setInterval(f, d)] both queue [f] to run [d]
    milliseconds from now under a fresh handle. *)
Definition schedule (f : callback) (d : Z) (s : state) : state :=
  set_nextHandle (S (nextHandle s))
    (set_tasks (tasks s ++ [{| handle := nextHandle s; due := now s + d; code := f |}]) s).

Definition cancel (h : nat) (ts : list task) : list task :=
  filter (λ t, handle t ≠ h) ts.
#[global] Arguments cancel : simpl never.

(** The queue once the interval callback [h] is queued again for time [d]. *)
Definition rearm (h : nat) (d : Z) (ts : list task) : list task :=
  map (λ t', if Nat.eqb (handle t') h
             then {| handle := h; due := d; code := cbStartTimer |} else t') ts.
#[global] Arguments rearm : simpl never.

(** [clearInterval(timerInterval)]: nothing happens for [undefined] or for a
    handle that is no longer pending. *)
Definition clearInterval (s : state) : state :=
  set_tasks (match timerInterval s with
             | Some h => cancel h (tasks s)
             | None => tasks s
             end) s.

(** ** Game configuration *)

Definition updateGameConfig (s : state) : state :=
  let d := selectVal s in
  set_totalTime (time (gameSettings d))
    (set_numPairs (pairs (gameSettings d)) (set_currentDifficulty d s)).

(** ** Catalogue *)

(** The [filter] of [fetchAllPokemonListOnce], on the array produced by its
    [map]. *)
Definition usable (e : option (string * Z)) : option pokemon :=
  match e with
  | Some (n, i) =>
      if (0 <? i) && (i <=? MAX_POKEMON_ID_FOR_ARTWORK) && truthy (POKEMON_IMAGE_PATH i)
      then Some {| name := n; id := i; imageUrl := POKEMON_IMAGE_PATH i |}
      else None
  | None => None
  end.

(** Returns the list, or [None] where the source throws. *)
Definition fetchAllPokemonListOnce (r : option (list (option (string * Z))))
    (s : state) : option (list pokemon) * state :=
  match allPokemonList s with
  | _ :: _ => (Some (allPokemonList s), s)
  | [] =>
      let s := say "Fetching Data..." s in
      match r with
      | None => (None, say "API Error!" s)
      | Some results =>
          let s := set_allPokemonList (omap usable results) s in
          match allPokemonList s with
          | [] => (None, say "API Error!" (say "Load Failed!" s))
          | _ :: _ => (Some (allPokemonList s), say "Data Loaded!" s)
          end
      end
  end.

Definition selectRandomPokemonForGame (o : oracle) (count : Z) (s : state)
    : list pokemon * state :=
  match fetchAllPokemonListOnce (response o) s with
  | (None, s) => ([], s)
  | (Some availablePokemon, s) =>
      match availablePokemon with
      | [] => ([], s)
      | _ :: _ =>
          if Z.of_nat (length availablePokemon) <? count then
            let count := Z.of_nat (length availablePokemon) in
            (take (Z.to_nat count) (shuffled o), set_numPairs count s)
          else (take (Z.to_nat count) (shuffled o), s)
      end
  end.

(** ** Dealing the cards *)

Definition mkCardData (p : pokemon) (suffix : string) : cardData :=
  {| cd_name := name p; cd_id := id p; cd_imageUrl := imageUrl p;
     cd_cardId := pretty (id p) +:+ suffix |}.

(** The [forEach] that fills [cardsData]: two cards per Pokemon, entries
    without image or name skipped. *)
Definition buildCardsData (selectedPokemon : list pokemon) : list cardData :=
  flat_map (λ p,
    if negb (truthy (imageUrl p)) || negb (truthy (name p)) then []
    else [mkCardData p "-a"; mkCardData p "-b"]) selectedPokemon.

(** The element created for one entry of [cardsData], or nothing when the
    entry is skipped. *)
Definition cardElement (data : cardData) : option card :=
  if negb (truthy (cd_imageUrl data)) || negb (truthy (cd_name data)) then None
  else Some {| pokemonId := cd_id data; cardId := cd_cardId data;
               dataSrc := cd_imageUrl data; src := None;
               flipped := false; matched := false |}.

(** ** Game end *)

Definition endGame (isWin : bool) (s : state) : state :=
  (* Prevent multiple endGame calls *)
  if negb (gameActive s) && negb isWin && (0 <? timeLeft s) then s
  else if negb (gameActive s) && isWin then s
  else if negb (gameActive s) && negb isWin && (timeLeft s <=? 0) then s
  else
    let s := set_gameActive false s in
    let s := clearInterval s in
    let s := set_lockBoard true s in
    let s := set_powerUpDisabled true s in
    (* $('.card.matched').addClass('flipped') *)
    let s := onCards (λ cd, if matched cd then addClass_flipped cd else cd) (grid s) s in
    if isWin then
      schedule cbWinAlert 100 (say "You Won!" s)
    else if timeLeft s <=? 0 then
      schedule cbLoseAlert 100 (say "Game Over!" s)
    else s.

(** ** Turn logic *)

(** The callback of [resetTurnAfterDelay]. *)
Definition onResetTurn (s : state) : state :=
  let s := set_firstCard None s in
  let s := set_secondCard None s in
  let s := set_lockBoard false s in
  if gameActive s && (pairsMatched s =? numPairs s) then endGame true s else s.

Definition resetTurnAfterDelay (s : state) : state :=
  schedule cbResetTurnAfterDelay 200 s.

Definition processMatch (s : state) : state :=
  let s := match firstCard s with Some f => onCard addClass_matched f s | None => s end in
  let s := match secondCard s with Some g => onCard addClass_matched g s | None => s end in
  let s := set_pairsMatched (pairsMatched s + 1) s in
  resetTurnAfterDelay s.

(** The callback of [processMismatch]. *)
Definition onMismatchShown (s : state) : state :=
  let s := match firstCard s with Some f => onCard removeClass_flipped f s | None => s end in
  let s := match secondCard s with Some g => onCard removeClass_flipped g s | None => s end in
  resetTurnAfterDelay s.

Definition processMismatch (s : state) : state :=
  schedule cbProcessMismatch 1000 s.

Definition isMatch (s : state) : bool :=
  match firstCard s, secondCard s with
  | Some f, Some g => bool_decide (data_pokemon_id s f = data_pokemon_id s g)
  | _, _ => false
  end.

Definition checkForMatch (s : state) : state :=
  if isMatch s then processMatch s else processMismatch s.

(** The four ways through [handleCardClick]. *)
Inductive clickPath := Ignored | FirstOfPair | SameCardReverted | SecondOfPair.

Definition clickPathOf (c : nat) (s : state) : clickPath :=
  if negb (gameActive s) || lockBoard s || hasClass_flipped s c || hasClass_matched s c
  then Ignored
  else match firstCard s with
       | None => FirstOfPair
       | Some f =>
           if bool_decide (data_card_id s c = data_card_id s f)
           then SameCardReverted else SecondOfPair
       end.

Definition handleCardClick (c : nat) (s : state) : state :=
  if negb (gameActive s) || lockBoard s || hasClass_flipped s c || hasClass_matched s c
  then s
  else
    (* lazy-load the image *)
    let s := onCard (λ cd, if needsLoad cd then attr_src cd else cd) c s in
    let s := set_clicks (clicks s + 1) s in
    let s := onCard addClass_flipped c s in
    match firstCard s with
    | None => set_firstCard (Some c) s
    | Some f =>
        if bool_decide (data_card_id s c = data_card_id s f) then
          let s := onCard removeClass_flipped c s in
          set_clicks (clicks s - 1) s
        else
          let s := set_secondCard (Some c) s in
          let s := set_lockBoard true s in
          checkForMatch s
    end.

(** ** Timer *)

Definition startTimer (s : state) : state :=
  set_timerInterval (Some (nextHandle s)) (schedule cbStartTimer 1000 s).

(** The callback of [startTimer]. *)
Definition onTimer (s : state) : state :=
  let s := set_timeLeft (timeLeft s - 1) s in
  if (timeLeft s <=? 0) && gameActive s then endGame false s else s.

(** ** Power-up *)

(** One round of the [each] in the callback of [executePowerUpReveal]. *)
Definition concealOne (c : nat) (s : state) : state :=
  if match firstCard s with
     | Some f => bool_decide (data_card_id s c = data_card_id s f)
     | None => false
     end
  then s                                   (* keep the first selected card flipped *)
  else if hasClass_matched s c then s
  else onCard removeClass_flipped c s.

(** The callback of [executePowerUpReveal], run after the reveal. *)
Definition onRevealOver (cardsArray : list nat) (s : state) : state :=
  let s := foldl (λ s c, concealOne c s) s cardsArray in
  set_lockBoard
    (bool_decide (is_Some (firstCard s)) && negb (bool_decide (is_Some (secondCard s)))) s.

Definition executePowerUpReveal (cardsArray : list nat) (s : state) : state :=
  let s := onCards addClass_flipped cardsArray s in
  schedule (cbPowerUpReveal cardsArray) 2000 s.

(** One round of the [each] over the unmatched cards: count the image and
    start its load when it has none. *)
Definition prepareCard (c : nat) (acc : nat * state) : nat * state :=
  if default false (needsLoad <$> dom acc.2 !! c)
  then (S acc.1, onCard attr_src c acc.2)
  else acc.

(** The click handler of the power-up button. *)
Definition powerUpClick (s : state) : state :=
  if negb (gameActive s) || lockBoard s || powerUpUsedThisGame s then s
  else
    let s := set_powerUpUsedThisGame true s in
    let s := set_powerUpDisabled true s in
    let s := set_lockBoard true s in
    let unmatchedCards := filter (λ c, hasClass_matched s c = false) (grid s) in
    let prepared := foldl (λ acc c, prepareCard c acc) (O, s) unmatchedCards in
    let s := set_activations
               (activations prepared.2 ++
                  [{| imagesToLoad := prepared.1; cardsToVisuallyFlip := unmatchedCards |}])
               prepared.2 in
    if (prepared.1 =? 0)%nat then executePowerUpReveal unmatchedCards s else s.

(** The [load error] handler of an image, for the activation [k] that
    registered it. *)
Definition onImageSettled (k : nat) (s : state) : state :=
  match activations s !! k with
  | Some a =>
      match imagesToLoad a with
      | O => s                       (* no handler of this activation is left *)
      | S n =>
          let s := set_activations
                     (<[k := {| imagesToLoad := n; cardsToVisuallyFlip := cardsToVisuallyFlip a |}]>
                        (activations s)) s in
          if (n =? 0)%nat then executePowerUpReveal (cardsToVisuallyFlip a) s else s
      end
  | None => s
  end.

(** ** Game initialisation *)

(** [initializeGame] up to its [await]. *)
Definition resetForNewGame (s : state) : state :=
  let s := set_gameActive true s in
  let s := set_lockBoard false s in
  let s := set_powerUpUsedThisGame false s in
  let s := set_powerUpDisabled false s in
  let s := set_clicks 0 s in
  let s := set_pairsMatched 0 s in
  let s := set_firstCard None s in
  let s := set_secondCard None s in
  let s := clearInterval s in
  let s := updateGameConfig s in
  let s := say "Loading Cards..." s in
  set_grid [] s.                                              (* $gameGrid.empty() *)

(** [initializeGame] from the [await] on, given what
    [selectRandomPokemonForGame] returned. *)
Definition dealCards (o : oracle) (selectedPokemon : list pokemon) (s : state) : state :=
  match selectedPokemon with
  | [] =>
      let s := if bool_decide (head (messages s) = Some "Loading Cards...")
               then say "No Pokémon Data!" s else s in
      set_powerUpDisabled true (set_gameActive false s)
  | _ :: _ =>
      match buildCardsData selectedPokemon with
      | [] => say "Card Data Error!" s
      | _ :: _ =>
          let elements := omap cardElement (dealt o) in       (* after cardsData.sort *)
          let s := set_grid (seq (length (dom s)) (length elements))
                     (set_dom (dom s ++ elements) s) in
          match grid s with
          | [] => say "Card Display Error!" s
          | _ :: _ =>
              let s := set_timeLeft (totalTime s) s in
              let s := startTimer s in
              say "Match 'em All!" s
          end
      end
  end.

Definition initializeGame (o : oracle) (s : state) : state :=
  let s := resetForNewGame s in
  let sel := selectRandomPokemonForGame o (numPairs s) s in
  dealCards o sel.1 sel.2.

(** The catalogue a start works from ([None] where the fetch throws) and the
    Pokemon it selects. *)
Definition catalogueFor (o : oracle) (s : state) : option (list pokemon) :=
  (fetchAllPokemonListOnce (response o) (resetForNewGame s)).1.

Definition selectedFor (o : oracle) (s : state) : list pokemon :=
  (selectRandomPokemonForGame o (numPairs (resetForNewGame s)) (resetForNewGame s)).1.

(** What the random comparators can do: each [sort] rearranges its array, the
    copy of the catalogue and [cardsData]. *)
Definition sortOutcome (o : oracle) (s : state) : Prop :=
  (∀ available, catalogueFor o s = Some available → shuffled o ≡ₚ available) ∧
  dealt o ≡ₚ buildCardsData (selectedFor o s).

(** The change handler of the difficulty selector. *)
Definition difficultyChange (d : difficulty) (s : state) : state :=
  let s := updateGameConfig (set_selectVal d s) in
  if negb (gameActive s) then say "Mode Set. Start!" s else s.

(** ** The event loop *)

(** Run the pending callback with handle [h], if its delay has elapsed.  A
    [setTimeout] callback leaves the queue; the [setInterval] callback is
    queued again for one second later. *)
Definition fire (h : nat) (s : state) : state :=
  match find (λ t, Nat.eqb (handle t) h) (tasks s) with
  | Some t =>
      if due t <=? now s then
        match code t with
        | cbStartTimer =>
            onTimer (set_tasks (rearm h (now s + 1000) (tasks s)) s)
        | cbProcessMismatch => onMismatchShown (set_tasks (cancel h (tasks s)) s)
        | cbResetTurnAfterDelay => onResetTurn (set_tasks (cancel h (tasks s)) s)
        | cbWinAlert =>
            alert "Congratulations! You matched all the Pokémon! You WIN!"
              (set_tasks (cancel h (tasks s)) s)
        | cbLoseAlert =>
            alert "Time's up! You LOST! Better luck next time, trainer!"
              (set_tasks (cancel h (tasks s)) s)
        | cbPowerUpReveal cardsArray => onRevealOver cardsArray (set_tasks (cancel h (tasks s)) s)
        end
      else s
  | None => s
  end.

Inductive event :=
  | Start (o : oracle)              (* click on Start or on Reset *)
  | CardClick (c : nat)             (* click on the card element [c] *)
  | PowerUp                         (* click on the power-up button *)
  | ImageSettled (k : nat)          (* load or error of an image of activation [k] *)
  | DifficultyChange (d : difficulty)
  | Wait                            (* one millisecond passes *)
  | Fire (h : nat).                 (* the browser runs the callback [h] *)

(** Only attached cards carry the click handler. *)
Definition step (e : event) (s : state) : state :=
  match e with
  | Start o => initializeGame o s
  | CardClick c => if bool_decide (c ∈ grid s) then handleCardClick c s else s
  | PowerUp => powerUpClick s
  | ImageSettled k => onImageSettled k s
  | DifficultyChange d => difficultyChange d s
  | Wait => set_now (now s + 1) s
  | Fire h => fire h s
  end.

Definition run (tr : list event) (s : state) : state :=
  foldl (λ s e, step e s) s tr.

(** The page once loaded: the initial setup has read the selector (whose
    markup selects medium) and the pre-fetch of the catalogue has settled
    with reply [r]. *)
Definition pageLoaded (r : option (list (option (string * Z)))) : state :=
  (fetchAllPokemonListOnce r
    (updateGameConfig
      {| selectVal := medium; currentDifficulty := medium; numPairs := 0; totalTime := 0;
         firstCard := None; secondCard := None; lockBoard := false; gameActive := false;
         clicks := 0; pairsMatched := 0; timeLeft := 0; timerInterval := None;
         powerUpUsedThisGame := false; allPokemonList := []; dom := []; grid := [];
         powerUpDisabled := true; messages := ["Select mode & Start!"]; alerts := [];
         now := 0; nextHandle := O; tasks := []; activations := [] |})).2.

(** ** Notions used by the properties *)

(** The deck of a game: the card elements on the board, in board order. *)
Definition deck (s : state) : list card := omap (λ c, dom s !! c) (grid s).

(** How many tiles of a deck show the item [i]. *)
Definition itemCount (i : Z) (d : list card) : nat :=
  length (filter (λ cd, pokemonId cd = i) d).

Definition deckWellFormed (d : list card) : Prop :=
  Nat.Even (length d) ∧
  (∀ cd, cd ∈ d → itemCount (pokemonId cd) d = 2%nat) ∧
  NoDup (cardId <$> d).

(** No two entries of the catalogue a start works from share an id. *)
Definition distinctCatalogue (o : oracle) (s : state) : Prop :=
  ∀ available, catalogueFor o s = Some available → NoDup (id <$> available).

(** How often the text [m] has been put in the message area. *)
Definition signals (m : string) (s : state) : nat :=
  length (filter (λ x, x = m) (messages s)).

Definition wins (s : state) : nat := signals "You Won!" s.
Definition timeouts (s : state) : nat := signals "Game Over!" s.

(** Events that stay within the current game. *)
Definition sameGame (e : event) : Prop :=
  match e with Start _ => False | _ => True end.

(** The callback [h] is pending with code [f], due at time [d]. *)
Definition pending (h : nat) (f : callback) (d : Z) (s : state) : Prop :=
  {| handle := h; due := d; code := f |} ∈ tasks s.

(** The callbacks of a turn or of the reveal, as opposed to the timer and
    the alert boxes. *)
Definition isForeground (f : callback) : bool :=
  match f with
  | cbProcessMismatch | cbResetTurnAfterDelay | cbPowerUpReveal _ => true
  | cbStartTimer | cbWinAlert | cbLoseAlert => false
  end.

Definition foreground (s : state) : list task :=
  filter (λ t, isForeground (code t) = true) (tasks s).

(** Image handlers still registered, over all activations. *)
Definition pendingLoads (s : state) : nat := sum_list (imagesToLoad <$> activations s).

(** No callback of a turn or of a reveal is outstanding. *)
Definition quiet (s : state) : Prop := foreground s = [] ∧ pendingLoads s = 0%nat.

(** Every state the page can be in. *)
Inductive Reachable : state → Prop :=
  | reach_load r : Reachable (pageLoaded r)
  | reach_step e s : Reachable s → Reachable (step e s).

(** The states of games that are started while nothing of an earlier turn
    or reveal is outstanding, on a catalogue without repeated ids. *)
Inductive CleanReachable : state → Prop :=
  | clean_load r : CleanReachable (pageLoaded r)
  | clean_step e s : CleanReachable s → sameGame e → CleanReachable (step e s)
  | clean_start o s :
      CleanReachable s → quiet s → sortOutcome o s → distinctCatalogue o s →
      CleanReachable (initializeGame o s).

(** The two card elements dealt for one Pokemon. *)
Definition pairOf (p : pokemon) : list card :=
  if negb (truthy (imageUrl p)) || negb (truthy (name p)) then []
  else [ {| pokemonId := id p; cardId := pretty (id p) +:+ "-a"; dataSrc := imageUrl p;
            src := None; flipped := false; matched := false |};
         {| pokemonId := id p; cardId := pretty (id p) +:+ "-b"; dataSrc := imageUrl p;
            src := None; flipped := false; matched := false |} ].

(** Whether the callback of [executePowerUpReveal] leaves the card [c]
    alone: it carries the card id of the first selected card, or it is
    matched. *)
Definition keeps (first : option nat) (d : list card) (c : nat) : bool :=
  match first with
  | Some f => bool_decide (cardId <$> d !! c = cardId <$> d !! f)
  | None => false
  end || default false (matched <$> d !! c).

(** [concealOne] on the card elements alone. *)
Definition concealDom (first : option nat) (c : nat) (d : list card) : list card :=
  if keeps first d c then d else alter removeClass_flipped c d.


(** ** Invariants of the timer queue *)

(** Handles are fresh and unique, and the handle kept in [timerInterval] is
    that of the interval callback and of nothing else. *)
Definition tasksOK (ts : list task) (nh : nat) (ti : option nat) : Prop :=
  (∀ t, t ∈ ts → (handle t < nh)%nat) ∧
  NoDup (handle <$> ts) ∧
  (∀ h, ti = Some h → (h < nh)%nat) ∧
  (∀ t, t ∈ ts → code t = cbStartTimer ↔ ti = Some (handle t)).

(** The interval callback is only pending in an active game with time left. *)
Definition timerLive (ts : list task) (active : bool) (left : Z) : Prop :=
  ∀ t, t ∈ ts → code t = cbStartTimer → active = true ∧ 1 ≤ left.

Definition TimerInv (s : state) : Prop :=
  tasksOK (tasks s) (nextHandle s) (timerInterval s) ∧
  timerLive (tasks s) (gameActive s) (timeLeft s).


(** ** Invariants of a turn *)

(** What the handlers can do to a card element: change its classes and set
    its image.  The two data attributes stay, and so does the class
    [matched] once it is there. *)
Definition classChange (cd cd' : card) : Prop :=
  pokemonId cd' = pokemonId cd ∧ cardId cd' = cardId cd ∧
  (matched cd = true → matched cd' = true).

Definition domStep (d d' : list card) : Prop :=
  ∀ i, match d !! i, d' !! i with
       | Some cd, Some cd' => classChange cd cd'
       | None, None => True
       | _, _ => False
       end.

(** The cards on the board exist and carry distinct card ids. *)
Definition boardOK (s : state) : Prop :=
  (∀ c, c ∈ grid s → is_Some (dom s !! c)) ∧
  (∀ c c', c ∈ grid s → c' ∈ grid s → data_card_id s c = data_card_id s c' → c = c').

(** What holds of an active game: an unlocked board has nothing of a turn
    or a reveal outstanding and shows its pending first card face up; at
    most one thing is outstanding at a time (one callback of a turn or of a
    reveal, or the image loads of one activation); and a reveal is only
    under way between turns. *)
Definition turnOK (s : state) : Prop :=
  (lockBoard s = false →
     foreground s = [] ∧ pendingLoads s = 0%nat ∧ secondCard s = None ∧
     ∀ f, firstCard s = Some f → hasClass_flipped s f = true) ∧
  (length (foreground s) ≤ 1)%nat ∧
  (foreground s = [] ∨ pendingLoads s = 0%nat) ∧
  (∀ k a, activations s !! k = Some a → imagesToLoad a ≠ 0%nat →
          pendingLoads s = imagesToLoad a) ∧
  ((pendingLoads s ≠ 0%nat ∨
    ∃ t cs, t ∈ foreground s ∧ code t = cbPowerUpReveal cs) → secondCard s = None).

Definition TurnInv (s : state) : Prop :=
  boardOK s ∧
  (∀ f, firstCard s = Some f → f ∈ grid s) ∧
  (gameActive s = true → turnOK s).


(** [handleCardClick] past its guard, up to the test of [firstCard]: the
    image is loaded, the click counted and the card flipped. *)
Definition selected (c : nat) (s : state) : state :=
  onCard addClass_flipped c
    (set_clicks (clicks s + 1)
      (onCard (λ cd, if needsLoad cd then attr_src cd else cd) c s)).

(** The guard of [handleCardClick] lets the click on [c] through. *)
Definition accepted (c : nat) (s : state) : Prop :=
  gameActive s = true ∧ lockBoard s = false ∧
  hasClass_flipped s c = false ∧ hasClass_matched s c = false.

(** The power-up handler past its guard: the flags it sets first, the cards
    it selects, and the outcome of its [each] loop (the number of images to
    load and the state with their loads started). *)
Definition armed (s : state) : state :=
  set_lockBoard true (set_powerUpDisabled true (set_powerUpUsedThisGame true s)).

Definition unmatchedCards (s : state) : list nat :=
  filter (λ c, hasClass_matched s c = false) (grid s).

Definition prepared (s : state) : nat * state :=
  foldl (λ acc c, prepareCard c acc) (O, armed s) (unmatchedCards s).




(** ** Example games *)

Definition bulbasaur : pokemon :=
  {| name := "bulbasaur"; id := 1; imageUrl := POKEMON_IMAGE_PATH 1 |}.
Definition ivysaur : pokemon :=
  {| name := "ivysaur"; id := 2; imageUrl := POKEMON_IMAGE_PATH 2 |}.
Definition venusaur : pokemon :=
  {| name := "venusaur"; id := 3; imageUrl := POKEMON_IMAGE_PATH 3 |}.
Definition pikachu : pokemon :=
  {| name := "pikachu"; id := 25; imageUrl := POKEMON_IMAGE_PATH 25 |}.

(** A catalogue of three Pokemon and two deals of it.  The cards of the
    first game are the elements 0 to 5: 1-a, 2-a, 1-b, 3-b, 3-a, 2-b; those
    of a second game are the elements 6 to 11: 1-a, 2-a, 3-a, 1-b, 2-b,
    3-b. *)
Definition threeReply : option (list (option (string * Z))) :=
  Some [Some ("bulbasaur", 1); Some ("ivysaur", 2); Some ("venusaur", 3)].

Definition firstDeal : oracle :=
  {| response := None;
     shuffled := [ivysaur; bulbasaur; venusaur];
     dealt := [mkCardData bulbasaur "-a"; mkCardData ivysaur "-a"; mkCardData bulbasaur "-b";
               mkCardData venusaur "-b"; mkCardData venusaur "-a"; mkCardData ivysaur "-b"] |}.

Definition secondDeal : oracle :=
  {| response := None;
     shuffled := [bulbasaur; ivysaur; venusaur];
     dealt := [mkCardData bulbasaur "-a"; mkCardData ivysaur "-a"; mkCardData venusaur "-a";
               mkCardData bulbasaur "-b"; mkCardData ivysaur "-b"; mkCardData venusaur "-b"] |}.

Definition threeGame : state := run [Start firstDeal] (pageLoaded threeReply).

(** A catalogue of one Pokemon: the game has one pair, the elements 0 and 1. *)
Definition oneReply : option (list (option (string * Z))) := Some [Some ("pikachu", 25)].

Definition oneDeal : oracle :=
  {| response := None; shuffled := [pikachu];
     dealt := [mkCardData pikachu "-a"; mkCardData pikachu "-b"] |}.

Definition oneGame : state := run [Start oneDeal] (pageLoaded oneReply).




(** A mismatched pair of the first game (elements 0 and 1); Reset 300 ms
    later; in the new game a first card (element 6) 200 ms after that and a
    second card (element 7, another mismatch) 300 ms later still.  After
    200 ms more the clock stands at 1000: the callback 1 of the first game's
    [processMismatch] is due. *)
Definition staleShowTrace : list event :=
  [Start firstDeal; CardClick 0; CardClick 1] ++ replicate 300 Wait ++
  [Start secondDeal] ++ replicate 200 Wait ++ [CardClick 6] ++ replicate 300 Wait ++
  [CardClick 7] ++ replicate 200 Wait.


(** One second of a game whose interval callback is [h], and [n] of them:
    the clock advances by 1000 ms, then the callback runs. *)
Definition oneSecond (h : nat) : list event := replicate 1000 Wait ++ [Fire h].

Definition seconds (n : nat) (h : nat) : list event := mjoin (replicate n (oneSecond h)).

(** The one-pair game 100 ms before its two minutes are over. *)
Definition lastMoments : state := run (seconds 119 0 ++ replicate 900 Wait) oneGame.

(** ** Notions used by the further properties *)

(** How many pending callbacks run the code [f], and how often the alert
    box with text [m] has been shown. *)
Definition queued (f : callback) (s : state) : nat :=
  length (filter (λ t, code t = f) (tasks s)).

Definition shown (m : string) (s : state) : nat :=
  length (filter (λ x, x = m) (alerts s)).

Definition winAlert : string := "Congratulations! You matched all the Pokémon! You WIN!".
Definition loseAlert : string := "Time's up! You LOST! Better luck next time, trainer!".


(** An entry of the catalogue as the filter of [fetchAllPokemonListOnce]
    lets it through. *)
Definition validEntry (p : pokemon) : Prop :=
  0 < id p ≤ MAX_POKEMON_ID_FOR_ARTWORK ∧ imageUrl p = POKEMON_IMAGE_PATH (id p).

(** Every message of a win or of a timeout has its alert box, shown or
    still to come. *)
Definition alertsDue (s : state) : Prop :=
  wins s = (shown winAlert s + queued cbWinAlert s)%nat ∧
  timeouts s = (shown loseAlert s + queued cbLoseAlert s)%nat.


(** The three-pair game with its first card selected, the power-up used,
    the five images it had to load settled and the two seconds of the
    reveal over: the callback 1 of [executePowerUpReveal] is due. *)
Definition revealDue : state :=
  run ([CardClick 0; PowerUp] ++ replicate 5 (ImageSettled 0) ++ replicate 2000 Wait)
    threeGame.

(** ** Images *)

(** The image of the card has been requested: its [src] is its
    [data-src]. *)
Definition imageRequested (cd : card) : Prop := src cd = Some (dataSrc cd).

(** What holds of every card element: there is an image to load, the [src]
    is either not set or the [data-src], and a card that shows its face has
    its image requested. *)
Definition imageOK (cd : card) : Prop :=
  truthy (dataSrc cd) = true ∧
  (src cd = None ∨ imageRequested cd) ∧
  (flipped cd = true ∨ matched cd = true → imageRequested cd).

Definition requestedAt (d : list card) (c : nat) : Prop :=
  ∃ cd, d !! c = Some cd ∧ imageRequested cd.

(** The card elements are in order, the cards on the board exist, and the
    cards the script still holds (the selected ones, and those kept by a
    click on the power-up button) have their images requested. *)
Definition imagesOK (s : state) : Prop :=
  Forall imageOK (dom s) ∧
  (∀ c, c ∈ grid s → is_Some (dom s !! c)) ∧
  (∀ f, firstCard s = Some f → requestedAt (dom s) f) ∧
  (∀ g, secondCard s = Some g → requestedAt (dom s) g) ∧
  (∀ a c, a ∈ activations s → c ∈ cardsToVisuallyFlip a → requestedAt (dom s) c).

(** From [d] to [d'] no element is lost and no request is undone. *)
Definition keepsRequests (d d' : list card) : Prop :=
  (∀ c, is_Some (d !! c) → is_Some (d' !! c)) ∧
  (∀ c, requestedAt d c → requestedAt d' c).

(** ** Pairs *)

(** The cards of the board that are matched. *)
Definition matchedOnBoard (s : state) : list nat :=
  filter (λ c, hasClass_matched s c = true) (grid s).

(** A callback of [resetTurnAfterDelay] is pending. *)
Definition resetPending (s : state) : Prop :=
  ∃ t, t ∈ tasks s ∧ code t = cbResetTurnAfterDelay.

(** [pairsMatched] counts the matched pairs of the board, and a selected
    card is not matched unless the turn is about to be reset. *)
Definition pairsOK (s : state) : Prop :=
  NoDup (grid s) ∧
  2 * pairsMatched s = Z.of_nat (length (matchedOnBoard s)) ∧
  (¬ resetPending s →
     (∀ f, firstCard s = Some f → hasClass_matched s f = false) ∧
     (∀ g, secondCard s = Some g → hasClass_matched s g = false)).

(** The class [matched] is on the same elements in [d'] as in [d]. *)
Definition sameMatched (d d' : list card) : Prop :=
  ∀ i, matched <$> d' !! i = matched <$> d !! i.

(** Events of a game during which the selector is left alone. *)
Definition sameMode (e : event) : Prop :=
  sameGame e ∧ ∀ d, e ≠ DifficultyChange d.

(** ** The statistics panel *)

(** [formatTime]: [Math.floor(seconds / 60)] is the quotient rounded down,
    [seconds % 60] the remainder with the sign of [seconds]. *)
Definition formatTime (seconds : Z) : string :=
  let minutes := seconds / 60 in
  let secs := Z.rem seconds 60 in
  pretty minutes +:+ ":" +:+ (if secs <? 10 then "0" else EmptyString) +:+ pretty secs.

(** The text of the five displays. *)
Record stats := {
  clicksDisplay : string;
  pairsMatchedDisplay : string;
  totalPairsDisplay : string;
  pairsLeftDisplay : string;
  timeLeftDisplay : string
}.

(** [updateStatsDisplay] writes all five displays. *)
Definition updateStatsDisplay (s : state) : stats :=
  {| clicksDisplay := pretty (clicks s);
     pairsMatchedDisplay := pretty (pairsMatched s);
     totalPairsDisplay := pretty (numPairs s);
     pairsLeftDisplay := pretty (numPairs s - pairsMatched s);
     timeLeftDisplay := formatTime (timeLeft s) |}.

(** [$timeLeftDisplay.text(t)] *)
Definition text_timeLeft (t : string) (v : stats) : stats :=
  {| clicksDisplay := clicksDisplay v; pairsMatchedDisplay := pairsMatchedDisplay v;
     totalPairsDisplay := totalPairsDisplay v; pairsLeftDisplay := pairsLeftDisplay v;
     timeLeftDisplay := t |}.

(** What each handler writes to the panel.  The functions below follow the
    handlers above step by step; [s] is the state and [v] the panel when
    the handler is entered, the result is the panel when it returns. *)

Definition endGame_stats (isWin : bool) (s : state) (v : stats) : stats :=
  if negb (gameActive s) && negb isWin && (0 <? timeLeft s) then v
  else if negb (gameActive s) && isWin then v
  else if negb (gameActive s) && negb isWin && (timeLeft s <=? 0) then v
  else if isWin then v
  else if timeLeft s <=? 0 then text_timeLeft "0:00" v
  else v.

Definition onResetTurn_stats (s : state) (v : stats) : stats :=
  let s := set_firstCard None s in
  let s := set_secondCard None s in
  let s := set_lockBoard false s in
  if gameActive s && (pairsMatched s =? numPairs s) then endGame_stats true s v else v.

Definition processMatch_stats (s : state) (v : stats) : stats :=
  let s := match firstCard s with Some f => onCard addClass_matched f s | None => s end in
  let s := match secondCard s with Some g => onCard addClass_matched g s | None => s end in
  let s := set_pairsMatched (pairsMatched s + 1) s in
  updateStatsDisplay s.

Definition checkForMatch_stats (s : state) (v : stats) : stats :=
  if isMatch s then processMatch_stats s v else v.

Definition handleCardClick_stats (c : nat) (s : state) (v : stats) : stats :=
  if negb (gameActive s) || lockBoard s || hasClass_flipped s c || hasClass_matched s c
  then v
  else
    let s := onCard (λ cd, if needsLoad cd then attr_src cd else cd) c s in
    let s := set_clicks (clicks s + 1) s in
    let v := updateStatsDisplay s in
    let s := onCard addClass_flipped c s in
    match firstCard s with
    | None => v
    | Some f =>
        if bool_decide (data_card_id s c = data_card_id s f) then
          let s := onCard removeClass_flipped c s in
          let s := set_clicks (clicks s - 1) s in
          updateStatsDisplay s
        else
          let s := set_secondCard (Some c) s in
          let s := set_lockBoard true s in
          checkForMatch_stats s v
    end.

(** [startTimer] shows the time before it sets the interval. *)
Definition startTimer_stats (s : state) (v : stats) : stats :=
  text_timeLeft (formatTime (timeLeft s)) v.

Definition onTimer_stats (s : state) (v : stats) : stats :=
  let s := set_timeLeft (timeLeft s - 1) s in
  let v := text_timeLeft (formatTime (timeLeft s)) v in
  if (timeLeft s <=? 0) && gameActive s then endGame_stats false s v else v.

Definition dealCards_stats (o : oracle) (selectedPokemon : list pokemon) (s : state)
    (v : stats) : stats :=
  match selectedPokemon with
  | [] => v
  | _ :: _ =>
      let v := updateStatsDisplay s in
      match buildCardsData selectedPokemon with
      | [] => v
      | _ :: _ =>
          let elements := omap cardElement (dealt o) in
          let s := set_grid (seq (length (dom s)) (length elements))
                     (set_dom (dom s ++ elements) s) in
          match grid s with
          | [] => v
          | _ :: _ =>
              let s := set_timeLeft (totalTime s) s in
              let v := startTimer_stats s v in
              let s := startTimer s in
              updateStatsDisplay s
          end
      end
  end.

Definition initializeGame_stats (o : oracle) (s : state) (v : stats) : stats :=
  let s := resetForNewGame s in
  let sel := selectRandomPokemonForGame o (numPairs s) s in
  dealCards_stats o sel.1 sel.2 v.

Definition difficultyChange_stats (d : difficulty) (s : state) (v : stats) : stats :=
  let s := updateGameConfig (set_selectVal d s) in
  if negb (gameActive s)
  then text_timeLeft (formatTime (totalTime s)) (updateStatsDisplay s)
  else v.

Definition fire_stats (h : nat) (s : state) (v : stats) : stats :=
  match find (λ t, Nat.eqb (handle t) h) (tasks s) with
  | Some t =>
      if due t <=? now s then
        match code t with
        | cbStartTimer => onTimer_stats (set_tasks (rearm h (now s + 1000) (tasks s)) s) v
        | cbResetTurnAfterDelay => onResetTurn_stats (set_tasks (cancel h (tasks s)) s) v
        | cbProcessMismatch | cbWinAlert | cbLoseAlert | cbPowerUpReveal _ => v
        end
      else v
  | None => v
  end.

Definition step_stats (e : event) (s : state) (v : stats) : stats :=
  match e with
  | Start o => initializeGame_stats o s v
  | CardClick c => if bool_decide (c ∈ grid s) then handleCardClick_stats c s v else v
  | DifficultyChange d => difficultyChange_stats d s v
  | Fire h => fire_stats h s v
  | PowerUp | ImageSettled _ | Wait => v
  end.

(** The page with its panel. *)
Record page := { st : state; panel : stats }.

Definition pageStep (e : event) (p : page) : page :=
  {| st := step e (st p); panel := step_stats e (st p) (panel p) |}.

Definition pageRun (tr : list event) (p : page) : page := foldl (λ p e, pageStep e p) p tr.

(** The initial setup: [updateGameConfig(); updateStatsDisplay();
    $timeLeftDisplay.text(formatTime(totalTime))], before the pre-fetch of
    the catalogue. *)
Definition setup : state :=
  updateGameConfig
    {| selectVal := medium; currentDifficulty := medium; numPairs := 0; totalTime := 0;
       firstCard := None; secondCard := None; lockBoard := false; gameActive := false;
       clicks := 0; pairsMatched := 0; timeLeft := 0; timerInterval := None;
       powerUpUsedThisGame := false; allPokemonList := []; dom := []; grid := [];
       powerUpDisabled := true; messages := ["Select mode & Start!"]; alerts := [];
       now := 0; nextHandle := O; tasks := []; activations := [] |}.

Definition pageSetup (r : option (list (option (string * Z)))) : page :=
  {| st := (fetchAllPokemonListOnce r setup).2;
     panel := text_timeLeft (formatTime (totalTime setup)) (updateStatsDisplay setup) |}.

Inductive PageReachable : page → Prop :=
  | page_load r : PageReachable (pageSetup r)
  | page_step e p : PageReachable p → PageReachable (pageStep e p).


(** ** The power-up button *)

(** The button is disabled exactly when no game is active or the power-up
    of the game is spent. *)
Definition buttonOK (s : state) : Prop :=
  powerUpDisabled s = negb (gameActive s) || powerUpUsedThisGame s.

(** ** Cards that show their picture *)






(** The class [flipped] is on the same elements in [d'] as in [d]. *)
Definition sameFlipped (d d' : list card) : Prop :=
  ∀ i, flipped <$> d' !! i = flipped <$> d !! i.

(** * Proofs

    ** Card ids *)

Section strings.
Lemma append_cons a s t : String a s +:+ t = String a (s +:+ t).
Proof. reflexivity. Qed.

Lemma length_append s t : String.length (s +:+ t) = (String.length s + String.length t)%nat.
Proof. induction s as [|a s IH]; [done|]. rewrite append_cons. simpl. by rewrite IH. Qed.

Lemma append_inj_r s1 s2 t : s1 +:+ t = s2 +:+ t → s1 = s2.
Proof.
  revert s2. induction s1 as [|a s1 IH]; intros [|b s2] H; try done.
  - apply (f_equal String.length) in H. rewrite !length_append in H. simpl in H. lia.
  - apply (f_equal String.length) in H. rewrite !length_append in H. simpl in H. lia.
  - rewrite !append_cons in H. injection H as -> H. f_equal. by apply IH.
Qed.

Lemma suffix_a_b s1 s2 : s1 +:+ "-a" ≠ s2 +:+ "-b".
Proof.
  revert s2. induction s1 as [|a s1 IH]; intros [|b s2] H.
  - discriminate.
  - apply (f_equal String.length) in H. rewrite !length_append in H. simpl in H. lia.
  - apply (f_equal String.length) in H. rewrite !length_append in H. simpl in H. lia.
  - rewrite !append_cons in H. injection H as -> H. by eapply IH.
Qed.
End strings.

(** ** The deck builder *)

Lemma cardElement_buildCardsData sel :
  omap cardElement (buildCardsData sel) = flat_map pairOf sel.
Proof.
  induction sel as [|p sel IH]; [done|].
  unfold buildCardsData in *. simpl. rewrite omap_app, IH. f_equal.
  unfold pairOf. destruct (negb (truthy (imageUrl p)) || negb (truthy (name p))) eqn:E; [done|].
  simpl. unfold cardElement, mkCardData. simpl. by rewrite E.
Qed.

Lemma pairOf_item p cd : cd ∈ pairOf p → pokemonId cd = id p.
Proof.
  unfold pairOf. destruct (_ || _); [by intros ?%elem_of_nil|].
  intros [->|[->|[]%elem_of_nil]%elem_of_cons]%elem_of_cons; done.
Qed.

Lemma pairOf_cardId p cd :
  cd ∈ pairOf p → cardId cd = pretty (id p) +:+ "-a" ∨ cardId cd = pretty (id p) +:+ "-b".
Proof.
  unfold pairOf. destruct (_ || _); [by intros ?%elem_of_nil|].
  intros [->|[->|[]%elem_of_nil]%elem_of_cons]%elem_of_cons; auto.
Qed.

Lemma flat_map_pairOf_item sel cd :
  cd ∈ flat_map pairOf sel → pokemonId cd ∈ id <$> sel.
Proof.
  induction sel as [|p sel IH]; simpl; [by intros ?%elem_of_nil|].
  intros [H|H]%elem_of_app.
  - apply pairOf_item in H as ->. left.
  - right. by apply IH.
Qed.

Lemma itemCount_app i d1 d2 : itemCount i (d1 ++ d2) = (itemCount i d1 + itemCount i d2)%nat.
Proof. unfold itemCount. by rewrite filter_app, length_app. Qed.

Lemma itemCount_absent i d : i ∉ pokemonId <$> d → itemCount i d = 0%nat.
Proof.
  unfold itemCount. induction d as [|cd d IH]; [done|].
  rewrite fmap_cons, not_elem_of_cons. intros [Hne Hd].
  rewrite filter_cons_False by congruence. by apply IH.
Qed.

Lemma itemCount_pairOf p cd : cd ∈ pairOf p → itemCount (id p) (pairOf p) = 2%nat.
Proof.
  unfold pairOf. destruct (_ || _); [by intros ?%elem_of_nil|]. intros _.
  unfold itemCount. rewrite !filter_cons_True by done. done.
Qed.

Lemma itemCount_pairOf_other i p : i ≠ id p → itemCount i (pairOf p) = 0%nat.
Proof.
  intros Hne. apply itemCount_absent. intros (cd & -> & Hcd)%list_elem_of_fmap.
  by apply pairOf_item in Hcd.
Qed.

Lemma flat_map_pairOf_wf sel :
  NoDup (id <$> sel) → deckWellFormed (flat_map pairOf sel).
Proof.
  induction sel as [|p sel IH]; simpl.
  { intros _. split_and!; [by exists 0%nat | by intros ? ?%elem_of_nil | constructor]. }
  rewrite NoDup_cons. intros [Hp Hsel]. destruct (IH Hsel) as (Hev & Hcnt & Hnd).
  assert (Hfresh : ∀ cd, cd ∈ flat_map pairOf sel → pokemonId cd ≠ id p).
  { intros cd Hcd Heq. apply flat_map_pairOf_item in Hcd. by rewrite Heq in Hcd. }
  split_and!.
  - rewrite length_app. apply Nat.Even_Even_add; [|done].
    unfold pairOf. destruct (_ || _); [by exists 0%nat | by exists 1%nat].
  - intros cd [Hcd|Hcd]%elem_of_app; rewrite itemCount_app.
    + rewrite (pairOf_item _ _ Hcd), (itemCount_pairOf _ _ Hcd).
      rewrite itemCount_absent; [done|].
      intros (cd' & Heq & Hcd')%list_elem_of_fmap. by apply (Hfresh cd').
    + rewrite itemCount_pairOf_other by by apply Hfresh. by rewrite Hcnt.
  - rewrite fmap_app. apply NoDup_app. split_and!; [| |done].
    + unfold pairOf. destruct (_ || _); simpl; [constructor|].
      apply NoDup_cons. split; [|apply NoDup_singleton].
      rewrite list_elem_of_singleton. apply suffix_a_b.
    + intros x (cd & -> & Hcd)%list_elem_of_fmap (cd' & Heq & Hcd')%list_elem_of_fmap.
      apply (Hfresh cd' Hcd').
      assert (Hinj : pretty (pokemonId cd') = pretty (id p)); [|by apply (inj pretty) in Hinj].
      destruct (pairOf_cardId _ _ Hcd) as [H1|H1];
        rewrite H1 in Heq; clear H1.
      all: assert (Hfm := flat_map_pairOf_item _ _ Hcd').
      all: clear -Heq Hcd'.
      all: induction sel as [|q sel IH]; simpl in Hcd'; [by apply elem_of_nil in Hcd'|].
      all: apply elem_of_app in Hcd' as [Hq|Hq]; [|by apply IH].
      all: rewrite (pairOf_item _ _ Hq).
      all: destruct (pairOf_cardId _ _ Hq) as [H2|H2]; rewrite H2 in Heq.
      all: first [ by apply append_inj_r in Heq
                 | by apply suffix_a_b in Heq
                 | by symmetry in Heq; apply suffix_a_b in Heq ].
Qed.

Lemma deckWellFormed_Permutation d1 d2 : d1 ≡ₚ d2 → deckWellFormed d1 → deckWellFormed d2.
Proof.
  intros Hp (Hev & Hcnt & Hnd). split_and!.
  - by rewrite <-Hp.
  - intros cd Hcd. rewrite <-Hp in Hcd. rewrite <-(Hcnt cd Hcd).
    unfold itemCount. by rewrite Hp.
  - by rewrite <-Hp.
Qed.

Lemma omap_lookup_seq_app {A} (l k : list A) :
  omap (λ c, (l ++ k) !! c) (seq (length l) (length k)) = k.
Proof.
  revert l. induction k as [|x k IH]; intros l; [done|].
  simpl. rewrite list_lookup_middle by done. f_equal.
  specialize (IH (l ++ [x])). rewrite <-app_assoc, length_app in IH. simpl in IH.
  by rewrite Nat.add_1_r in IH.
Qed.

Lemma deck_dealCards o sel s :
  grid s = [] →
  deck (dealCards o sel s) = [] ∨ deck (dealCards o sel s) = omap cardElement (dealt o).
Proof.
  intros Hg. unfold dealCards. destruct sel as [|p sel].
  { left. unfold deck. case_bool_decide; simpl; by rewrite Hg. }
  destruct (buildCardsData (p :: sel)) as [|cd cds].
  { left. unfold deck. simpl. by rewrite Hg. }
  cbn zeta.
  destruct (grid (set_grid _ _)) as [|c cs] eqn:Hgrid.
  { left. unfold deck. simpl in *. by rewrite Hgrid. }
  right. unfold deck. cbn. apply omap_lookup_seq_app.
Qed.

Lemma selectRandomPokemonForGame_grid o n s :
  grid (selectRandomPokemonForGame o n s).2 = grid s.
Proof.
  unfold selectRandomPokemonForGame, fetchAllPokemonListOnce.
  destruct (allPokemonList s) eqn:E; simpl.
  - destruct (response o) as [r|]; simpl; [|done].
    destruct (omap usable r); simpl; [done|]. by case_match.
  - by case_match.
Qed.

Lemma deck_initializeGame o s :
  deck (initializeGame o s) = [] ∨
  deck (initializeGame o s) = omap cardElement (dealt o).
Proof.
  unfold initializeGame. cbn zeta. apply deck_dealCards.
  by rewrite selectRandomPokemonForGame_grid.
Qed.

(** The Pokemon selected for a game are a prefix of the shuffled catalogue. *)
Lemma selectedFor_take o s :
  selectedFor o s = [] ∨
  ∃ n available, catalogueFor o s = Some available ∧ selectedFor o s = take n (shuffled o).
Proof.
  unfold selectedFor, catalogueFor, selectRandomPokemonForGame.
  destruct (fetchAllPokemonListOnce _ _) as [[available|] s']; simpl; [|by left].
  destruct available as [|p l]; [by left|]. right.
  case_match; simpl; eauto.
Qed.

Lemma deck_wellFormed_distinct o s :
  sortOutcome o s → distinctCatalogue o s → deckWellFormed (deck (initializeGame o s)).
Proof.
  intros [Hshuf Hdealt] Hdist.
  destruct (deck_initializeGame o s) as [->| ->].
  { split_and!; [by exists 0%nat | by intros ? ?%elem_of_nil | constructor]. }
  eapply deckWellFormed_Permutation.
  { symmetry. apply (omap_Permutation cardElement), Hdealt. }
  rewrite cardElement_buildCardsData. apply flat_map_pairOf_wf.
  destruct (selectedFor_take o s) as [->|(n & available & Hcat & ->)]; [constructor|].
  rewrite fmap_take. eapply sublist_NoDup; [|apply sublist_take].
  rewrite (Hshuf _ Hcat). by apply Hdist.
Qed.

(** ** Class changes on collections of cards *)

Lemma set_dom_id s : set_dom (dom s) s = s.
Proof. by destruct s. Qed.

Lemma onCards_dom f cs s :
  onCards f cs s = set_dom (foldl (λ d c, alter f c d) (dom s) cs) s.
Proof.
  unfold onCards. revert s. induction cs as [|c cs IH]; intros s; simpl.
  - by destruct s.
  - rewrite IH. by destruct s.
Qed.


Lemma concealOne_dom c s : concealOne c s = set_dom (concealDom (firstCard s) c (dom s)) s.
Proof.
  unfold concealOne, concealDom, keeps, data_card_id, hasClass_matched.
  destruct (firstCard s) as [f|] eqn:E.
  - case_bool_decide; simpl; [by rewrite set_dom_id|].
    destruct (default _ _); [by rewrite set_dom_id|done].
  - simpl. destruct (default _ _); [by rewrite set_dom_id|done].
Qed.

Lemma foldl_concealOne_dom cs s :
  foldl (λ s c, concealOne c s) s cs
  = set_dom (foldl (λ d c, concealDom (firstCard s) c d) (dom s) cs) s.
Proof.
  revert s. induction cs as [|c cs IH]; intros s; simpl.
  - by rewrite set_dom_id.
  - rewrite IH, concealOne_dom. by destruct s.
Qed.

Lemma lookup_alter_class {B} (g : card → B) (f : card → card) c (d : list card) i :
  (∀ cd, g (f cd) = g cd) →
  g <$> alter f c d !! i = g <$> d !! i.
Proof.
  intros Hg. destruct (decide (c = i)) as [->|Hne].
  - rewrite list_lookup_alter_eq. destruct (d !! i); simpl; by rewrite ?Hg.
  - by rewrite list_lookup_alter_ne.
Qed.





(** ** An ended game stays ended *)

Lemma endGame_inactive b s : gameActive s = false → endGame b s = s.
Proof.
  intros H. unfold endGame. rewrite H. simpl.
  destruct b; simpl; [done|]. destruct (0 <? timeLeft s) eqn:E1; [done|].
  destruct (timeLeft s <=? 0) eqn:E2; [done|]. lia.
Qed.

Lemma endGame_active b s :
  gameActive s = true →
  endGame b s =
    let s := set_gameActive false s in
    let s := clearInterval s in
    let s := set_lockBoard true s in
    let s := set_powerUpDisabled true s in
    let s := onCards (λ cd, if matched cd then addClass_flipped cd else cd) (grid s) s in
    if b then schedule cbWinAlert 100 (say "You Won!" s)
    else if timeLeft s <=? 0 then schedule cbLoseAlert 100 (say "Game Over!" s)
    else s.
Proof. intros H. unfold endGame. by rewrite H. Qed.

Lemma handleCardClick_inactive c s : gameActive s = false → handleCardClick c s = s.
Proof. intros H. unfold handleCardClick. by rewrite H. Qed.

Lemma powerUpClick_rejected s :
  gameActive s = false ∨ lockBoard s = true ∨ powerUpUsedThisGame s = true →
  powerUpClick s = s.
Proof.
  intros H. unfold powerUpClick.
  destruct H as [-> | [-> | ->]]; by rewrite ?orb_true_r.
Qed.

Lemma gameActive_onImageSettled k s : gameActive (onImageSettled k s) = gameActive s.
Proof.
  unfold onImageSettled, executePowerUpReveal. repeat case_match; rewrite ?onCards_dom; done.
Qed.

Lemma gameActive_fire h s : gameActive s = false → gameActive (fire h s) = false.
Proof.
  intros H. unfold fire. repeat case_match; try done.
  - unfold onTimer. simpl. rewrite H. by rewrite andb_false_r.
  - unfold onMismatchShown. repeat case_match; done.
  - unfold onResetTurn. simpl. by rewrite H.
  - unfold onRevealOver. cbn zeta. by rewrite foldl_concealOne_dom.
Qed.

Lemma step_inactive e s : sameGame e → gameActive s = false → gameActive (step e s) = false.
Proof.
  intros He H. destruct e as [o|c| |k|d| |h]; simpl; try done.
  - case_bool_decide; [|done]. by rewrite handleCardClick_inactive.
  - by rewrite powerUpClick_rejected by auto.
  - by rewrite gameActive_onImageSettled.
  - unfold difficultyChange. simpl. by rewrite H.
  - by apply gameActive_fire.
Qed.

Lemma run_app tr1 tr2 s : run (tr1 ++ tr2) s = run tr2 (run tr1 s).
Proof. apply foldl_app. Qed.

Lemma run_inactive tr s :
  Forall sameGame tr → gameActive s = false → gameActive (run tr s) = false.
Proof.
  intros Htr. revert s. induction Htr as [|e tr He Htr IH]; intros s H; [done|].
  simpl. apply IH. by apply step_inactive.
Qed.

(** ** The power-up flag within a game *)

Lemma powerUpUsed_onImageSettled k s :
  powerUpUsedThisGame (onImageSettled k s) = powerUpUsedThisGame s.
Proof.
  unfold onImageSettled, executePowerUpReveal. repeat case_match; rewrite ?onCards_dom; done.
Qed.

Lemma powerUpUsed_endGame b s :
  powerUpUsedThisGame (endGame b s) = powerUpUsedThisGame s.
Proof. unfold endGame. repeat case_match; rewrite ?onCards_dom; done. Qed.

Lemma powerUpUsed_handleCardClick c s :
  powerUpUsedThisGame (handleCardClick c s) = powerUpUsedThisGame s.
Proof.
  unfold handleCardClick, checkForMatch, processMatch, processMismatch.
  repeat case_match; done.
Qed.

Lemma powerUpUsed_fire h s : powerUpUsedThisGame (fire h s) = powerUpUsedThisGame s.
Proof.
  unfold fire. repeat case_match; try done.
  - unfold onTimer. case_match; [|done]. by rewrite powerUpUsed_endGame.
  - unfold onMismatchShown. repeat case_match; done.
  - unfold onResetTurn. cbn zeta. case_match; [|done]. by rewrite powerUpUsed_endGame.
  - unfold onRevealOver. cbn zeta. by rewrite foldl_concealOne_dom.
Qed.

Lemma powerUpUsed_powerUpClick s :
  powerUpUsedThisGame s = true → powerUpUsedThisGame (powerUpClick s) = true.
Proof. intros H. by rewrite powerUpClick_rejected by auto. Qed.

Lemma step_powerUpUsed e s :
  sameGame e → powerUpUsedThisGame s = true → powerUpUsedThisGame (step e s) = true.
Proof.
  intros He H. destruct e as [o|c| |k|d| |h]; simpl; try done.
  - case_bool_decide; [|done]. by rewrite powerUpUsed_handleCardClick.
  - by apply powerUpUsed_powerUpClick.
  - by rewrite powerUpUsed_onImageSettled.
  - unfold difficultyChange. by case_match.
  - by rewrite powerUpUsed_fire.
Qed.

Lemma run_powerUpUsed tr s :
  Forall sameGame tr → powerUpUsedThisGame s = true → powerUpUsedThisGame (run tr s) = true.
Proof.
  intros Htr. revert s. induction Htr as [|e tr He Htr IH]; intros s H; [done|].
  simpl. apply IH. by apply step_powerUpUsed.
Qed.

Lemma prepareCard_fold_used cs n s :
  powerUpUsedThisGame (foldl (λ acc c, prepareCard c acc) (n, s) cs).2 = powerUpUsedThisGame s.
Proof.
  revert n s. induction cs as [|c cs IH]; intros n s; [done|]. cbn [foldl].
  unfold prepareCard at 2. cbn [fst snd]. case_match; by rewrite IH.
Qed.

Lemma powerUpClick_accepted s :
  gameActive s = true → lockBoard s = false → powerUpUsedThisGame s = false →
  powerUpUsedThisGame (powerUpClick s) = true.
Proof.
  intros H1 H2 H3. unfold powerUpClick, executePowerUpReveal. rewrite H1, H2, H3. cbn zeta.
  cbn [negb orb]. case_match; rewrite ?onCards_dom; cbn; by rewrite prepareCard_fold_used.
Qed.

(** ** The timer queue *)

Lemma find_handle (ts : list task) t :
  NoDup (handle <$> ts) → t ∈ ts →
  find (λ t', Nat.eqb (handle t') (handle t)) ts = Some t.
Proof.
  induction ts as [|t0 ts IH]; [by intros _ ?%elem_of_nil|].
  rewrite fmap_cons, NoDup_cons. intros [Hnotin Hnd] [->|Hin]%elem_of_cons; simpl.
  - by rewrite Nat.eqb_refl.
  - destruct (Nat.eqb_spec (handle t0) (handle t)) as [Heq|_]; [|by apply IH].
    destruct Hnotin. rewrite Heq. by apply list_elem_of_fmap_2.
Qed.

Lemma find_pending h f d s :
  NoDup (handle <$> tasks s) → pending h f d s →
  find (λ t', Nat.eqb (handle t') h) (tasks s) = Some {| handle := h; due := d; code := f |}.
Proof. intros Hnd Hp. by apply (find_handle _ _ Hnd Hp). Qed.

Lemma find_Some_handle (ts : list task) h t :
  find (λ t', Nat.eqb (handle t') h) ts = Some t → t ∈ ts ∧ handle t = h.
Proof.
  induction ts as [|t0 ts IH]; simpl; [done|].
  destruct (Nat.eqb_spec (handle t0) h) as [Heq|_].
  - intros [= <-]. split; [left|done].
  - intros [? ?]%IH. split; [by right|done].
Qed.

(** ** Tiles and clicks *)

Lemma tileAt_FaceDown s c :
  tileAt s c = Some FaceDown ↔
  ∃ cd, dom s !! c = Some cd ∧ flipped cd = false ∧ matched cd = false.
Proof.
  unfold tileAt, tileStateOf. destruct (dom s !! c) as [cd|]; simpl.
  - split.
    + destruct (matched cd) eqn:?, (flipped cd) eqn:?; intros [=]. eauto.
    + intros (? & [= <-] & -> & ->). done.
  - split; [done | by intros (? & ? & _)].
Qed.

Lemma tileAt_FaceUp s c :
  tileAt s c = Some FaceUp ↔
  ∃ cd, dom s !! c = Some cd ∧ flipped cd = true ∧ matched cd = false.
Proof.
  unfold tileAt, tileStateOf. destruct (dom s !! c) as [cd|]; simpl.
  - split.
    + destruct (matched cd) eqn:?, (flipped cd) eqn:?; intros [=]. eauto.
    + intros (? & [= <-] & -> & ->). done.
  - split; [done | by intros (? & ? & _)].
Qed.


(** The first selection of a turn, on a face-down tile. *)
Lemma handleCardClick_first c cd s :
  gameActive s = true → lockBoard s = false → firstCard s = None →
  dom s !! c = Some cd → flipped cd = false → matched cd = false →
  handleCardClick c s =
    set_firstCard (Some c)
      (onCard addClass_flipped c
        (set_clicks (clicks s + 1)
          (onCard (λ cd, if needsLoad cd then attr_src cd else cd) c s))).
Proof.
  intros Ha Hl Hf Hc Hfl Hm. unfold handleCardClick, hasClass_flipped, hasClass_matched.
  rewrite Ha, Hl, Hc. simpl. rewrite Hfl, Hm. simpl. by rewrite Hf.
Qed.

Lemma handleCardClick_flipped c s : hasClass_flipped s c = true → handleCardClick c s = s.
Proof. intros H. unfold handleCardClick. rewrite H. by rewrite !orb_true_r. Qed.

Lemma handleCardClick_locked c s : lockBoard s = true → handleCardClick c s = s.
Proof. intros H. unfold handleCardClick. rewrite H. by rewrite !orb_true_r. Qed.

(** ** The timer queue stays well formed *)

Lemma set_tasks_id s : set_tasks (tasks s) s = s.
Proof. by destruct s. Qed.

Lemma elem_of_cancel h t (ts : list task) : t ∈ cancel h ts ↔ handle t ≠ h ∧ t ∈ ts.
Proof. unfold cancel. by rewrite list_elem_of_filter. Qed.

Lemma cancel_sublist h ts : cancel h ts `sublist_of` ts.
Proof. apply sublist_filter. Qed.

Lemma tasksOK_cancel h ts nh ti : tasksOK ts nh ti → tasksOK (cancel h ts) nh ti.
Proof.
  intros (Ha & Hb & Hc & Hd). split_and!; [| |done|].
  - intros t [_ ?]%elem_of_cancel. by apply Ha.
  - eapply sublist_NoDup; [exact Hb|]. apply fmap_sublist, cancel_sublist.
  - intros t [_ ?]%elem_of_cancel. by apply Hd.
Qed.

Lemma tasksOK_schedule f d ts nh ti :
  f ≠ cbStartTimer → tasksOK ts nh ti →
  tasksOK (ts ++ [{| handle := nh; due := d; code := f |}]) (S nh) ti.
Proof.
  intros Hf (Ha & Hb & Hc & Hd). split_and!.
  - intros t [Ht|Ht%list_elem_of_singleton]%elem_of_app. { specialize (Ha t Ht). lia. } subst t. simpl. lia.
  - rewrite fmap_app. apply NoDup_app. split_and!; [done| |apply NoDup_singleton].
    intros h (t & -> & Ht)%list_elem_of_fmap Hs%list_elem_of_singleton.
    specialize (Ha t Ht). simpl in Hs. lia.
  - intros h Hh. specialize (Hc h Hh). lia.
  - intros t [Ht|Ht%list_elem_of_singleton]%elem_of_app. { by apply Hd. } subst t. simpl.
    split; [done|]. intros Hti. specialize (Hc _ Hti). lia.
Qed.

Lemma tasksOK_startTimer d ts nh ti :
  (∀ t, t ∈ ts → code t ≠ cbStartTimer) → tasksOK ts nh ti →
  tasksOK (ts ++ [{| handle := nh; due := d; code := cbStartTimer |}]) (S nh) (Some nh).
Proof.
  intros Hno (Ha & Hb & Hc & Hd). split_and!.
  - intros t [Ht|Ht%list_elem_of_singleton]%elem_of_app. { specialize (Ha t Ht). lia. } subst t. simpl. lia.
  - rewrite fmap_app. apply NoDup_app. split_and!; [done| |apply NoDup_singleton].
    intros h (t & -> & Ht)%list_elem_of_fmap Hs%list_elem_of_singleton.
    specialize (Ha t Ht). simpl in Hs. lia.
  - intros h [= <-]. lia.
  - intros t [Ht|Ht%list_elem_of_singleton]%elem_of_app. 2:{ by subst t. }
    split; [by intros ?%Hno|]. intros [= Heq]. specialize (Ha t Ht). lia.
Qed.

Lemma tasksOK_cleared ts nh ti t :
  tasksOK ts nh ti →
  t ∈ match ti with Some h => cancel h ts | None => ts end → code t ≠ cbStartTimer.
Proof.
  intros (Ha & Hb & Hc & Hd). destruct ti as [h|].
  - intros [Hne Ht]%elem_of_cancel Hcode. apply Hd in Hcode; [|done]. congruence.
  - intros Ht Hcode. by apply Hd in Hcode.
Qed.

Lemma rearm_handles h d ts : handle <$> rearm h d ts = handle <$> ts.
Proof.
  unfold rearm. induction ts as [|t ts IH]; [done|].
  cbn [map]. rewrite !fmap_cons, IH. f_equal.
  destruct (Nat.eqb_spec (handle t) h); done.
Qed.

Lemma elem_of_rearm h d ts t :
  t ∈ rearm h d ts →
  (t ∈ ts ∧ handle t ≠ h) ∨
  (t = {| handle := h; due := d; code := cbStartTimer |} ∧ ∃ t0, t0 ∈ ts ∧ handle t0 = h).
Proof.
  unfold rearm. rewrite list_elem_of_In, in_map_iff.
  intros (t0 & Ht & Ht0%list_elem_of_In).
  destruct (Nat.eqb_spec (handle t0) h) as [Heq|Hne]; subst t; eauto.
Qed.

Lemma tasksOK_rearm h d ts nh ti t0 :
  t0 ∈ ts → handle t0 = h → code t0 = cbStartTimer →
  tasksOK ts nh ti → tasksOK (rearm h d ts) nh ti.
Proof.
  intros Ht0 Hh Hcode (Ha & Hb & Hc & Hd). split_and!; [| |done|].
  - intros t [[Ht _]|[-> _]]%elem_of_rearm; [by apply Ha|]. simpl. subst h. by apply Ha.
  - by rewrite rearm_handles.
  - intros t [[Ht _]|[-> _]]%elem_of_rearm; [by apply Hd|]. simpl.
    split; [|done]. intros _. apply (Hd t0) in Hcode; [|done]. by subst h.
Qed.

Lemma timerLive_sub ts ts' a l :
  (∀ t, t ∈ ts' → code t = cbStartTimer → ∃ t0, t0 ∈ ts ∧ code t0 = cbStartTimer) →
  timerLive ts a l → timerLive ts' a l.
Proof. intros Hsub H t Ht Hc. destruct (Hsub t Ht Hc) as (t0 & ? & ?). by apply (H t0). Qed.

Lemma timerLive_none ts a l :
  (∀ t, t ∈ ts → code t ≠ cbStartTimer) → timerLive ts a l.
Proof. intros H t Ht Hc. by apply H in Ht. Qed.

Lemma timerLive_cancel h ts a l : timerLive ts a l → timerLive (cancel h ts) a l.
Proof. apply timerLive_sub. intros t [_ ?]%elem_of_cancel ?. eauto. Qed.

Lemma timerLive_schedule f d h ts a l :
  f ≠ cbStartTimer → timerLive ts a l →
  timerLive (ts ++ [{| handle := h; due := d; code := f |}]) a l.
Proof.
  intros Hf. apply timerLive_sub.
  intros t [Ht|Ht%list_elem_of_singleton]%elem_of_app ?; [eauto|by subst t].
Qed.

Lemma timerLive_active ts l l' : 1 ≤ l' → timerLive ts true l → timerLive ts true l'.
Proof. intros Hl H t Ht Hc. done. Qed.

Lemma callback_ne_timer f : isForeground f = true ∨ f = cbWinAlert ∨ f = cbLoseAlert → f ≠ cbStartTimer.
Proof. intros [H|[->| ->]]; [by destruct f|done..]. Qed.

Lemma TimerInv_schedule f d s :
  f ≠ cbStartTimer → TimerInv s → TimerInv (schedule f d s).
Proof.
  intros Hf [H1 H2]. split; cbn.
  - by apply tasksOK_schedule.
  - by apply timerLive_schedule.
Qed.

Lemma TimerInv_dom l s : TimerInv s → TimerInv (set_dom l s).
Proof. done. Qed.

Lemma TimerInv_endGame_active b s :
  tasksOK (tasks s) (nextHandle s) (timerInterval s) → gameActive s = true →
  TimerInv (endGame b s).
Proof.
  intros H1 Ha. rewrite endGame_active by done. cbn zeta. rewrite onCards_dom.
  assert (Hbase : TimerInv (set_powerUpDisabled true (set_lockBoard true
                     (clearInterval (set_gameActive false s))))).
  { split; cbn.
    - destruct (timerInterval s); [by apply tasksOK_cancel|done].
    - apply timerLive_none. intros t Ht. eapply tasksOK_cleared; [exact H1|exact Ht]. }
  repeat case_match; try apply TimerInv_schedule; done.
Qed.

Lemma TimerInv_endGame b s : TimerInv s → TimerInv (endGame b s).
Proof.
  intros Hinv. destruct (gameActive s) eqn:Ha; [|by rewrite endGame_inactive].
  apply TimerInv_endGame_active; [apply Hinv|done].
Qed.

Lemma TimerInv_handleCardClick c s : TimerInv s → TimerInv (handleCardClick c s).
Proof.
  intros Hinv. unfold handleCardClick, checkForMatch, processMatch, processMismatch,
    resetTurnAfterDelay.
  repeat case_match; try done; by apply TimerInv_schedule.
Qed.

Lemma prepareCard_fold_frame cs n s :
  (foldl (λ acc c, prepareCard c acc) (n, s) cs).2
  = set_dom (dom (foldl (λ acc c, prepareCard c acc) (n, s) cs).2) s.
Proof.
  revert n s. induction cs as [|c cs IH]; intros n s; cbn [foldl].
  - by rewrite set_dom_id.
  - unfold prepareCard at 2 4. cbn [fst snd]. case_match.
    + rewrite IH. by destruct s.
    + apply IH.
Qed.

Lemma TimerInv_executePowerUpReveal cs s : TimerInv s → TimerInv (executePowerUpReveal cs s).
Proof.
  intros Hinv. unfold executePowerUpReveal. rewrite onCards_dom.
  by apply TimerInv_schedule.
Qed.

Lemma TimerInv_powerUpClick s : TimerInv s → TimerInv (powerUpClick s).
Proof.
  intros Hinv. unfold powerUpClick. case_match; [done|]. cbn zeta.
  rewrite prepareCard_fold_frame.
  case_match; [apply TimerInv_executePowerUpReveal|]; done.
Qed.

Lemma TimerInv_onImageSettled k s : TimerInv s → TimerInv (onImageSettled k s).
Proof.
  intros Hinv. unfold onImageSettled.
  repeat case_match; try done. by apply TimerInv_executePowerUpReveal.
Qed.

Lemma TimerInv_difficultyChange d s : TimerInv s → TimerInv (difficultyChange d s).
Proof. intros Hinv. unfold difficultyChange. by case_match. Qed.

Lemma TimerInv_cancel h s : TimerInv s → TimerInv (set_tasks (cancel h (tasks s)) s).
Proof.
  intros [H1 H2]. split; cbn; [by apply tasksOK_cancel | by apply timerLive_cancel].
Qed.

Lemma TimerInv_onResetTurn s : TimerInv s → TimerInv (onResetTurn s).
Proof.
  intros Hinv. unfold onResetTurn. cbn zeta. case_match; [|done].
  by apply TimerInv_endGame.
Qed.

Lemma TimerInv_onMismatchShown s : TimerInv s → TimerInv (onMismatchShown s).
Proof.
  intros Hinv. unfold onMismatchShown, resetTurnAfterDelay.
  apply TimerInv_schedule; [done|]. by repeat case_match.
Qed.

Lemma TimerInv_onRevealOver cs s : TimerInv s → TimerInv (onRevealOver cs s).
Proof. intros Hinv. unfold onRevealOver. cbn zeta. by rewrite foldl_concealOne_dom. Qed.

Lemma TimerInv_onTimer h d t0 s :
  t0 ∈ tasks s → handle t0 = h → code t0 = cbStartTimer →
  TimerInv s → TimerInv (onTimer (set_tasks (rearm h d (tasks s)) s)).
Proof.
  intros Ht0 Hh Hcode [H1 H2].
  destruct (H2 t0 Ht0 Hcode) as [Ha Hl].
  unfold onTimer. cbn zeta. cbn [timeLeft gameActive set_timeLeft set_tasks].
  rewrite Ha, andb_true_r.
  destruct (Z.leb_spec (timeLeft s - 1) 0) as [Hle|Hgt].
  - apply TimerInv_endGame_active; [|done]. cbn. by eapply tasksOK_rearm.
  - split; cbn.
    + by eapply tasksOK_rearm.
    + intros t Ht Hc. rewrite Ha. split; [done|lia].
Qed.

Lemma TimerInv_fire h s : TimerInv s → TimerInv (fire h s).
Proof.
  intros Hinv. unfold fire.
  destruct (find _ _) as [t|] eqn:Hfind; [|done].
  apply find_Some_handle in Hfind as [Ht Hh].
  case_match; [|done]. destruct (code t) eqn:Hcode.
  - by eapply TimerInv_onTimer.
  - by apply TimerInv_onMismatchShown, TimerInv_cancel.
  - by apply TimerInv_onResetTurn, TimerInv_cancel.
  - by apply TimerInv_cancel.
  - by apply TimerInv_cancel.
  - by apply TimerInv_onRevealOver, TimerInv_cancel.
Qed.

Lemma selectRandomPokemonForGame_frame o n s :
  ∃ N M L, (selectRandomPokemonForGame o n s).2
           = set_numPairs N (set_messages M (set_allPokemonList L s)).
Proof.
  exists (numPairs (selectRandomPokemonForGame o n s).2),
         (messages (selectRandomPokemonForGame o n s).2),
         (allPokemonList (selectRandomPokemonForGame o n s).2).
  unfold selectRandomPokemonForGame, fetchAllPokemonListOnce.
  destruct s as [? ? ? ? ? ? ? ? ? ? ? ? ? cat ? ? ? ? ? ? ? ? ?]; cbn.
  destruct cat as [|p cat]; cbn.
  - destruct (response o) as [r|]; cbn; [|done].
    destruct (omap usable r); cbn; [done|]. by case_match.
  - by case_match.
Qed.

Lemma totalTime_updateGameConfig s : 60 ≤ totalTime (updateGameConfig s).
Proof. unfold updateGameConfig. cbn. destruct (selectVal s); cbn; lia. Qed.

Lemma TimerInv_initializeGame o s : TimerInv s → TimerInv (initializeGame o s).
Proof.
  intros [H1 H2]. unfold initializeGame. cbn zeta.
  destruct (selectRandomPokemonForGame_frame o (numPairs (resetForNewGame s)) (resetForNewGame s))
    as (N & M & L & ->).
  set (sel := (selectRandomPokemonForGame _ _ _).1). clearbody sel.
  assert (Hok : tasksOK (match timerInterval s with
                         | Some h => cancel h (tasks s) | None => tasks s end)
                  (nextHandle s) (timerInterval s)).
  { destruct (timerInterval s); [by apply tasksOK_cancel|done]. }
  assert (Hno : ∀ t, t ∈ match timerInterval s with
                         | Some h => cancel h (tasks s) | None => tasks s end →
                     code t ≠ cbStartTimer).
  { intros t Ht. eapply tasksOK_cleared; [exact H1|exact Ht]. }
  unfold dealCards. destruct sel as [|p sel].
  { case_bool_decide; (split; cbn; [done|apply timerLive_none, Hno]). }
  destruct (buildCardsData _).
  { split; cbn; [done|apply timerLive_none, Hno]. }
  cbn zeta.
  lazymatch goal with |- context [match grid ?x with _ => _ end] => destruct (grid x) end.
  { split; cbn; [done|apply timerLive_none, Hno]. }
  split; cbn.
  - by eapply tasksOK_startTimer.
  - intros t _ _. split; [done|]. pose proof (totalTime_updateGameConfig s) as Ht.
    unfold updateGameConfig in Ht. cbn in Ht. lia.
Qed.

Lemma TimerInv_step e s : TimerInv s → TimerInv (step e s).
Proof.
  intros Hinv. destruct e; simpl.
  - by apply TimerInv_initializeGame.
  - case_bool_decide; [by apply TimerInv_handleCardClick|done].
  - by apply TimerInv_powerUpClick.
  - by apply TimerInv_onImageSettled.
  - by apply TimerInv_difficultyChange.
  - done.
  - by apply TimerInv_fire.
Qed.

Lemma TimerInv_pageLoaded r : TimerInv (pageLoaded r).
Proof.
  unfold pageLoaded, fetchAllPokemonListOnce. cbn.
  assert (H : ∀ s, tasks s = [] → timerInterval s = None → TimerInv s).
  { intros s Ht Hi. split; rewrite Ht, ?Hi.
    - split_and!; [by intros ? ?%elem_of_nil | constructor | done | by intros ? ?%elem_of_nil].
    - by intros ? ?%elem_of_nil. }
  destruct r as [r|]; [|by apply H]. cbn. destruct (omap usable r); by apply H.
Qed.

Lemma TimerInv_reachable s : Reachable s → TimerInv s.
Proof.
  induction 1 as [r|e s _ IH]; [apply TimerInv_pageLoaded | by apply TimerInv_step].
Qed.

(** ** The end-of-game messages *)

Lemma signals_say m m' s :
  signals m (say m' s) = if decide (m' = m) then S (signals m s) else signals m s.
Proof.
  unfold signals, say. cbn [messages set_messages]. case_decide.
  - by rewrite filter_cons_True.
  - by rewrite filter_cons_False.
Qed.


Lemma wins_endGame_lose s : wins (endGame false s) = wins s.
Proof.
  unfold endGame. repeat case_match; try done; rewrite onCards_dom; done.
Qed.



Lemma messages_handleCardClick c s : messages (handleCardClick c s) = messages s.
Proof.
  unfold handleCardClick, checkForMatch, processMatch, processMismatch.
  repeat case_match; done.
Qed.

Lemma messages_powerUpClick s : messages (powerUpClick s) = messages s.
Proof.
  unfold powerUpClick. case_match; [done|]. cbn zeta. rewrite prepareCard_fold_frame.
  unfold executePowerUpReveal. case_match; rewrite ?onCards_dom; done.
Qed.

Lemma messages_onImageSettled k s : messages (onImageSettled k s) = messages s.
Proof.
  unfold onImageSettled, executePowerUpReveal. repeat case_match; rewrite ?onCards_dom; done.
Qed.

Lemma timeouts_difficultyChange d s : timeouts (difficultyChange d s) = timeouts s.
Proof. unfold difficultyChange. by case_match. Qed.

Lemma wins_difficultyChange d s : wins (difficultyChange d s) = wins s.
Proof. unfold difficultyChange. by case_match. Qed.

Lemma messages_onMismatchShown s : messages (onMismatchShown s) = messages s.
Proof. unfold onMismatchShown. by repeat case_match. Qed.

Lemma messages_onRevealOver cs s : messages (onRevealOver cs s) = messages s.
Proof. unfold onRevealOver. cbn zeta. by rewrite foldl_concealOne_dom. Qed.


Lemma timeouts_initializeGame o s : timeouts (initializeGame o s) = timeouts s.
Proof.
  unfold initializeGame. cbn zeta.
  assert (Hsel : timeouts (selectRandomPokemonForGame o (numPairs (resetForNewGame s))
                   (resetForNewGame s)).2 = timeouts s).
  { unfold selectRandomPokemonForGame, fetchAllPokemonListOnce.
    repeat case_match; simplify_eq; done. }
  revert Hsel. generalize (selectRandomPokemonForGame o (numPairs (resetForNewGame s))
                   (resetForNewGame s)). intros [sel s'] Hsel. cbn [fst snd] in *.
  unfold dealCards. repeat case_match; done.
Qed.

Lemma timeLeft_endGame b s : timeLeft (endGame b s) = timeLeft s.
Proof. unfold endGame. repeat case_match; rewrite ?onCards_dom; done. Qed.

Lemma timeLeft_onResetTurn s : timeLeft (onResetTurn s) = timeLeft s.
Proof. unfold onResetTurn. cbn zeta. case_match; [|done]. by rewrite timeLeft_endGame. Qed.

Lemma timeLeft_onMismatchShown s : timeLeft (onMismatchShown s) = timeLeft s.
Proof. unfold onMismatchShown. by repeat case_match. Qed.

Lemma timeLeft_onRevealOver cs s : timeLeft (onRevealOver cs s) = timeLeft s.
Proof. unfold onRevealOver. cbn zeta. by rewrite foldl_concealOne_dom. Qed.



Lemma timeLeft_powerUpClick s : timeLeft (powerUpClick s) = timeLeft s.
Proof.
  unfold powerUpClick. case_match; [done|]. cbn zeta. rewrite prepareCard_fold_frame.
  unfold executePowerUpReveal. case_match; rewrite ?onCards_dom; done.
Qed.

Lemma timeLeft_onImageSettled k s : timeLeft (onImageSettled k s) = timeLeft s.
Proof.
  unfold onImageSettled, executePowerUpReveal. repeat case_match; rewrite ?onCards_dom; done.
Qed.






(** ** The callbacks of a turn in the queue *)

Lemma foreground_schedule f d s :
  foreground (schedule f d s) =
  foreground s ++
    (if isForeground f then [{| handle := nextHandle s; due := now s + d; code := f |}] else []).
Proof.
  unfold foreground, schedule. cbn [tasks set_tasks set_nextHandle].
  rewrite filter_app. f_equal. destruct (isForeground f) eqn:E.
  - by rewrite filter_cons_True.
  - rewrite filter_cons_False; [done|]. cbn. by rewrite E.
Qed.

Lemma filter_cancel (P : task → Prop) `{∀ t, Decision (P t)} h ts :
  filter P (cancel h ts) = cancel h (filter P ts).
Proof.
  unfold cancel. induction ts as [|t ts IH]; [done|].
  destruct (decide (P t)) as [HP|HP], (decide (handle t ≠ h)) as [Hh|Hh].
  - rewrite (filter_cons_True (λ t, handle t ≠ h)), !(filter_cons_True P) by done.
    rewrite (filter_cons_True (λ t, handle t ≠ h)) by done. by rewrite IH.
  - rewrite (filter_cons_False (λ t, handle t ≠ h)), (filter_cons_True P) by done.
    rewrite (filter_cons_False (λ t, handle t ≠ h)) by done. by rewrite IH.
  - rewrite (filter_cons_True (λ t, handle t ≠ h)), !(filter_cons_False P) by done. by rewrite IH.
  - rewrite (filter_cons_False (λ t, handle t ≠ h)), (filter_cons_False P) by done. by rewrite IH.
Qed.

Lemma cancel_absent h ts : (∀ t, t ∈ ts → handle t ≠ h) → cancel h ts = ts.
Proof.
  unfold cancel. induction ts as [|t ts IH]; [done|]. intros H.
  rewrite filter_cons_True by (apply H; left). f_equal. apply IH.
  intros t' Ht'. apply H. by right.
Qed.

Lemma foreground_cancel h s :
  foreground (set_tasks (cancel h (tasks s)) s) = cancel h (foreground s).
Proof. unfold foreground. cbn [tasks set_tasks]. apply filter_cancel. Qed.

Lemma NoDup_fmap_elem_inj {A B} (f : A → B) (l : list A) x y :
  NoDup (f <$> l) → x ∈ l → y ∈ l → f x = f y → x = y.
Proof.
  induction l as [|a l IH]; [by intros _ ?%elem_of_nil|].
  rewrite fmap_cons, NoDup_cons. intros [Ha Hnd] [->|Hx]%elem_of_cons [->|Hy]%elem_of_cons Heq.
  - done.
  - destruct Ha. rewrite Heq. by apply list_elem_of_fmap_2.
  - destruct Ha. rewrite <-Heq. by apply list_elem_of_fmap_2.
  - by apply IH.
Qed.

(** Cancelling a handle that belongs to no callback of a turn. *)
Lemma foreground_cancel_other h t s :
  NoDup (handle <$> tasks s) → t ∈ tasks s → handle t = h →
  isForeground (code t) = false →
  foreground (set_tasks (cancel h (tasks s)) s) = foreground s.
Proof.
  intros Hnd Ht Hh Hfg. rewrite foreground_cancel. apply cancel_absent.
  intros t' [Hfg' Ht']%list_elem_of_filter Heq.
  assert (t' = t); [|congruence].
  apply (NoDup_fmap_elem_inj handle (tasks s)); [done..|congruence].
Qed.

(** Cancelling the one callback of a turn that is pending. *)
Lemma foreground_cancel_only h t s :
  t ∈ tasks s → handle t = h → isForeground (code t) = true →
  (length (foreground s) ≤ 1)%nat →
  foreground s = [t] ∧ foreground (set_tasks (cancel h (tasks s)) s) = [].
Proof.
  intros Ht Hh Hfg Hlen.
  assert (Hin : t ∈ foreground s) by by apply list_elem_of_filter.
  assert (Hone : foreground s = [t]).
  { destruct (foreground s) as [|t1 [|t2 l]]; simpl in Hlen; [by apply elem_of_nil in Hin| |lia].
    by apply list_elem_of_singleton in Hin as ->. }
  split; [done|]. rewrite foreground_cancel, Hone. unfold cancel.
  rewrite filter_cons_False; [done|]. intros Hne. by apply Hne.
Qed.

Lemma foreground_clearInterval s :
  tasksOK (tasks s) (nextHandle s) (timerInterval s) →
  foreground (clearInterval s) = foreground s.
Proof.
  intros (Ha & Hb & Hc & Hd). unfold clearInterval.
  destruct (timerInterval s) as [h|] eqn:Hti; [|by rewrite set_tasks_id].
  rewrite foreground_cancel. apply cancel_absent.
  intros t [Hfg Ht]%list_elem_of_filter Heq.
  assert (code t = cbStartTimer) as Hcode by (apply Hd; [done|congruence]).
  by rewrite Hcode in Hfg.
Qed.

Lemma foreground_rearm h d t s :
  NoDup (handle <$> tasks s) → t ∈ tasks s → handle t = h → code t = cbStartTimer →
  foreground (set_tasks (rearm h d (tasks s)) s) = foreground s.
Proof.
  intros Hnd Ht Hh Hcode. unfold foreground. cbn [tasks set_tasks].
  assert (Hall : ∀ t', t' ∈ tasks s → handle t' = h → t' = t).
  { intros t' Ht' Heq. apply (NoDup_fmap_elem_inj handle (tasks s)); [done..|congruence]. }
  clear Hnd Ht. unfold rearm. induction (tasks s) as [|t0 ts IH]; [done|]. cbn [map].
  destruct (Nat.eqb_spec (handle t0) h) as [Heq|Hne].
  - assert (t0 = t) as -> by (apply Hall; [left|done]).
    rewrite !filter_cons_False; [|by rewrite Hcode|done].
    apply IH. intros t' Ht'. apply Hall. by right.
  - destruct (decide (isForeground (code t0) = true)).
    + rewrite !filter_cons_True by done. f_equal. apply IH. intros t' Ht'. apply Hall. by right.
    + rewrite !filter_cons_False by done. apply IH. intros t' Ht'. apply Hall. by right.
Qed.

(** ** Pending image loads *)

Lemma sum_list_insert (l : list nat) k n m :
  l !! k = Some n → (sum_list (<[k:=m]> l) + n = sum_list l + m)%nat.
Proof.
  revert k. induction l as [|x l IH]; intros [|k]; simpl; try done.
  - intros [= ->]. lia.
  - intros H. specialize (IH k H). lia.
Qed.

Lemma sum_list_lookup_le (l : list nat) k n : l !! k = Some n → (n ≤ sum_list l)%nat.
Proof.
  revert k. induction l as [|x l IH]; intros [|k]; simpl; try done.
  - intros [= ->]. lia.
  - intros H. specialize (IH k H). lia.
Qed.

Lemma sum_list_zero_lookup (l : list nat) k n :
  sum_list l = 0%nat → l !! k = Some n → n = 0%nat.
Proof. intros H0 Hk. apply sum_list_lookup_le in Hk. lia. Qed.

Lemma sum_list_only (l : list nat) k j n m :
  l !! k = Some n → sum_list l = n → k ≠ j → l !! j = Some m → m = 0%nat.
Proof.
  revert k j. induction l as [|x l IH]; intros [|k] [|j]; simpl; try done.
  - intros [= ->] Hs _ Hj. apply sum_list_lookup_le in Hj. lia.
  - intros Hk Hs _ [= ->]. apply sum_list_lookup_le in Hk. lia.
  - intros Hk Hs Hne Hj. apply (IH k j); [done| |congruence|done].
    apply sum_list_lookup_le in Hk as Hle. lia.
Qed.

Lemma pendingLoads_zero s k a :
  pendingLoads s = 0%nat → activations s !! k = Some a → imagesToLoad a = 0%nat.
Proof.
  unfold pendingLoads. intros H0 Hk. eapply sum_list_zero_lookup; [exact H0|].
  by rewrite list_lookup_fmap, Hk.
Qed.

Lemma onImageSettled_idle k s : pendingLoads s = 0%nat → onImageSettled k s = s.
Proof.
  intros H0. unfold onImageSettled. destruct (activations s !! k) as [a|] eqn:Hk; [|done].
  by rewrite (pendingLoads_zero s k a H0 Hk).
Qed.
(** ** Card elements under the handlers *)


Lemma classChange_refl cd : classChange cd cd.
Proof. done. Qed.

Lemma classChange_trans cd1 cd2 cd3 :
  classChange cd1 cd2 → classChange cd2 cd3 → classChange cd1 cd3.
Proof. intros (?&?&?) (?&?&?). split_and!; [congruence..|auto]. Qed.

Lemma domStep_refl d : domStep d d.
Proof. intros i. destruct (d !! i); done. Qed.

Lemma domStep_trans d1 d2 d3 : domStep d1 d2 → domStep d2 d3 → domStep d1 d3.
Proof.
  intros H12 H23 i. specialize (H12 i). specialize (H23 i).
  destruct (d1 !! i), (d2 !! i), (d3 !! i); try done. by eapply classChange_trans.
Qed.

Lemma domStep_alter (f : card → card) c d :
  (∀ cd, classChange cd (f cd)) → domStep d (alter f c d).
Proof.
  intros Hf i. destruct (decide (c = i)) as [->|Hne].
  - rewrite list_lookup_alter_eq. destruct (d !! i); simpl; [apply Hf|done].
  - rewrite list_lookup_alter_ne by done. destruct (d !! i); done.
Qed.

Lemma domStep_foldl_alter (f : card → card) cs d :
  (∀ cd, classChange cd (f cd)) → domStep d (foldl (λ d c, alter f c d) d cs).
Proof.
  intros Hf. revert d. induction cs as [|c cs IH]; intros d; [apply domStep_refl|].
  cbn [foldl]. eapply domStep_trans; [by apply domStep_alter|apply IH].
Qed.

Lemma domStep_foldl_concealDom first cs d :
  domStep d (foldl (λ d c, concealDom first c d) d cs).
Proof.
  revert d. induction cs as [|c cs IH]; intros d; [apply domStep_refl|].
  cbn [foldl]. eapply domStep_trans; [|apply IH].
  unfold concealDom. case_match; [apply domStep_refl|]. by apply domStep_alter.
Qed.

Lemma classChange_lazy cd : classChange cd (if needsLoad cd then attr_src cd else cd).
Proof. by destruct (needsLoad cd). Qed.

Lemma classChange_endFlip cd : classChange cd (if matched cd then addClass_flipped cd else cd).
Proof. by destruct (matched cd). Qed.

Lemma boardOK_domStep s s' :
  grid s' = grid s → domStep (dom s) (dom s') → boardOK s → boardOK s'.
Proof.
  intros Hg Hd [H1 H2]. split; rewrite Hg.
  - intros c Hc. specialize (H1 c Hc). specialize (Hd c).
    destruct (dom s !! c), (dom s' !! c); try done; by destruct H1.
  - intros c c' Hc Hc' Heq. apply H2; [done..|].
    unfold data_card_id in *.
    pose proof (Hd c) as Hdc. pose proof (Hd c') as Hdc'.
    destruct (H1 c Hc) as [cd Hcd]. destruct (H1 c' Hc') as [cd' Hcd'].
    rewrite Hcd in Hdc. rewrite Hcd' in Hdc'. rewrite Hcd, Hcd'.
    destruct (dom s' !! c) as [x|]; [|done]. destruct (dom s' !! c') as [x'|]; [|done].
    simpl in *. destruct Hdc as (_ & Hx & _), Hdc' as (_ & Hx' & _). congruence.
Qed.

Lemma domStep_endGame b s :
  domStep (dom s) (dom (endGame b s)) ∧ grid (endGame b s) = grid s.
Proof.
  unfold endGame.
  repeat case_match; rewrite ?onCards_dom; cbn; (split; [|done]);
    try apply domStep_refl; apply domStep_foldl_alter, classChange_endFlip.
Qed.

Lemma data_card_id_selected c s i : data_card_id (selected c s) i = data_card_id s i.
Proof.
  unfold data_card_id, selected. cbn.
  rewrite (lookup_alter_class cardId) by done.
  rewrite (lookup_alter_class cardId); [done|]. intros cd. by destruct (needsLoad cd).
Qed.

Lemma data_pokemon_id_selected c s i : data_pokemon_id (selected c s) i = data_pokemon_id s i.
Proof.
  unfold data_pokemon_id, selected. cbn.
  rewrite (lookup_alter_class pokemonId) by done.
  rewrite (lookup_alter_class pokemonId); [done|]. intros cd. by destruct (needsLoad cd).
Qed.

Lemma handleCardClick_eq c s :
  handleCardClick c s =
  if negb (gameActive s) || lockBoard s || hasClass_flipped s c || hasClass_matched s c
  then s
  else match firstCard (selected c s) with
       | None => set_firstCard (Some c) (selected c s)
       | Some f =>
           if bool_decide (data_card_id (selected c s) c = data_card_id (selected c s) f)
           then set_clicks (clicks s + 1 - 1) (onCard removeClass_flipped c (selected c s))
           else checkForMatch (set_lockBoard true (set_secondCard (Some c) (selected c s)))
       end.
Proof. reflexivity. Qed.

(** The four ways through [handleCardClick]. *)
Lemma handleCardClick_cases c s :
  (clickPathOf c s = Ignored ∧ ¬ accepted c s ∧ handleCardClick c s = s) ∨
  (clickPathOf c s = FirstOfPair ∧ accepted c s ∧ firstCard s = None ∧
     handleCardClick c s = set_firstCard (Some c) (selected c s)) ∨
  (∃ f, clickPathOf c s = SameCardReverted ∧ accepted c s ∧ firstCard s = Some f ∧
     data_card_id s c = data_card_id s f ∧
     handleCardClick c s =
       set_clicks (clicks s + 1 - 1) (onCard removeClass_flipped c (selected c s))) ∨
  (∃ f, clickPathOf c s = SecondOfPair ∧ accepted c s ∧ firstCard s = Some f ∧
     data_card_id s c ≠ data_card_id s f ∧
     handleCardClick c s =
       checkForMatch (set_lockBoard true (set_secondCard (Some c) (selected c s)))).
Proof.
  rewrite handleCardClick_eq. unfold clickPathOf, accepted.
  destruct (gameActive s); [|left; split_and!; [done|by intros (?&_)|done]].
  destruct (lockBoard s); [left; split_and!; [done|by intros (_&?&_)|done]|].
  destruct (hasClass_flipped s c); [left; split_and!; [done|by intros (_&_&?&_)|done]|].
  destruct (hasClass_matched s c); [left; split_and!; [done|by intros (_&_&_&?)|done]|].
  cbn [negb orb]. right.
  assert (Hf : firstCard (selected c s) = firstCard s) by done. rewrite Hf.
  destruct (firstCard s) as [f|]; [|by left].
  right. rewrite !data_card_id_selected. case_bool_decide.
  - left. exists f. done.
  - right. exists f. done.
Qed.

Lemma isMatch_second c f s :
  firstCard s = Some f →
  isMatch (set_lockBoard true (set_secondCard (Some c) (selected c s)))
  = bool_decide (data_pokemon_id s f = data_pokemon_id s c).
Proof.
  intros Hf. unfold isMatch. cbn [firstCard secondCard set_lockBoard set_secondCard].
  assert (Hf' : firstCard (selected c s) = Some f) by done. rewrite Hf'.
  change (data_pokemon_id (set_lockBoard _ (set_secondCard _ ?x))) with (data_pokemon_id x).
  by rewrite !data_pokemon_id_selected.
Qed.

Lemma domStep_selected c s : domStep (dom s) (dom (selected c s)).
Proof.
  unfold selected. cbn.
  eapply domStep_trans; [apply domStep_alter, classChange_lazy|by apply domStep_alter].
Qed.

Lemma domStep_handleCardClick c s :
  domStep (dom s) (dom (handleCardClick c s)) ∧ grid (handleCardClick c s) = grid s.
Proof.
  destruct (handleCardClick_cases c s)
    as [(_ & _ & ->)|[(_ & _ & _ & ->)|[(f & _ & _ & _ & _ & ->)|(f & _ & _ & Hf & _ & ->)]]].
  - split; [apply domStep_refl|done].
  - split; [apply domStep_selected|done].
  - split; [|done]. cbn -[selected].
    eapply domStep_trans; [apply domStep_selected|by apply domStep_alter].
  - unfold checkForMatch. rewrite (isMatch_second _ _ _ Hf).
    assert (Hf' : firstCard (selected c s) = Some f) by done.
    case_bool_decide.
    + unfold processMatch. cbn -[selected]. rewrite Hf'. cbn -[selected]. split; [|done].
      eapply domStep_trans; [apply domStep_selected|].
      eapply domStep_trans; by apply domStep_alter.
    + split; [apply domStep_selected|done].
Qed.

Lemma domStep_executePowerUpReveal cs s :
  domStep (dom s) (dom (executePowerUpReveal cs s)) ∧ grid (executePowerUpReveal cs s) = grid s.
Proof.
  unfold executePowerUpReveal. rewrite onCards_dom. split; [|done].
  cbn. by apply domStep_foldl_alter.
Qed.

Lemma domStep_prepareCard_fold cs n s :
  domStep (dom s) (dom (foldl (λ acc c, prepareCard c acc) (n, s) cs).2).
Proof.
  revert n s. induction cs as [|c cs IH]; intros n s; cbn [foldl]; [apply domStep_refl|].
  unfold prepareCard at 2. cbn [fst snd]. case_match; [|apply IH].
  eapply domStep_trans; [|apply IH]. cbn. by apply domStep_alter.
Qed.

Lemma powerUpClick_eq s :
  powerUpClick s =
  if negb (gameActive s) || lockBoard s || powerUpUsedThisGame s then s
  else
    let s' := set_activations
                (activations (prepared s).2 ++
                   [{| imagesToLoad := (prepared s).1;
                       cardsToVisuallyFlip := unmatchedCards s |}]) (prepared s).2 in
    if ((prepared s).1 =? 0)%nat then executePowerUpReveal (unmatchedCards s) s' else s'.
Proof. reflexivity. Qed.

Lemma prepared_frame s : (prepared s).2 = set_dom (dom (prepared s).2) (armed s).
Proof. apply prepareCard_fold_frame. Qed.

Lemma domStep_prepared s : domStep (dom s) (dom (prepared s).2).
Proof. apply (domStep_prepareCard_fold _ _ (armed s)). Qed.

Lemma domStep_powerUpClick s :
  domStep (dom s) (dom (powerUpClick s)) ∧ grid (powerUpClick s) = grid s.
Proof.
  rewrite powerUpClick_eq. case_match; [split; [apply domStep_refl|done]|]. cbn zeta.
  assert (Hgrid : grid (prepared s).2 = grid s) by by rewrite prepared_frame.
  case_match.
  - match goal with |- context [executePowerUpReveal ?cs ?x] =>
      destruct (domStep_executePowerUpReveal cs x) as [Hd Hg] end.
    split; [|by rewrite Hg]. eapply domStep_trans; [apply domStep_prepared|exact Hd].
  - split; [apply domStep_prepared|done].
Qed.

Lemma domStep_onImageSettled k s :
  domStep (dom s) (dom (onImageSettled k s)) ∧ grid (onImageSettled k s) = grid s.
Proof.
  unfold onImageSettled. repeat case_match; try (split; [apply domStep_refl|done]).
  apply (domStep_executePowerUpReveal _ (set_activations _ s)).
Qed.

Lemma domStep_fire h s :
  domStep (dom s) (dom (fire h s)) ∧ grid (fire h s) = grid s.
Proof.
  unfold fire. destruct (find _ _) as [t|]; [|split; [apply domStep_refl|done]].
  case_match; [|split; [apply domStep_refl|done]]. destruct (code t).
  - unfold onTimer. cbn zeta. case_match; [|split; [apply domStep_refl|done]].
    apply (domStep_endGame false (set_timeLeft _ (set_tasks _ s))).
  - unfold onMismatchShown, resetTurnAfterDelay. cbn.
    repeat case_match; cbn; (split; [|done]); try apply domStep_refl.
    all: repeat (eapply domStep_trans; [|by apply domStep_alter]); try apply domStep_refl.
    all: by apply domStep_alter.
  - unfold onResetTurn. cbn zeta. case_match; [|split; [apply domStep_refl|done]].
    apply (domStep_endGame true (set_lockBoard _ (set_secondCard _ (set_firstCard _ (set_tasks _ s))))).
  - split; [apply domStep_refl|done].
  - split; [apply domStep_refl|done].
  - unfold onRevealOver. cbn zeta. rewrite foldl_concealOne_dom. split; [|done].
    cbn. apply domStep_foldl_concealDom.
Qed.

Lemma domStep_step e s :
  sameGame e → domStep (dom s) (dom (step e s)) ∧ grid (step e s) = grid s.
Proof.
  intros He. destruct e as [o|c| |k|d| |h]; simpl; try done.
  - case_bool_decide; [apply domStep_handleCardClick|split; [apply domStep_refl|done]].
  - apply domStep_powerUpClick.
  - apply domStep_onImageSettled.
  - unfold difficultyChange. case_match; (split; [apply domStep_refl|done]).
  - split; [apply domStep_refl|done].
  - apply domStep_fire.
Qed.

Lemma boardOK_step e s : sameGame e → boardOK s → boardOK (step e s).
Proof.
  intros He. destruct (domStep_step e s He) as [Hd Hg]. by apply boardOK_domStep.
Qed.

(** ** The invariant of a turn is kept *)

Lemma foreground_tasks s s' : tasks s' = tasks s → foreground s' = foreground s.
Proof. unfold foreground. by intros ->. Qed.

Lemma pendingLoads_activations s s' :
  activations s' = activations s → pendingLoads s' = pendingLoads s.
Proof. unfold pendingLoads. by intros ->. Qed.

Lemma turnOK_idle s :
  foreground s = [] → pendingLoads s = 0%nat → secondCard s = None →
  (∀ f, firstCard s = Some f → hasClass_flipped s f = true) → turnOK s.
Proof.
  intros Hfg Hl Hs Hf. split_and!; [done|by rewrite Hfg; simpl; lia|by left| |done].
  intros k a Hk Hne. by rewrite (pendingLoads_zero s k a Hl Hk) in Hne.
Qed.

Lemma turnOK_locked s :
  lockBoard s = true → (length (foreground s) ≤ 1)%nat →
  (foreground s = [] ∨ pendingLoads s = 0%nat) →
  (∀ k a, activations s !! k = Some a → imagesToLoad a ≠ 0%nat →
          pendingLoads s = imagesToLoad a) →
  ((pendingLoads s ≠ 0%nat ∨
    ∃ t cs, t ∈ foreground s ∧ code t = cbPowerUpReveal cs) → secondCard s = None) →
  turnOK s.
Proof. intros Hl ????. split_and!; try done. intros ?. congruence. Qed.

Lemma turnOK_same s s' :
  lockBoard s' = lockBoard s → foreground s' = foreground s →
  activations s' = activations s → firstCard s' = firstCard s →
  secondCard s' = secondCard s →
  (∀ f, firstCard s = Some f → hasClass_flipped s f = true → hasClass_flipped s' f = true) →
  turnOK s → turnOK s'.
Proof.
  intros Hl Hfg Ha Hf Hs Hfl (H1 & H2 & H3 & H4 & H5).
  unfold turnOK, pendingLoads in *. rewrite Hl, Hfg, Ha, Hf, Hs.
  split_and!; try done. intros Hlock. destruct (H1 Hlock) as (? & ? & ? & Hflip).
  split_and!; try done. intros f Hfirst. apply Hfl; [done|]. by apply Hflip.
Qed.

Lemma turnOK_locked_true s : turnOK s → foreground s ≠ [] ∨ pendingLoads s ≠ 0%nat → lockBoard s = true.
Proof.
  intros (H1 & _) Hbusy. destruct (lockBoard s) eqn:E; [done|].
  destruct (H1 eq_refl) as (? & ? & _). destruct Hbusy; done.
Qed.

Lemma hasClass_flipped_selected c s :
  is_Some (dom s !! c) → hasClass_flipped (selected c s) c = true.
Proof.
  intros [cd Hc]. unfold hasClass_flipped, selected. cbn.
  by rewrite !list_lookup_alter_eq, Hc.
Qed.

Lemma TurnInv_handleCardClick c s :
  c ∈ grid s → TurnInv s → TurnInv (handleCardClick c s) ∧ clickPathOf c s ≠ SameCardReverted.
Proof.
  intros Hc (Hboard & Hfirst & Hturn).
  pose proof (boardOK_domStep s (handleCardClick c s)
                (proj2 (domStep_handleCardClick c s)) (proj1 (domStep_handleCardClick c s)) Hboard)
    as Hboard'.
  pose proof (proj2 (domStep_handleCardClick c s)) as Hgrid.
  destruct (handleCardClick_cases c s)
    as [(Hp & _ & Heq)|[(Hp & Hacc & Hnone & Heq)|[(f & Hp & Hacc & Hf & Hid & Heq)
        |(f & Hp & Hacc & Hf & Hid & Heq)]]].
  - rewrite Heq, Hp. done.
  - rewrite Hp. split; [|done]. split_and!; [done| |].
    + rewrite Hgrid, Heq. by intros f [= <-].
    + intros _. destruct Hacc as (Ha & Hl & _). destruct (Hturn Ha) as (H1 & _).
      destruct (H1 Hl) as (Hfg & Hld & Hsec & _). rewrite Heq.
      apply turnOK_idle; try done.
      intros f [= <-]. apply (hasClass_flipped_selected c s).
      by apply Hboard.
  - exfalso. destruct Hacc as (Ha & Hl & Hfl & _). destruct (Hturn Ha) as (H1 & _).
    destruct (H1 Hl) as (_ & _ & _ & Hflip). specialize (Hflip f Hf).
    assert (c = f) as -> by (apply Hboard; auto). congruence.
  - rewrite Hp. split; [|done]. split_and!; [done| |].
    + rewrite Hgrid, Heq. unfold checkForMatch, processMatch, processMismatch.
      repeat case_match; cbn -[selected]; by apply Hfirst.
    + destruct Hacc as (Ha & Hl & _). destruct (Hturn Ha) as (H1 & _ & _ & H4 & _).
      destruct (H1 Hl) as (Hfg & Hld & Hsec & _). intros _. rewrite Heq.
      unfold checkForMatch. rewrite (isMatch_second _ _ _ Hf).
      assert (Hf' : firstCard (selected c s) = Some f) by done.
      case_bool_decide.
      * unfold processMatch, resetTurnAfterDelay. cbn -[selected]. rewrite Hf'.
        apply turnOK_locked; [done|..].
        -- rewrite foreground_schedule, (foreground_tasks s), Hfg by done. simpl. lia.
        -- by right.
        -- intros k a Hk Hne. by rewrite (pendingLoads_zero s k a Hld Hk) in Hne.
        -- intros [Hne|(t & cs & Ht & Hcode)]; [done|].
           rewrite foreground_schedule, (foreground_tasks s), Hfg in Ht by done.
           apply list_elem_of_singleton in Ht. by subst t.
      * unfold processMismatch.
        apply turnOK_locked; [done|..].
        -- rewrite foreground_schedule, (foreground_tasks s), Hfg by done. simpl. lia.
        -- by right.
        -- intros k a Hk Hne. by rewrite (pendingLoads_zero s k a Hld Hk) in Hne.
        -- intros [Hne|(t & cs & Ht & Hcode)]; [done|].
           rewrite foreground_schedule, (foreground_tasks s), Hfg in Ht by done.
           apply list_elem_of_singleton in Ht. by subst t.
Qed.

Lemma sum_list_snoc (l : list nat) n : sum_list (l ++ [n]) = (sum_list l + n)%nat.
Proof. induction l as [|x l IH]; simpl; lia. Qed.

Lemma pendingLoads_app s acts a :
  activations s = acts ++ [a] →
  pendingLoads s = (sum_list (imagesToLoad <$> acts) + imagesToLoad a)%nat.
Proof.
  unfold pendingLoads. intros ->. rewrite fmap_app.
  change (imagesToLoad <$> [a]) with [imagesToLoad a]. by rewrite sum_list_snoc.
Qed.

Lemma TurnInv_frame s s' :
  grid s' = grid s → domStep (dom s) (dom s') →
  (firstCard s' = firstCard s ∨ firstCard s' = None) →
  (gameActive s' = true → turnOK s') →
  TurnInv s → TurnInv s'.
Proof.
  intros Hg Hd Hf Hturn (Hboard & Hfirst & _). split_and!; [|rewrite Hg|done].
  - by eapply boardOK_domStep.
  - intros f Hf'. destruct Hf as [Hf|Hf]; rewrite Hf in Hf'; [by apply Hfirst|done].
Qed.

Lemma firstCard_executePowerUpReveal cs s : firstCard (executePowerUpReveal cs s) = firstCard s.
Proof. unfold executePowerUpReveal. by rewrite onCards_dom. Qed.

Lemma turnOK_reveal cs s :
  foreground s = [] → pendingLoads s = 0%nat → secondCard s = None → lockBoard s = true →
  turnOK (executePowerUpReveal cs s).
Proof.
  intros Hfg Hld Hsec Hlock. unfold executePowerUpReveal. rewrite onCards_dom.
  apply turnOK_locked; [done|..].
  - rewrite foreground_schedule, (foreground_tasks s), Hfg by done. simpl. lia.
  - right. by rewrite (pendingLoads_activations s) by done.
  - intros k a Hk Hne. by rewrite (pendingLoads_zero s k a Hld Hk) in Hne.
  - done.
Qed.

Lemma TurnInv_powerUpClick s : TurnInv s → TurnInv (powerUpClick s).
Proof.
  intros Hinv. pose proof Hinv as (Hboard & Hfirst & Hturn).
  destruct (domStep_powerUpClick s) as [Hd Hg].
  rewrite powerUpClick_eq in *. destruct (negb _ || _ || _) eqn:Hguard; [done|].
  apply orb_false_iff in Hguard as [[Ha%negb_false_iff Hl]%orb_false_iff Hu].
  destruct (Hturn Ha) as (H1 & _). destruct (H1 Hl) as (Hfg & Hld & Hsec & _).
  cbn zeta in *.
  set (s' := set_activations _ _) in *.
  assert (Hacts : activations s' = activations s ++
            [{| imagesToLoad := (prepared s).1; cardsToVisuallyFlip := unmatchedCards s |}]).
  { subst s'. by rewrite prepared_frame. }
  assert (Hloads : pendingLoads s' = (prepared s).1).
  { rewrite (pendingLoads_app _ _ _ Hacts). unfold pendingLoads in Hld. by rewrite Hld. }
  assert (Hfg' : foreground s' = []).
  { rewrite <-Hfg. apply foreground_tasks. subst s'. by rewrite prepared_frame. }
  assert (Hsec' : secondCard s' = None).
  { rewrite <-Hsec. subst s'. by rewrite prepared_frame. }
  assert (Hlock' : lockBoard s' = true).
  { subst s'. by rewrite prepared_frame. }
  assert (Hfirst' : firstCard s' = firstCard s).
  { subst s'. by rewrite prepared_frame. }
  eapply TurnInv_frame; [exact Hg|exact Hd| | |exact Hinv].
  - left. case_match; [by rewrite firstCard_executePowerUpReveal|done].
  - intros _. destruct (Nat.eqb_spec (prepared s).1 0) as [Hz|Hnz].
    + apply turnOK_reveal; try done. by rewrite Hloads.
    + apply turnOK_locked; [done|by rewrite Hfg'; simpl; lia|by left| |done].
      intros k a Hk Hne. rewrite Hloads.
      rewrite Hacts in Hk. apply lookup_app_Some in Hk as [Hk|[_ Hk]].
      * by rewrite (pendingLoads_zero s k a Hld Hk) in Hne.
      * apply list_lookup_singleton_Some in Hk as [_ <-]. done.
Qed.

Lemma TurnInv_onImageSettled k s : TurnInv s → TurnInv (onImageSettled k s).
Proof.
  intros Hinv. pose proof Hinv as (Hboard & Hfirst & Hturn).
  destruct (domStep_onImageSettled k s) as [Hd Hg].
  eapply TurnInv_frame; [exact Hg|exact Hd| | |exact Hinv].
  { left. unfold onImageSettled. repeat case_match; rewrite ?firstCard_executePowerUpReveal; done. }
  rewrite gameActive_onImageSettled. intros Ha. specialize (Hturn Ha).
  unfold onImageSettled.
  destruct (activations s !! k) as [a|] eqn:Hk; [|done].
  destruct (imagesToLoad a) as [|n] eqn:Hn; [done|].
  destruct Hturn as (H1 & H2 & H3 & H4 & H5).
  assert (Hloads : pendingLoads s = S n) by (rewrite <-Hn; apply (H4 k a Hk); lia).
  assert (Hfg : foreground s = []) by (destruct H3 as [?|?]; [done|lia]).
  assert (Hlock : lockBoard s = true).
  { apply turnOK_locked_true; [done|right; lia]. }
  assert (Hsec : secondCard s = None) by (apply H5; left; lia).
  set (s' := set_activations _ s).
  assert (Hloads' : pendingLoads s' = n).
  { unfold pendingLoads in *. subst s'. cbn [activations set_activations].
    rewrite list_fmap_insert. cbn [imagesToLoad].
    pose proof (sum_list_insert (imagesToLoad <$> activations s) k (S n) n) as Hs.
    rewrite list_lookup_fmap, Hk in Hs. cbn in Hs. rewrite Hn in Hs.
    specialize (Hs eq_refl). lia. }
  destruct (Nat.eqb_spec n 0) as [->|Hnz].
  - by apply turnOK_reveal.
  - apply turnOK_locked; [done|by rewrite (foreground_tasks s), Hfg by done; simpl; lia
                         |left; by rewrite (foreground_tasks s) by done| |done].
    intros j b Hj Hne. rewrite Hloads'. subst s'. cbn [activations set_activations] in Hj.
    destruct (decide (k = j)) as [<-|Hkj].
    + rewrite list_lookup_insert_eq in Hj by (by eapply lookup_lt_Some). by injection Hj as <-.
    + rewrite list_lookup_insert_ne in Hj by done. exfalso. apply Hne.
      eapply (sum_list_only (imagesToLoad <$> activations s) k j (S n));
        [by rewrite list_lookup_fmap, Hk; cbn; rewrite Hn | exact Hloads | done
        | by rewrite list_lookup_fmap, Hj].
Qed.

Lemma TurnInv_difficultyChange d s : TurnInv s → TurnInv (difficultyChange d s).
Proof.
  intros Hinv. pose proof Hinv as (_ & _ & Hturn).
  eapply TurnInv_frame; [| | | |exact Hinv].
  - unfold difficultyChange. by case_match.
  - unfold difficultyChange. case_match; apply domStep_refl.
  - left. unfold difficultyChange. by case_match.
  - intros Ha. assert (gameActive s = true) as Ha' by (unfold difficultyChange in Ha; by case_match).
    eapply turnOK_same; [..|exact (Hturn Ha')]; unfold difficultyChange; by case_match.
Qed.

Lemma TurnInv_wait s : TurnInv s → TurnInv (set_now (now s + 1) s).
Proof. done. Qed.

Lemma gameActive_endGame b s : gameActive (endGame b s) = false.
Proof.
  destruct (gameActive s) eqn:Ha; [|by rewrite endGame_inactive].
  rewrite endGame_active by done. cbn zeta. rewrite onCards_dom. by repeat case_match.
Qed.

Lemma lockBoard_after_reveal (first second : option nat) :
  bool_decide (is_Some first) && negb (bool_decide (is_Some second))
  = match first, second with Some _, None => true | _, _ => false end.
Proof. by destruct first, second. Qed.

Lemma firstCard_endGame b s : firstCard (endGame b s) = firstCard s.
Proof. unfold endGame. repeat case_match; rewrite ?onCards_dom; done. Qed.

Lemma firstCard_fire h s : firstCard (fire h s) = firstCard s ∨ firstCard (fire h s) = None.
Proof.
  unfold fire. repeat case_match; try by left.
  - left. unfold onTimer. cbn zeta. case_match; [|done]. by rewrite firstCard_endGame.
  - left. unfold onMismatchShown. by repeat case_match.
  - right. unfold onResetTurn. cbn zeta. case_match; [|done]. by rewrite firstCard_endGame.
  - left. unfold onRevealOver. cbn zeta. by rewrite foldl_concealOne_dom.
Qed.

Lemma turnOK_fire h s :
  TimerInv s → gameActive s = true → turnOK s →
  gameActive (fire h s) = true → turnOK (fire h s).
Proof.
  intros [(_ & Hnd & _ & Hti) _] Ha Hturn. unfold fire.
  destruct (find _ _) as [t|] eqn:Hfind; [|done].
  apply find_Some_handle in Hfind as [Ht Hh].
  case_match; [|done]. destruct (code t) eqn:Hcode.
  - (* the interval *)
    unfold onTimer. cbn zeta. case_match; [by rewrite gameActive_endGame|]. intros _.
    eapply turnOK_same; [..|exact Hturn]; try done.
    by apply (foreground_rearm h _ t s).
  - (* the mismatched pair has been shown *)
    intros _. destruct Hturn as (H1 & H2 & H3 & H4 & H5).
    destruct (foreground_cancel_only h t s Ht Hh) as [Hfg Hfg']; [by rewrite Hcode|done|].
    assert (Hld : pendingLoads s = 0%nat) by (destruct H3 as [H3|?]; [by rewrite Hfg in H3|done]).
    assert (Hlock : lockBoard s = true).
    { apply turnOK_locked_true; [done|]. left. by rewrite Hfg. }
    set (s1 := set_tasks _ s) in *.
    unfold onMismatchShown, resetTurnAfterDelay.
    set (s2 := match secondCard _ with Some _ => _ | None => _ end).
    assert (Htasks : tasks s2 = tasks s1) by (subst s2; by repeat case_match).
    assert (Hacts : activations s2 = activations s) by (subst s2; by repeat case_match).
    assert (Hlock2 : lockBoard s2 = true) by (subst s2; by repeat case_match).
    apply turnOK_locked; [done|..].
    + rewrite foreground_schedule, (foreground_tasks s1), Hfg' by done. simpl. lia.
    + right. by rewrite (pendingLoads_activations s) by done.
    + intros k a Hk Hne. cbn in Hk. rewrite Hacts in Hk.
      by rewrite (pendingLoads_zero s k a Hld Hk) in Hne.
    + intros [Hne|(t' & cs & Ht' & Hcode')].
      * by rewrite (pendingLoads_activations s) in Hne by done.
      * rewrite foreground_schedule, (foreground_tasks s1), Hfg' in Ht' by done.
        apply list_elem_of_singleton in Ht'. by subst t'.
  - (* the turn is reset *)
    destruct Hturn as (H1 & H2 & H3 & H4 & H5).
    destruct (foreground_cancel_only h t s Ht Hh) as [Hfg Hfg']; [by rewrite Hcode|done|].
    assert (Hld : pendingLoads s = 0%nat) by (destruct H3 as [H3|?]; [by rewrite Hfg in H3|done]).
    unfold onResetTurn. cbn zeta. case_match; [by rewrite gameActive_endGame|]. intros _.
    apply turnOK_idle; try done.
  - (* the win alert *)
    intros _. eapply turnOK_same; [..|exact Hturn]; try done.
    apply (foreground_cancel_other h t s); [done..|by rewrite Hcode].
  - (* the lose alert *)
    intros _. eapply turnOK_same; [..|exact Hturn]; try done.
    apply (foreground_cancel_other h t s); [done..|by rewrite Hcode].
  - (* the reveal is over *)
    intros _. destruct Hturn as (H1 & H2 & H3 & H4 & H5).
    destruct (foreground_cancel_only h t s Ht Hh) as [Hfg Hfg']; [by rewrite Hcode|done|].
    assert (Hld : pendingLoads s = 0%nat) by (destruct H3 as [H3|?]; [by rewrite Hfg in H3|done]).
    assert (Hsec : secondCard s = None).
    { apply H5. right. exists t, cardsArray. split; [|done]. rewrite Hfg. left. }
    unfold onRevealOver. cbn zeta. rewrite foldl_concealOne_dom, lockBoard_after_reveal.
    cbn [firstCard secondCard set_dom set_tasks]. rewrite Hsec.
    destruct (firstCard s) as [f|] eqn:Hf.
    + apply turnOK_locked; [done|..].
      * rewrite (foreground_tasks (set_tasks (cancel h (tasks s)) s)), Hfg' by done. simpl; lia.
      * by right.
      * intros k a Hk Hne. by rewrite (pendingLoads_zero s k a Hld Hk) in Hne.
      * done.
    + apply turnOK_idle; try done. cbn. by rewrite Hf.
Qed.

Lemma TurnInv_fire h s : TimerInv s → TurnInv s → TurnInv (fire h s).
Proof.
  intros Htimer Hinv. pose proof Hinv as (_ & _ & Hturn).
  destruct (domStep_fire h s) as [Hd Hg].
  eapply TurnInv_frame; [exact Hg|exact Hd|apply firstCard_fire| |exact Hinv].
  intros Ha'. destruct (gameActive s) eqn:Ha.
  - by apply turnOK_fire; [| |apply Hturn|].
  - by rewrite gameActive_fire in Ha'.
Qed.

Lemma TurnInv_step e s : sameGame e → TimerInv s → TurnInv s → TurnInv (step e s).
Proof.
  intros He Htimer Hinv. destruct e as [o|c| |k|d| |h]; simpl; try done.
  - case_bool_decide; [by apply TurnInv_handleCardClick|done].
  - by apply TurnInv_powerUpClick.
  - by apply TurnInv_onImageSettled.
  - by apply TurnInv_difficultyChange.
  - by apply TurnInv_fire.
Qed.

(** ** A fresh game *)

Lemma data_card_id_deck s :
  (∀ c, c ∈ grid s → is_Some (dom s !! c)) →
  data_card_id s <$> grid s = Some <$> (cardId <$> deck s).
Proof.
  unfold deck, data_card_id. induction (grid s) as [|c cs IH]; [done|]. intros Hvalid.
  destruct (Hvalid c) as [cd Hcd]; [left|].
  cbn. rewrite Hcd. cbn. rewrite IH; [done|]. intros c' Hc'. apply Hvalid. by right.
Qed.

Lemma boardOK_deck s :
  (∀ c, c ∈ grid s → is_Some (dom s !! c)) → NoDup (cardId <$> deck s) → boardOK s.
Proof.
  intros Hvalid Hnd. split; [done|]. intros c c' Hc Hc' Heq.
  apply (NoDup_fmap_elem_inj (data_card_id s) (grid s)); [|done..].
  rewrite data_card_id_deck by done. apply NoDup_fmap_2; [|done]. by intros ?? [=].
Qed.

Lemma initializeGame_eq o s :
  initializeGame o s =
  dealCards o (selectRandomPokemonForGame o (numPairs (resetForNewGame s)) (resetForNewGame s)).1
              (selectRandomPokemonForGame o (numPairs (resetForNewGame s)) (resetForNewGame s)).2.
Proof. reflexivity. Qed.

Lemma grid_valid_initializeGame o s c :
  c ∈ grid (initializeGame o s) → is_Some (dom (initializeGame o s) !! c).
Proof.
  rewrite initializeGame_eq.
  destruct (selectRandomPokemonForGame_frame o (numPairs (resetForNewGame s)) (resetForNewGame s))
    as (N & M & L & ->).
  generalize ((selectRandomPokemonForGame o (numPairs (resetForNewGame s)) (resetForNewGame s)).1).
  intros sel. unfold dealCards. destruct sel as [|p sel].
  { case_bool_decide; cbn; intros Hc; by apply elem_of_nil in Hc. }
  destruct (buildCardsData _). { cbn. intros Hc. by apply elem_of_nil in Hc. } cbn zeta.
  lazymatch goal with |- context [match grid ?x with _ => _ end] => destruct (grid x) eqn:Hg end.
  { cbn in *. rewrite Hg. intros Hc. by apply elem_of_nil in Hc. }
  cbn. intros Hc%elem_of_seq. apply lookup_lt_is_Some. rewrite length_app. lia.
Qed.

(** A start in a quiet state gives a state with nothing of a turn
    outstanding. *)
Lemma quiet_initializeGame o s :
  quiet s →
  foreground (initializeGame o s) = [] ∧ pendingLoads (initializeGame o s) = 0%nat ∧
  firstCard (initializeGame o s) = None ∧ secondCard (initializeGame o s) = None.
Proof.
  intros [Hfg Hld]. rewrite initializeGame_eq.
  destruct (selectRandomPokemonForGame_frame o (numPairs (resetForNewGame s)) (resetForNewGame s))
    as (N & M & L & ->).
  generalize ((selectRandomPokemonForGame o (numPairs (resetForNewGame s)) (resetForNewGame s)).1).
  intros sel.
  assert (Hcl : filter (λ t, isForeground (code t) = true)
                  (match timerInterval s with
                   | Some h => cancel h (tasks s) | None => tasks s end) = []).
  { destruct (timerInterval s); [|done]. rewrite filter_cancel.
    unfold foreground in Hfg. by rewrite Hfg. }
  unfold dealCards. destruct sel as [|p sel].
  { case_bool_decide; unfold foreground; cbn; done. }
  destruct (buildCardsData _); [unfold foreground; cbn; done|]. cbn zeta.
  lazymatch goal with |- context [match grid ?x with _ => _ end] => destruct (grid x) eqn:Hg end.
  { unfold foreground; cbn; done. }
  unfold foreground. cbn. split_and!; try done.
  rewrite filter_app, Hcl. by rewrite filter_cons_False.
Qed.

Lemma TurnInv_initializeGame o s :
  quiet s → sortOutcome o s → distinctCatalogue o s → TurnInv (initializeGame o s).
Proof.
  intros Hq Hsort Hdist.
  destruct (quiet_initializeGame o s Hq) as (Hfg & Hld & Hf & Hs).
  split_and!.
  - apply boardOK_deck; [apply grid_valid_initializeGame|].
    by apply deck_wellFormed_distinct.
  - intros f. by rewrite Hf.
  - intros _. apply turnOK_idle; try done. intros f. by rewrite Hf.
Qed.

Lemma TurnInv_pageLoaded r : TurnInv (pageLoaded r).
Proof.
  assert (H : ∀ s, grid s = [] → firstCard s = None → gameActive s = false → TurnInv s).
  { intros s Hg Hf Ha. split_and!.
    - split; rewrite Hg; [by intros ? ?%elem_of_nil|by intros ? ? ?%elem_of_nil].
    - by rewrite Hf.
    - by rewrite Ha. }
  unfold pageLoaded, fetchAllPokemonListOnce. cbn.
  destruct r as [r|]; [|by apply H]. cbn. destruct (omap usable r); by apply H.
Qed.

Lemma clean_invariants s : CleanReachable s → TimerInv s ∧ TurnInv s.
Proof.
  induction 1 as [r|e s _ [IH1 IH2] He|o s _ [IH1 IH2] Hq Hsort Hdist].
  - split; [apply TimerInv_pageLoaded|apply TurnInv_pageLoaded].
  - split; [by apply TimerInv_step|by apply TurnInv_step].
  - split; [by apply TimerInv_initializeGame|by apply TurnInv_initializeGame].
Qed.

Lemma step_Start o s : step (Start o) s = initializeGame o s.
Proof. reflexivity. Qed.

Lemma clean_reachable s : CleanReachable s → Reachable s.
Proof.
  induction 1 as [r|e s _ IH He|o s _ IH Hq Hsort Hdist].
  - constructor.
  - by constructor.
  - rewrite <-step_Start. by constructor.
Qed.

(** ** An evaluation under way *)




(** What [endGame] leaves alone. *)
Lemma endGame_frame b s :
  tasksOK (tasks s) (nextHandle s) (timerInterval s) →
  foreground (endGame b s) = foreground s ∧
  activations (endGame b s) = activations s ∧
  firstCard (endGame b s) = firstCard s ∧
  secondCard (endGame b s) = secondCard s ∧
  clicks (endGame b s) = clicks s ∧
  pairsMatched (endGame b s) = pairsMatched s ∧
  numPairs (endGame b s) = numPairs s ∧
  (gameActive s = true → lockBoard (endGame b s) = true).
Proof.
  intros Hok. destruct (gameActive s) eqn:Ha; [|by rewrite endGame_inactive].
  rewrite endGame_active by done. cbn zeta. rewrite onCards_dom.
  pose proof (foreground_clearInterval s Hok) as Hfg.
  repeat case_match; rewrite ?foreground_schedule; cbn [isForeground]; rewrite ?app_nil_r;
    (split_and!; [|done..]); by rewrite <-Hfg.
Qed.

Lemma wins_fire_other h s :
  (∀ t, t ∈ tasks s → handle t = h → code t ≠ cbResetTurnAfterDelay) →
  wins (fire h s) = wins s.
Proof.
  intros Hno. unfold fire. destruct (find _ _) as [t|] eqn:Hfind; [|done].
  apply find_Some_handle in Hfind as [Ht Hh]. specialize (Hno t Ht Hh).
  case_match; [|done]. destruct (code t) eqn:Hcode; try done.
  - unfold onTimer. cbn zeta. case_match; [|done]. by rewrite wins_endGame_lose.
  - unfold wins, signals. by rewrite messages_onMismatchShown.
  - unfold wins, signals. by rewrite messages_onRevealOver.
Qed.

Lemma clicks_endGame b s : clicks (endGame b s) = clicks s.
Proof. unfold endGame. repeat case_match; rewrite ?onCards_dom; done. Qed.

Lemma pairsMatched_endGame b s : pairsMatched (endGame b s) = pairsMatched s.
Proof. unfold endGame. repeat case_match; rewrite ?onCards_dom; done. Qed.







(** ** The two selections of a turn *)







Lemma clean_run tr s : Forall sameGame tr → CleanReachable s → CleanReachable (run tr s).
Proof.
  intros Htr. revert s. induction Htr as [|e tr He Htr IH]; intros s H; [done|].
  simpl. apply IH. by constructor.
Qed.



(** ** The click counter *)



Lemma clicks_powerUpClick s : clicks (powerUpClick s) = clicks s.
Proof.
  rewrite powerUpClick_eq. case_match; [done|]. cbn zeta. rewrite prepared_frame.
  unfold executePowerUpReveal. case_match; rewrite ?onCards_dom; done.
Qed.

Lemma clicks_onImageSettled k s : clicks (onImageSettled k s) = clicks s.
Proof.
  unfold onImageSettled, executePowerUpReveal. repeat case_match; rewrite ?onCards_dom; done.
Qed.

Lemma clicks_fire h s : clicks (fire h s) = clicks s.
Proof.
  unfold fire. repeat case_match; try done.
  - unfold onTimer. cbn zeta. case_match; [|done]. by rewrite clicks_endGame.
  - unfold onMismatchShown. by repeat case_match.
  - unfold onResetTurn. cbn zeta. case_match; [|done]. by rewrite clicks_endGame.
  - unfold onRevealOver. cbn zeta. by rewrite foldl_concealOne_dom.
Qed.



(** ** The example games *)

Lemma reachable_run tr s : Reachable s → Reachable (run tr s).
Proof.
  revert s. induction tr as [|e tr IH]; intros s Hs; [done|].
  simpl. apply IH. by constructor.
Qed.

Lemma quiet_pageLoaded r : quiet (pageLoaded r).
Proof.
  unfold quiet, foreground, pendingLoads, pageLoaded, fetchAllPokemonListOnce. cbn.
  destruct r as [r|]; [|done]. cbn. by destruct (omap usable r).
Qed.

Lemma sameGame_replicate_Wait n : Forall sameGame (replicate n Wait).
Proof. apply Forall_replicate. exact I. Qed.


Lemma threeGame_clean : CleanReachable threeGame.
Proof.
  unfold threeGame. cbn [run foldl]. rewrite step_Start.
  apply clean_start; [constructor|apply quiet_pageLoaded| |].
  - split.
    + intros available H. vm_compute in H. injection H as <-.
      apply (bool_decide_unpack _). vm_compute. exact I.
    + apply (bool_decide_unpack _). vm_compute. exact I.
  - intros available H. vm_compute in H. injection H as <-.
    apply (bool_decide_unpack _). vm_compute. exact I.
Qed.

Lemma oneGame_clean : CleanReachable oneGame.
Proof.
  unfold oneGame. cbn [run foldl]. rewrite step_Start.
  apply clean_start; [constructor|apply quiet_pageLoaded| |].
  - split.
    + intros available H. vm_compute in H. injection H as <-.
      apply (bool_decide_unpack _). vm_compute. exact I.
    + apply (bool_decide_unpack _). vm_compute. exact I.
  - intros available H. vm_compute in H. injection H as <-.
    apply (bool_decide_unpack _). vm_compute. exact I.
Qed.



(** * The claims *)






(** C3.  In an active, unlocked game with no pending selection, selecting a
    face-down tile [T] and then selecting [T] again: the second selection
    changes nothing.  The click counter has moved by one, for the first
    selection, and by nothing for the second; [T] is face up; no second card
    is recorded, the board stays unlocked, no pair is counted and no
    callback is scheduled, so no match evaluation runs. *)
Theorem C3_reselect_is_noop s T :
  gameActive s = true → lockBoard s = false → firstCard s = None →
  T ∈ grid s → tileAt s T = Some FaceDown →
  let s1 := step (CardClick T) s in
  let s2 := step (CardClick T) s1 in
  s2 = s1 ∧ clickPathOf T s1 = Ignored ∧
  clicks s2 - clicks s1 = 0 ∧ clicks s2 = clicks s + 1 ∧
  tileAt s2 T = Some FaceUp ∧ firstCard s2 = Some T ∧
  secondCard s2 = secondCard s ∧ lockBoard s2 = false ∧
  pairsMatched s2 = pairsMatched s ∧ tasks s2 = tasks s.
Proof.
  intros Ha Hl Hf Hg (cd & Hc & Hfl & Hm)%tileAt_FaceDown. simpl.
  rewrite (bool_decide_eq_true_2 _ Hg).
  rewrite (handleCardClick_first T cd s) by done.
  set (s1 := set_firstCard _ _).
  assert (Hg1 : grid s1 = grid s) by done. rewrite Hg1, (bool_decide_eq_true_2 _ Hg).
  assert (Hc1 : dom s1 !! T = Some (addClass_flipped (if needsLoad cd then attr_src cd else cd))).
  { subst s1. cbn. by rewrite !list_lookup_alter_eq, Hc. }
  assert (Hfl1 : hasClass_flipped s1 T = true).
  { unfold hasClass_flipped. by rewrite Hc1. }
  rewrite (handleCardClick_flipped T s1 Hfl1).
  split_and!; try done.
  - unfold clickPathOf. rewrite Hfl1. by rewrite !orb_true_r.
  - lia.
  - apply tileAt_FaceUp. eexists. split; [exact Hc1|]. split; [done|].
    simpl. by destruct (needsLoad cd).
Qed.

(** The first card of the three-pair game, clicked twice. *)
Lemma C3_witness :
  let s := threeGame in
  let s1 := step (CardClick 0) s in
  let s2 := step (CardClick 0) s1 in
  (gameActive s = true ∧ lockBoard s = false ∧ firstCard s = None ∧
   tileAt s 0 = Some FaceDown) ∧
  s2 = s1 ∧ clicks s2 = clicks s + 1 ∧ tileAt s2 0 = Some FaceUp.
Proof.
  cbv zeta.
  assert (H1 : gameActive threeGame = true) by (vm_compute; reflexivity).
  assert (H2 : lockBoard threeGame = false) by (vm_compute; reflexivity).
  assert (H3 : firstCard threeGame = None) by (vm_compute; reflexivity).
  assert (H4 : (0%nat ∈ grid threeGame)) by (apply (bool_decide_unpack _); vm_compute; exact I).
  assert (H5 : tileAt threeGame 0 = Some FaceDown) by (vm_compute; reflexivity).
  destruct (C3_reselect_is_noop threeGame 0 H1 H2 H3 H4 H5)
    as (Heq & _ & _ & Hk & Ht & _).
  split_and!; assumption.
Defined.






(** C6, where the code departs from it.  A mismatched pair is selected, the
    player resets 300 ms later and selects a mismatched pair in the new
    game.  Starting the new game has cancelled the interval of the old one,
    but not the callback of its [processMismatch].  That callback runs at
    1000 ms: it turns the new game's two selected cards back, 200 ms after
    the second was selected, and schedules a reset of the turn, which at
    1200 ms clears the new game's pending pair and its lock while the new
    game's own callback is still to come. *)
Theorem C6_stale_callbacks_reach_new_game :
  let old := run [Start firstDeal; CardClick 0; CardClick 1] (pageLoaded threeReply) in
  let before := run staleShowTrace (pageLoaded threeReply) in
  let after := step (Fire 1) before in
  let later := run (replicate 200 Wait ++ [Fire 4]) after in
  tasks old = [ {| handle := 0; due := 1000; code := cbStartTimer |};
                {| handle := 1; due := 1000; code := cbProcessMismatch |} ] ∧
  (now before = 1000 ∧ grid before = [6; 7; 8; 9; 10; 11]%nat ∧ gameActive before = true ∧
   firstCard before = Some 6%nat ∧ secondCard before = Some 7%nat ∧ lockBoard before = true ∧
   tileAt before 6 = Some FaceUp ∧ tileAt before 7 = Some FaceUp ∧
   tasks before = [ {| handle := 1; due := 1000; code := cbProcessMismatch |};
                    {| handle := 2; due := 1300; code := cbStartTimer |};
                    {| handle := 3; due := 1800; code := cbProcessMismatch |} ]) ∧
  (tileAt after 6 = Some FaceDown ∧ tileAt after 7 = Some FaceDown ∧
   tasks after = [ {| handle := 2; due := 1300; code := cbStartTimer |};
                   {| handle := 3; due := 1800; code := cbProcessMismatch |};
                   {| handle := 4; due := 1200; code := cbResetTurnAfterDelay |} ]) ∧
  (now later = 1200 ∧ gameActive later = true ∧
   firstCard later = None ∧ secondCard later = None ∧ lockBoard later = false ∧
   tasks later = [ {| handle := 2; due := 1300; code := cbStartTimer |};
                   {| handle := 3; due := 1800; code := cbProcessMismatch |} ]).
Proof. cbv zeta. split_and!; vm_compute; reflexivity. Qed.



(** C8.  A click on the power-up button does nothing when the game is not
    active, the board is locked or the power-up has been used in this game.
    Otherwise it sets [powerUpUsedThisGame], which then stays set through
    every event of the same game, so that every later click on the button
    in that game does nothing. *)
Theorem C8_power_up_once s :
  (gameActive s = false ∨ lockBoard s = true ∨ powerUpUsedThisGame s = true →
     step PowerUp s = s) ∧
  (gameActive s = true → lockBoard s = false → powerUpUsedThisGame s = false →
     powerUpUsedThisGame (step PowerUp s) = true ∧
     ∀ tr, Forall sameGame tr →
       powerUpUsedThisGame (run tr (step PowerUp s)) = true ∧
       step PowerUp (run tr (step PowerUp s)) = run tr (step PowerUp s)).
Proof.
  split; [apply powerUpClick_rejected|].
  intros Ha Hl Hu. pose proof (powerUpClick_accepted s Ha Hl Hu) as Hused.
  split; [done|]. intros tr Htr.
  pose proof (run_powerUpUsed tr _ Htr Hused) as Hrun.
  split; [done|]. simpl. apply powerUpClick_rejected. auto.
Qed.

(** The power-up of the three-pair game. *)
Lemma C8_witness :
  let s := threeGame in
  let s1 := step PowerUp s in
  (gameActive s = true ∧ lockBoard s = false ∧ powerUpUsedThisGame s = false) ∧
  powerUpUsedThisGame s1 = true ∧
  powerUpUsedThisGame (run [Wait; CardClick 0] s1) = true ∧
  step PowerUp (run [Wait; CardClick 0] s1) = run [Wait; CardClick 0] s1.
Proof.
  cbv zeta.
  assert (H1 : gameActive threeGame = true) by (vm_compute; reflexivity).
  assert (H2 : lockBoard threeGame = false) by (vm_compute; reflexivity).
  assert (H3 : powerUpUsedThisGame threeGame = false) by (vm_compute; reflexivity).
  destruct (C8_power_up_once threeGame) as [_ Hacc].
  destruct (Hacc H1 H2 H3) as [Hused Hall].
  assert (Htr : Forall sameGame [Wait; CardClick 0]) by (repeat constructor).
  destruct (Hall _ Htr) as [Hstill Hnoop].
  split_and!; assumption.
Defined.




(** C10.  Once the game is inactive it stays inactive through every event
    but a new start, and every click on a card leaves the state as it is.
    This holds whatever the lock flag says: when the callback of
    [resetTurnAfterDelay] left over from the last turn runs in the ended
    game, it clears [lockBoard], and clicks on cards still change nothing. *)
Theorem C10_ended_game_ignores_clicks s tr c :
  gameActive s = false → Forall sameGame tr →
  gameActive (run tr s) = false ∧
  step (CardClick c) (run tr s) = run tr s ∧
  (∀ h d, NoDup (handle <$> tasks (run tr s)) →
     pending h cbResetTurnAfterDelay d (run tr s) → d ≤ now (run tr s) →
     lockBoard (step (Fire h) (run tr s)) = false ∧
     step (CardClick c) (step (Fire h) (run tr s)) = step (Fire h) (run tr s)).
Proof.
  intros Hs Htr. pose proof (run_inactive tr s Htr Hs) as Hrun.
  split; [done|]. split.
  { simpl. case_bool_decide; [|done]. by apply handleCardClick_inactive. }
  intros h d Hnd Hp Hd.
  assert (Hfire : gameActive (step (Fire h) (run tr s)) = false)
    by by apply step_inactive.
  split.
  - simpl. unfold fire. rewrite (find_pending h _ d _ Hnd Hp). simpl.
    destruct (Z.leb_spec d (now (run tr s))); [|lia].
    unfold onResetTurn. simpl. by rewrite Hrun.
  - cbn [step]. case_bool_decide; [|done]. by apply handleCardClick_inactive.
Qed.

(** The one-pair game timing out between a match and the reset of the
    turn. *)
Lemma C10_witness :
  let s := run ([CardClick 0; CardClick 1] ++ replicate 100 Wait ++ [Fire 0]) lastMoments in
  let s' := run (replicate 100 Wait) s in
  (gameActive s = false ∧ lockBoard s = true ∧ timeouts s = 1%nat ∧
   pending 1 cbResetTurnAfterDelay 120100 s') ∧
  gameActive s' = false ∧ step (CardClick 0) s' = s' ∧
  lockBoard (step (Fire 1) s') = false ∧
  step (CardClick 0) (step (Fire 1) s') = step (Fire 1) s'.
Proof.
  cbv zeta.
  set (s := run ([CardClick 0; CardClick 1] ++ replicate 100 Wait ++ [Fire 0]) lastMoments).
  assert (H1 : gameActive s = false) by (vm_compute; reflexivity).
  assert (H2 : lockBoard s = true) by (vm_compute; reflexivity).
  assert (H3 : timeouts s = 1%nat) by (vm_compute; reflexivity).
  assert (Hp : pending 1 cbResetTurnAfterDelay 120100 (run (replicate 100 Wait) s))
    by (unfold pending; apply (bool_decide_unpack _); vm_compute; exact I).
  assert (Hnd : NoDup (handle <$> tasks (run (replicate 100 Wait) s)))
    by (apply (bool_decide_unpack _); vm_compute; exact I).
  assert (Hd : 120100 ≤ now (run (replicate 100 Wait) s)) by (vm_compute; discriminate).
  destruct (C10_ended_game_ignores_clicks s (replicate 100 Wait) 0 H1
              (sameGame_replicate_Wait _)) as (Hin & Hnoop & Hlate).
  destruct (Hlate 1%nat 120100 Hnd Hp Hd) as [Hunlock Hstill].
  split_and!; assumption.
Defined.

(** * Further properties

    ** What the handlers leave alone *)

Lemma config_endGame b s :
  selectVal (endGame b s) = selectVal s ∧ currentDifficulty (endGame b s) = currentDifficulty s ∧
  numPairs (endGame b s) = numPairs s ∧ totalTime (endGame b s) = totalTime s ∧
  allPokemonList (endGame b s) = allPokemonList s ∧ grid (endGame b s) = grid s ∧
  now (endGame b s) = now s ∧ timeLeft (endGame b s) = timeLeft s ∧
  alerts (endGame b s) = alerts s.
Proof. unfold endGame. repeat case_match; rewrite ?onCards_dom; done. Qed.

Lemma config_handleCardClick c s :
  selectVal (handleCardClick c s) = selectVal s ∧
  currentDifficulty (handleCardClick c s) = currentDifficulty s ∧
  numPairs (handleCardClick c s) = numPairs s ∧ totalTime (handleCardClick c s) = totalTime s ∧
  allPokemonList (handleCardClick c s) = allPokemonList s ∧
  grid (handleCardClick c s) = grid s ∧ now (handleCardClick c s) = now s ∧
  timeLeft (handleCardClick c s) = timeLeft s ∧ alerts (handleCardClick c s) = alerts s ∧
  gameActive (handleCardClick c s) = gameActive s.
Proof.
  unfold handleCardClick, checkForMatch, processMatch, processMismatch.
  repeat case_match; done.
Qed.

Lemma config_powerUpClick s :
  selectVal (powerUpClick s) = selectVal s ∧
  currentDifficulty (powerUpClick s) = currentDifficulty s ∧
  numPairs (powerUpClick s) = numPairs s ∧ totalTime (powerUpClick s) = totalTime s ∧
  allPokemonList (powerUpClick s) = allPokemonList s ∧
  grid (powerUpClick s) = grid s ∧ now (powerUpClick s) = now s ∧
  timeLeft (powerUpClick s) = timeLeft s ∧ alerts (powerUpClick s) = alerts s ∧
  gameActive (powerUpClick s) = gameActive s.
Proof.
  unfold powerUpClick. case_match; [done|]. cbn zeta. rewrite prepareCard_fold_frame.
  unfold executePowerUpReveal. case_match; rewrite ?onCards_dom; done.
Qed.

Lemma config_onImageSettled k s :
  selectVal (onImageSettled k s) = selectVal s ∧
  currentDifficulty (onImageSettled k s) = currentDifficulty s ∧
  numPairs (onImageSettled k s) = numPairs s ∧ totalTime (onImageSettled k s) = totalTime s ∧
  allPokemonList (onImageSettled k s) = allPokemonList s ∧
  grid (onImageSettled k s) = grid s ∧ now (onImageSettled k s) = now s ∧
  timeLeft (onImageSettled k s) = timeLeft s ∧ alerts (onImageSettled k s) = alerts s ∧
  gameActive (onImageSettled k s) = gameActive s.
Proof.
  unfold onImageSettled, executePowerUpReveal. repeat case_match; rewrite ?onCards_dom; done.
Qed.

Lemma config_onTimer s :
  selectVal (onTimer s) = selectVal s ∧ currentDifficulty (onTimer s) = currentDifficulty s ∧
  numPairs (onTimer s) = numPairs s ∧ totalTime (onTimer s) = totalTime s ∧
  allPokemonList (onTimer s) = allPokemonList s ∧ grid (onTimer s) = grid s ∧
  now (onTimer s) = now s ∧ alerts (onTimer s) = alerts s.
Proof.
  unfold onTimer. cbn zeta. case_match; [|done].
  by destruct (config_endGame false (set_timeLeft (timeLeft s - 1) s))
    as (-> & -> & -> & -> & -> & -> & -> & _ & ->).
Qed.

Lemma config_onResetTurn s :
  selectVal (onResetTurn s) = selectVal s ∧
  currentDifficulty (onResetTurn s) = currentDifficulty s ∧
  numPairs (onResetTurn s) = numPairs s ∧ totalTime (onResetTurn s) = totalTime s ∧
  allPokemonList (onResetTurn s) = allPokemonList s ∧ grid (onResetTurn s) = grid s ∧
  now (onResetTurn s) = now s ∧ timeLeft (onResetTurn s) = timeLeft s ∧
  alerts (onResetTurn s) = alerts s.
Proof.
  unfold onResetTurn. cbn zeta. case_match; [|done].
  by destruct (config_endGame true
      (set_lockBoard false (set_secondCard None (set_firstCard None s))))
    as (-> & -> & -> & -> & -> & -> & -> & -> & ->).
Qed.

Lemma config_fire h s :
  selectVal (fire h s) = selectVal s ∧ currentDifficulty (fire h s) = currentDifficulty s ∧
  numPairs (fire h s) = numPairs s ∧ totalTime (fire h s) = totalTime s ∧
  allPokemonList (fire h s) = allPokemonList s ∧ grid (fire h s) = grid s ∧
  now (fire h s) = now s.
Proof.
  unfold fire. destruct (find _ _) as [t|]; [|done]. case_match; [|done].
  destruct (code t).
  - by destruct (config_onTimer (set_tasks (rearm h (now s + 1000) (tasks s)) s))
      as (-> & -> & -> & -> & -> & -> & -> & _).
  - unfold onMismatchShown. by repeat case_match.
  - by destruct (config_onResetTurn (set_tasks (cancel h (tasks s)) s))
      as (-> & -> & -> & -> & -> & -> & -> & _).
  - done.
  - done.
  - unfold onRevealOver. cbn zeta. by rewrite foldl_concealOne_dom.
Qed.

(** Within a game only the selector changes the configuration, nothing
    changes the catalogue or the cards on the board, and only the passing
    of time moves the clock. *)
Lemma config_step e s :
  sameGame e →
  allPokemonList (step e s) = allPokemonList s ∧ grid (step e s) = grid s ∧
  ((∀ d, e ≠ DifficultyChange d) →
     selectVal (step e s) = selectVal s ∧ currentDifficulty (step e s) = currentDifficulty s ∧
     numPairs (step e s) = numPairs s ∧ totalTime (step e s) = totalTime s).
Proof.
  intros He. destruct e as [o|c| |k|d| |h]; simpl; try done.
  - case_bool_decide; [|done].
    by destruct (config_handleCardClick c s) as (-> & -> & -> & -> & -> & -> & _).
  - by destruct (config_powerUpClick s) as (-> & -> & -> & -> & -> & -> & _).
  - by destruct (config_onImageSettled k s) as (-> & -> & -> & -> & -> & -> & _).
  - split_and!; [unfold difficultyChange; by case_match..|]. intros Hd. by destruct (Hd d).
  - by destruct (config_fire h s) as (-> & -> & -> & -> & -> & -> & _).
Qed.

(** ** The catalogue and the configuration *)

Lemma usable_valid e p : usable e = Some p → validEntry p.
Proof.
  unfold usable, validEntry. destruct e as [[n i]|]; [|done].
  case_match eqn:Hc; [|done]. intros [= <-]. cbn.
  apply andb_prop in Hc as [Hc _]. apply andb_prop in Hc as [?%Z.ltb_lt ?%Z.leb_le]. done.
Qed.

Lemma allPokemonList_fetch r s :
  allPokemonList (fetchAllPokemonListOnce r s).2 =
  match allPokemonList s with
  | _ :: _ => allPokemonList s
  | [] => match r with Some results => omap usable results | None => [] end
  end.
Proof.
  unfold fetchAllPokemonListOnce. destruct (allPokemonList s) eqn:Hl; [|by rewrite <-Hl].
  destruct r as [results|]; [|done]. cbn [allPokemonList set_allPokemonList say set_messages].
  by destruct (omap usable results) eqn:Hr.
Qed.

Lemma result_fetch r s :
  (fetchAllPokemonListOnce r s).1 =
  match allPokemonList (fetchAllPokemonListOnce r s).2 with
  | [] => None
  | _ :: _ => Some (allPokemonList (fetchAllPokemonListOnce r s).2)
  end.
Proof.
  unfold fetchAllPokemonListOnce. destruct (allPokemonList s) eqn:Hl.
  - destruct r as [results|]; [|by cbn; rewrite Hl].
    cbn [allPokemonList set_allPokemonList say set_messages].
    destruct (omap usable results) eqn:Hr; cbn [fst snd allPokemonList set_allPokemonList say set_messages]; done.
  - cbn. by rewrite Hl.
Qed.

Lemma fetch_frame r s :
  ∃ M, (fetchAllPokemonListOnce r s).2 =
       set_messages M (set_allPokemonList (allPokemonList (fetchAllPokemonListOnce r s).2) s).
Proof.
  unfold fetchAllPokemonListOnce. destruct s. cbn.
  repeat case_match; cbn; eexists; reflexivity.
Qed.

(** The cached catalogue is returned as it is, without a request and
    without a message. *)
Lemma fetch_cached r s :
  allPokemonList s ≠ [] → fetchAllPokemonListOnce r s = (Some (allPokemonList s), s).
Proof. unfold fetchAllPokemonListOnce. by destruct (allPokemonList s). Qed.

(** What [selectRandomPokemonForGame] returns and what it does to
    [numPairs], in terms of the catalogue after the fetch. *)
Lemma select_spec o n s :
  let a := allPokemonList (fetchAllPokemonListOnce (response o) s).2 in
  (selectRandomPokemonForGame o n s).1 =
    match a with
    | [] => []
    | _ :: _ => take (Z.to_nat (Z.min n (Z.of_nat (length a)))) (shuffled o)
    end ∧
  numPairs (selectRandomPokemonForGame o n s).2 =
    match a with
    | [] => numPairs s
    | _ :: _ => if Z.of_nat (length a) <? n then Z.of_nat (length a) else numPairs s
    end ∧
  allPokemonList (selectRandomPokemonForGame o n s).2 = a ∧
  messages (selectRandomPokemonForGame o n s).2
    = messages (fetchAllPokemonListOnce (response o) s).2.
Proof.
  cbn zeta. unfold selectRandomPokemonForGame.
  pose proof (result_fetch (response o) s) as Hres.
  destruct (fetch_frame (response o) s) as [M Hfr].
  destruct (fetchAllPokemonListOnce (response o) s) as [res s'].
  cbn [fst snd] in *. rewrite Hfr in *. cbn [allPokemonList set_messages set_allPokemonList] in *.
  destruct (allPokemonList s') as [|p a] eqn:Ha; subst res; [done|].
  destruct (Z.ltb_spec (Z.of_nat (length (p :: a))) n).
  - rewrite Z.min_r by lia. done.
  - rewrite Z.min_l by lia. done.
Qed.

Lemma select_frame o n s :
  let r := selectRandomPokemonForGame o n s in
  selectVal r.2 = selectVal s ∧ currentDifficulty r.2 = currentDifficulty s ∧
  totalTime r.2 = totalTime s ∧ timeLeft r.2 = timeLeft s ∧ gameActive r.2 = gameActive s ∧
  grid r.2 = grid s ∧ dom r.2 = dom s ∧ tasks r.2 = tasks s ∧ alerts r.2 = alerts s ∧
  now r.2 = now s ∧ nextHandle r.2 = nextHandle s ∧ timerInterval r.2 = timerInterval s ∧
  clicks r.2 = clicks s ∧ pairsMatched r.2 = pairsMatched s ∧
  firstCard r.2 = firstCard s ∧ secondCard r.2 = secondCard s ∧
  lockBoard r.2 = lockBoard s ∧ powerUpUsedThisGame r.2 = powerUpUsedThisGame s ∧
  powerUpDisabled r.2 = powerUpDisabled s ∧ activations r.2 = activations s.
Proof.
  cbn zeta. by destruct (selectRandomPokemonForGame_frame o n s) as (N & M & L & ->).
Qed.

Lemma dealCards_frame o sel s :
  selectVal (dealCards o sel s) = selectVal s ∧
  currentDifficulty (dealCards o sel s) = currentDifficulty s ∧
  numPairs (dealCards o sel s) = numPairs s ∧ totalTime (dealCards o sel s) = totalTime s ∧
  allPokemonList (dealCards o sel s) = allPokemonList s ∧
  alerts (dealCards o sel s) = alerts s ∧ now (dealCards o sel s) = now s ∧
  clicks (dealCards o sel s) = clicks s ∧ pairsMatched (dealCards o sel s) = pairsMatched s ∧
  firstCard (dealCards o sel s) = firstCard s ∧ secondCard (dealCards o sel s) = secondCard s ∧
  lockBoard (dealCards o sel s) = lockBoard s ∧
  powerUpUsedThisGame (dealCards o sel s) = powerUpUsedThisGame s ∧
  activations (dealCards o sel s) = activations s ∧
  (timeLeft (dealCards o sel s) = timeLeft s ∨ timeLeft (dealCards o sel s) = totalTime s).
Proof. unfold dealCards. repeat case_match; split_and!; auto. Qed.

Lemma resetForNewGame_config s :
  selectVal (resetForNewGame s) = selectVal s ∧
  currentDifficulty (resetForNewGame s) = selectVal s ∧
  numPairs (resetForNewGame s) = pairs (gameSettings (selectVal s)) ∧
  totalTime (resetForNewGame s) = time (gameSettings (selectVal s)) ∧
  allPokemonList (resetForNewGame s) = allPokemonList s ∧
  timeLeft (resetForNewGame s) = timeLeft s ∧ alerts (resetForNewGame s) = alerts s ∧
  now (resetForNewGame s) = now s.
Proof. done. Qed.

Lemma pairs_positive d : 3 ≤ pairs (gameSettings d) ≤ 10.
Proof. destruct d; cbn; lia. Qed.


Lemma allPokemonList_initializeGame o s :
  allPokemonList (initializeGame o s) =
  match allPokemonList s with
  | _ :: _ => allPokemonList s
  | [] => match response o with Some results => omap usable results | None => [] end
  end.
Proof.
  rewrite initializeGame_eq.
  destruct (dealCards_frame o
    (selectRandomPokemonForGame o (numPairs (resetForNewGame s)) (resetForNewGame s)).1
    (selectRandomPokemonForGame o (numPairs (resetForNewGame s)) (resetForNewGame s)).2)
    as (_ & _ & _ & _ & -> & _).
  destruct (select_spec o (numPairs (resetForNewGame s)) (resetForNewGame s))
    as (_ & _ & -> & _).
  by rewrite allPokemonList_fetch.
Qed.





(** ** The remaining time *)





(** ** The interval timer *)

Lemma filter_none {A} (P : A → Prop) `{∀ x, Decision (P x)} (l : list A) :
  (∀ x, x ∈ l → ¬ P x) → filter P l = [].
Proof.
  induction l as [|x l IH]; intros Hl; [done|].
  rewrite filter_cons_False by (apply Hl; left). apply IH. intros y Hy. apply Hl. by right.
Qed.


(** ** Alert boxes *)

Lemma queued_tasks f s s' : tasks s' = tasks s → queued f s' = queued f s.
Proof. unfold queued. by intros ->. Qed.

Lemma shown_alerts m s s' : alerts s' = alerts s → shown m s' = shown m s.
Proof. unfold shown. by intros ->. Qed.

Lemma signals_messages m s s' : messages s' = messages s → signals m s' = signals m s.
Proof. unfold signals. by intros ->. Qed.

Lemma queued_schedule f g d s :
  queued f (schedule g d s) = (queued f s + if decide (g = f) then 1 else 0)%nat.
Proof.
  unfold queued, schedule. cbn [tasks set_tasks set_nextHandle].
  rewrite filter_app, length_app, filter_cons, filter_nil. cbn [code].
  by case_decide.
Qed.

Lemma queued_cancel f h t s :
  NoDup (handle <$> tasks s) → t ∈ tasks s → handle t = h →
  (queued f (set_tasks (cancel h (tasks s)) s) + (if decide (code t = f) then 1 else 0)
   = queued f s)%nat.
Proof.
  unfold queued. cbn [tasks set_tasks]. generalize (tasks s). intros ts Hnd Ht Hh.
  induction ts as [|t' ts IH]; [by apply elem_of_nil in Ht|].
  rewrite fmap_cons in Hnd. apply NoDup_cons in Hnd as [Hnotin Hnd].
  unfold cancel. rewrite filter_cons. fold (cancel h ts).
  apply elem_of_cons in Ht as [<-|Ht].
  - rewrite decide_False by (intros Hne; by apply Hne).
    rewrite (cancel_absent h ts).
    + rewrite filter_cons. repeat case_decide; try done; cbn [length]; lia.
    + intros t' Ht' Heq. apply Hnotin. rewrite Hh, <-Heq. apply list_elem_of_fmap. eauto.
  - rewrite decide_True.
    + rewrite !filter_cons. specialize (IH Hnd Ht). repeat case_decide; try done; cbn [length] in *; lia.
    + intros Heq. apply Hnotin. rewrite Heq, <-Hh. apply list_elem_of_fmap. eauto.
Qed.

Lemma rearm_other h d ts : (∀ t, t ∈ ts → handle t ≠ h) → rearm h d ts = ts.
Proof.
  unfold rearm. induction ts as [|t ts IH]; intros Hh; [done|]. cbn [map].
  rewrite (proj2 (Nat.eqb_neq _ _)) by (apply Hh; left).
  rewrite IH; [done|]. intros t' Ht'. apply Hh. by right.
Qed.

Lemma queued_rearm f h d t s :
  NoDup (handle <$> tasks s) → t ∈ tasks s → handle t = h → code t = cbStartTimer →
  queued f (set_tasks (rearm h d (tasks s)) s) = queued f s.
Proof.
  unfold queued. cbn [tasks set_tasks]. generalize (tasks s). intros ts Hnd Ht Hh Hc.
  induction ts as [|t' ts IH]; [done|].
  rewrite fmap_cons in Hnd. apply NoDup_cons in Hnd as [Hnotin Hnd].
  apply elem_of_cons in Ht as [<-|Ht].
  - unfold rearm. cbn [map]. rewrite Hh, Nat.eqb_refl.
    fold (rearm h d ts). rewrite rearm_other.
    + rewrite !filter_cons. cbn [code]. rewrite Hc. by repeat case_decide.
    + intros t' Ht' Heq. apply Hnotin. rewrite Hh, <-Heq. apply list_elem_of_fmap. eauto.
  - unfold rearm. cbn [map]. fold (rearm h d ts).
    rewrite (proj2 (Nat.eqb_neq _ _)).
    + rewrite !filter_cons. specialize (IH Hnd Ht). repeat case_decide; try done; cbn [length] in *; lia.
    + intros Heq. apply Hnotin. rewrite Heq, <-Hh. apply list_elem_of_fmap. eauto.
Qed.

Lemma queued_clearInterval f s :
  tasksOK (tasks s) (nextHandle s) (timerInterval s) → f ≠ cbStartTimer →
  queued f (clearInterval s) = queued f s.
Proof.
  intros (_ & Hnd & _ & Hti) Hf. unfold queued, clearInterval. cbn [tasks set_tasks].
  destruct (timerInterval s) as [h|]; [|done].
  f_equal. rewrite filter_cancel. apply cancel_absent.
  intros t [Hc Ht]%list_elem_of_filter Hh. apply Hf. rewrite <-Hc. apply Hti; [done|].
  by rewrite Hh.
Qed.

Lemma signals_schedule m f d s : signals m (schedule f d s) = signals m s.
Proof. done. Qed.

Lemma queued_say f m s : queued f (say m s) = queued f s.
Proof. done. Qed.

Lemma endGame_alerts b s :
  tasksOK (tasks s) (nextHandle s) (timerInterval s) → gameActive s = true →
  alerts (endGame b s) = alerts s ∧
  wins (endGame b s) = (wins s + if b then 1 else 0)%nat ∧
  queued cbWinAlert (endGame b s) = (queued cbWinAlert s + if b then 1 else 0)%nat ∧
  timeouts (endGame b s)
    = (timeouts s + if negb b && (timeLeft s <=? 0)%Z then 1 else 0)%nat ∧
  queued cbLoseAlert (endGame b s)
    = (queued cbLoseAlert s + if negb b && (timeLeft s <=? 0)%Z then 1 else 0)%nat.
Proof.
  intros Hok Ha. rewrite endGame_active by done. cbn zeta. rewrite onCards_dom.
  assert (Hw : queued cbWinAlert (clearInterval (set_gameActive false s)) = queued cbWinAlert s).
  { by rewrite queued_clearInterval. }
  assert (Hl : queued cbLoseAlert (clearInterval (set_gameActive false s)) = queued cbLoseAlert s).
  { by rewrite queued_clearInterval. }
  match goal with |- context [say _ ?x] => set (X := x) end.
  assert (Hm : messages X = messages s) by done.
  assert (Hal : alerts X = alerts s) by done.
  assert (Ht : tasks X = tasks (clearInterval (set_gameActive false s))) by done.
  assert (Htl : timeLeft X = timeLeft s) by done.
  assert (HqwX : queued cbWinAlert X = queued cbWinAlert s).
  { rewrite (queued_tasks _ _ _ Ht). assumption. }
  assert (HqlX : queued cbLoseAlert X = queued cbLoseAlert s).
  { rewrite (queued_tasks _ _ _ Ht). assumption. }
  clearbody X. unfold wins, timeouts. destruct b; cbn [negb andb].
  - rewrite !signals_schedule, !signals_say, !queued_schedule, !queued_say.
    rewrite !(signals_messages _ _ _ Hm), HqwX, HqlX.
    repeat case_decide; try done. split_and!; (done || lia).
  - rewrite Htl. destruct (timeLeft s <=? 0).
    + rewrite !signals_schedule, !signals_say, !queued_schedule, !queued_say.
      rewrite !(signals_messages _ _ _ Hm), HqwX, HqlX.
      repeat case_decide; try done. split_and!; (done || lia).
    + rewrite !(signals_messages _ _ _ Hm), HqwX, HqlX. split_and!; (done || lia).
Qed.

Lemma queued_schedule_other f g d s :
  g ≠ f → queued f (schedule g d s) = queued f s.
Proof. intros. rewrite queued_schedule, decide_False by done. lia. Qed.

Lemma queued_handleCardClick f c s :
  isForeground f = false → queued f (handleCardClick c s) = queued f s.
Proof.
  intros Hf. unfold handleCardClick, checkForMatch, processMatch, processMismatch,
    resetTurnAfterDelay.
  repeat case_match; try done;
    rewrite queued_schedule_other by (intros <-; done); done.
Qed.

Lemma queued_executePowerUpReveal f cs s :
  isForeground f = false → queued f (executePowerUpReveal cs s) = queued f s.
Proof.
  intros Hf. unfold executePowerUpReveal.
  rewrite queued_schedule_other by (intros <-; done). by rewrite onCards_dom.
Qed.

Lemma queued_powerUpClick f s :
  isForeground f = false → queued f (powerUpClick s) = queued f s.
Proof.
  intros Hf. rewrite powerUpClick_eq. case_match; [done|]. cbn zeta.
  case_match; rewrite ?queued_executePowerUpReveal by done;
    apply queued_tasks; cbn [tasks set_activations]; by rewrite prepared_frame.
Qed.

Lemma queued_onImageSettled f k s :
  isForeground f = false → queued f (onImageSettled k s) = queued f s.
Proof.
  intros Hf. unfold onImageSettled. repeat case_match; try done.
  by rewrite queued_executePowerUpReveal.
Qed.

Lemma alertsDue_same s s' :
  messages s' = messages s → alerts s' = alerts s →
  queued cbWinAlert s' = queued cbWinAlert s → queued cbLoseAlert s' = queued cbLoseAlert s →
  alertsDue s → alertsDue s'.
Proof.
  unfold alertsDue, wins, timeouts, signals, shown. by intros -> -> -> ->.
Qed.

Lemma alertsDue_endGame b s :
  tasksOK (tasks s) (nextHandle s) (timerInterval s) → alertsDue s → alertsDue (endGame b s).
Proof.
  intros Hok [Hw Hl]. destruct (gameActive s) eqn:Ha; [|by rewrite endGame_inactive].
  destruct (endGame_alerts b s Hok Ha) as (Hal & Hw' & Hqw & Hl' & Hql).
  unfold alertsDue. rewrite Hw', Hqw, Hl', Hql.
  rewrite (shown_alerts winAlert s _), (shown_alerts loseAlert s _) by done. lia.
Qed.

Lemma wins_initializeGame o s : wins (initializeGame o s) = wins s.
Proof.
  unfold initializeGame. cbn zeta.
  assert (Hsel : wins (selectRandomPokemonForGame o (numPairs (resetForNewGame s))
                   (resetForNewGame s)).2 = wins s).
  { unfold selectRandomPokemonForGame, fetchAllPokemonListOnce.
    repeat case_match; simplify_eq; done. }
  revert Hsel. generalize (selectRandomPokemonForGame o (numPairs (resetForNewGame s))
                   (resetForNewGame s)). intros [sel s'] Hsel. cbn [fst snd] in *.
  unfold dealCards. repeat case_match; done.
Qed.

Lemma tasks_initializeGame o s :
  tasks (initializeGame o s) = tasks (clearInterval s) ∨
  tasks (initializeGame o s) = tasks (schedule cbStartTimer 1000 (clearInterval s)).
Proof.
  rewrite initializeGame_eq.
  destruct (select_frame o (numPairs (resetForNewGame s)) (resetForNewGame s))
    as (_ & _ & _ & _ & _ & _ & _ & Ht & _ & Hn & Hh & _).
  revert Ht Hn Hh.
  generalize (selectRandomPokemonForGame o (numPairs (resetForNewGame s)) (resetForNewGame s)).
  intros [sel s'] Ht Hn Hh. cbn [fst snd] in *.
  unfold dealCards. repeat case_match; try (left; exact Ht).
  right. unfold startTimer, schedule. cbn. rewrite Ht, Hn, Hh. done.
Qed.

Lemma alerts_initializeGame o s : alerts (initializeGame o s) = alerts s.
Proof.
  rewrite initializeGame_eq.
  destruct (dealCards_frame o
    (selectRandomPokemonForGame o (numPairs (resetForNewGame s)) (resetForNewGame s)).1
    (selectRandomPokemonForGame o (numPairs (resetForNewGame s)) (resetForNewGame s)).2)
    as (_ & _ & _ & _ & _ & -> & _).
  by destruct (select_frame o (numPairs (resetForNewGame s)) (resetForNewGame s))
    as (_ & _ & _ & _ & _ & _ & _ & _ & -> & _).
Qed.

Lemma queued_initializeGame f o s :
  tasksOK (tasks s) (nextHandle s) (timerInterval s) → f ≠ cbStartTimer →
  queued f (initializeGame o s) = queued f s.
Proof.
  intros Hok Hf. rewrite <-(queued_clearInterval f s) by done.
  destruct (tasks_initializeGame o s) as [Ht|Ht].
  - by apply queued_tasks.
  - rewrite (queued_tasks f _ _ Ht). by apply queued_schedule_other.
Qed.

Lemma alertsDue_fire h s : TimerInv s → alertsDue s → alertsDue (fire h s).
Proof.
  intros [Hok Hlive] Hdue. pose proof Hok as (_ & Hnd & _ & _).
  unfold fire. destruct (find _ _) as [t|] eqn:Hfind; [|done].
  apply find_Some_handle in Hfind as [Ht Hh]. case_match; [|done].
  destruct (code t) eqn:Hcode.
  - (* the interval *)
    assert (Hdue' : alertsDue (set_timeLeft (timeLeft s - 1)
                      (set_tasks (rearm h (now s + 1000) (tasks s)) s))).
    { eapply (alertsDue_same s); [done|done| | |exact Hdue].
      - rewrite (queued_tasks _ (set_tasks (rearm h (now s + 1000) (tasks s)) s) _) by done.
        by eapply queued_rearm.
      - rewrite (queued_tasks _ (set_tasks (rearm h (now s + 1000) (tasks s)) s) _) by done.
        by eapply queued_rearm. }
    unfold onTimer. cbn zeta. case_match; [|done].
    apply alertsDue_endGame; [|done]. cbn [tasks nextHandle timerInterval set_timeLeft set_tasks].
    by eapply tasksOK_rearm.
  - (* the mismatch shown *)
    assert (Hdue' : alertsDue (set_tasks (cancel h (tasks s)) s)).
    { eapply (alertsDue_same s); [done|done| | |exact Hdue].
      - pose proof (queued_cancel cbWinAlert h t s Hnd Ht Hh) as Hq.
        rewrite Hcode, decide_False in Hq by done. lia.
      - pose proof (queued_cancel cbLoseAlert h t s Hnd Ht Hh) as Hq.
        rewrite Hcode, decide_False in Hq by done. lia. }
    eapply (alertsDue_same (set_tasks (cancel h (tasks s)) s)); [| | | |exact Hdue'].
    + apply messages_onMismatchShown.
    + unfold onMismatchShown. by repeat case_match.
    + unfold onMismatchShown, resetTurnAfterDelay.
      rewrite queued_schedule_other by done. apply queued_tasks. by repeat case_match.
    + unfold onMismatchShown, resetTurnAfterDelay.
      rewrite queued_schedule_other by done. apply queued_tasks. by repeat case_match.
  - (* the reset of the turn *)
    assert (Hdue' : alertsDue (set_lockBoard false (set_secondCard None (set_firstCard None
                      (set_tasks (cancel h (tasks s)) s))))).
    { eapply (alertsDue_same s); [done|done| | |exact Hdue].
      - rewrite (queued_tasks _ (set_tasks (cancel h (tasks s)) s) _) by done.
        pose proof (queued_cancel cbWinAlert h t s Hnd Ht Hh) as Hq.
        rewrite Hcode, decide_False in Hq by done. lia.
      - rewrite (queued_tasks _ (set_tasks (cancel h (tasks s)) s) _) by done.
        pose proof (queued_cancel cbLoseAlert h t s Hnd Ht Hh) as Hq.
        rewrite Hcode, decide_False in Hq by done. lia. }
    unfold onResetTurn. cbn zeta. case_match; [|done].
    apply alertsDue_endGame; [|done].
    cbn [tasks nextHandle timerInterval set_lockBoard set_secondCard set_firstCard set_tasks].
    by apply tasksOK_cancel.
  - (* the alert of a win *)
    destruct Hdue as [Hw Hl]. unfold alertsDue, alert.
    pose proof (queued_cancel cbWinAlert h t s Hnd Ht Hh) as Hqw.
    pose proof (queued_cancel cbLoseAlert h t s Hnd Ht Hh) as Hql.
    rewrite Hcode in Hqw, Hql. rewrite decide_True in Hqw by done.
    rewrite decide_False in Hql by done.
    rewrite (queued_tasks cbWinAlert (set_tasks (cancel h (tasks s)) s) _) by done.
    rewrite (queued_tasks cbLoseAlert (set_tasks (cancel h (tasks s)) s) _) by done.
    unfold shown in *. cbn [alerts set_alerts set_tasks].
    rewrite filter_cons_True by done. rewrite filter_cons_False by done.
    unfold wins, timeouts, signals in *. cbn [messages set_alerts set_tasks length]. lia.
  - (* the alert of a timeout *)
    destruct Hdue as [Hw Hl]. unfold alertsDue, alert.
    pose proof (queued_cancel cbWinAlert h t s Hnd Ht Hh) as Hqw.
    pose proof (queued_cancel cbLoseAlert h t s Hnd Ht Hh) as Hql.
    rewrite Hcode in Hqw, Hql. rewrite decide_False in Hqw by done.
    rewrite decide_True in Hql by done.
    rewrite (queued_tasks cbWinAlert (set_tasks (cancel h (tasks s)) s) _) by done.
    rewrite (queued_tasks cbLoseAlert (set_tasks (cancel h (tasks s)) s) _) by done.
    unfold shown in *. cbn [alerts set_alerts set_tasks].
    rewrite filter_cons_False by done. rewrite filter_cons_True by done.
    unfold wins, timeouts, signals in *. cbn [messages set_alerts set_tasks length]. lia.
  - (* the end of a reveal *)
    eapply (alertsDue_same s); [| | | |exact Hdue].
    + by rewrite messages_onRevealOver.
    + unfold onRevealOver. cbn zeta. by rewrite foldl_concealOne_dom.
    + unfold onRevealOver. cbn zeta. rewrite foldl_concealOne_dom.
      rewrite (queued_tasks _ (set_tasks (cancel h (tasks s)) s) _) by done.
      pose proof (queued_cancel cbWinAlert h t s Hnd Ht Hh) as Hq.
      rewrite Hcode, decide_False in Hq by done. lia.
    + unfold onRevealOver. cbn zeta. rewrite foldl_concealOne_dom.
      rewrite (queued_tasks _ (set_tasks (cancel h (tasks s)) s) _) by done.
      pose proof (queued_cancel cbLoseAlert h t s Hnd Ht Hh) as Hq.
      rewrite Hcode, decide_False in Hq by done. lia.
Qed.

Lemma alertsDue_step e s : TimerInv s → alertsDue s → alertsDue (step e s).
Proof.
  intros Hinv Hdue. destruct e as [o|c| |k|d| |h]; simpl.
  - destruct Hdue as [Hw Hl]. destruct Hinv as [Hok _]. unfold alertsDue.
    rewrite wins_initializeGame, timeouts_initializeGame.
    rewrite !queued_initializeGame by done.
    by rewrite (shown_alerts winAlert s _), (shown_alerts loseAlert s _)
      by apply alerts_initializeGame.
  - case_bool_decide; [|done]. eapply (alertsDue_same s); [| | | |exact Hdue].
    + apply messages_handleCardClick.
    + apply config_handleCardClick.
    + by apply queued_handleCardClick.
    + by apply queued_handleCardClick.
  - eapply (alertsDue_same s); [| | | |exact Hdue].
    + apply messages_powerUpClick.
    + apply config_powerUpClick.
    + by apply queued_powerUpClick.
    + by apply queued_powerUpClick.
  - eapply (alertsDue_same s); [| | | |exact Hdue].
    + apply messages_onImageSettled.
    + apply config_onImageSettled.
    + by apply queued_onImageSettled.
    + by apply queued_onImageSettled.
  - destruct Hdue as [Hw Hl]. unfold alertsDue.
    rewrite wins_difficultyChange, timeouts_difficultyChange.
    unfold difficultyChange. by case_match.
  - done.
  - by apply alertsDue_fire.
Qed.

Lemma alertsDue_pageLoaded r : alertsDue (pageLoaded r).
Proof.
  unfold pageLoaded, fetchAllPokemonListOnce. cbn.
  destruct r as [results|]; [|done]. by destruct (omap usable results).
Qed.

Lemma alertsDue_reachable s : Reachable s → alertsDue s.
Proof.
  induction 1 as [r|e s Hr IH]; [apply alertsDue_pageLoaded|].
  apply alertsDue_step; [by apply TimerInv_reachable|done].
Qed.

Lemma allPokemonList_pageLoaded r :
  allPokemonList (pageLoaded r) =
  match r with Some results => omap usable results | None => [] end.
Proof. unfold pageLoaded. by rewrite allPokemonList_fetch. Qed.

Lemma omap_usable_valid (results : list (option (string * Z))) p :
  p ∈ omap usable results → validEntry p.
Proof. intros (e & _ & He)%list_elem_of_omap. by eapply usable_valid. Qed.

Lemma catalogue_valid s : Reachable s → ∀ p, p ∈ allPokemonList s → validEntry p.
Proof.
  induction 1 as [r|e s Hr IH]; intros p.
  - rewrite allPokemonList_pageLoaded. destruct r as [results|]; [|by intros ?%elem_of_nil].
    apply omap_usable_valid.
  - destruct e as [o|c| |k|d| |h].
    + rewrite step_Start, allPokemonList_initializeGame.
      destruct (allPokemonList s) eqn:Hl; [|by apply IH].
      destruct (response o) as [results|]; [|by intros ?%elem_of_nil].
      apply omap_usable_valid.
    + destruct (config_step (CardClick c) s I) as (-> & _). apply IH.
    + destruct (config_step PowerUp s I) as (-> & _). apply IH.
    + destruct (config_step (ImageSettled k) s I) as (-> & _). apply IH.
    + destruct (config_step (DifficultyChange d) s I) as (-> & _). apply IH.
    + apply IH.
    + destruct (config_step (Fire h) s I) as (-> & _). apply IH.
Qed.


(** ** The start of a game *)

Lemma catalogueFor_eq o s :
  catalogueFor o s = (fetchAllPokemonListOnce (response o) (resetForNewGame s)).1.
Proof. reflexivity. Qed.


Lemma select_cases o n s :
  match (fetchAllPokemonListOnce (response o) s).1 with
  | None =>
      (selectRandomPokemonForGame o n s).1 = [] ∧
      (selectRandomPokemonForGame o n s).2 = (fetchAllPokemonListOnce (response o) s).2
  | Some a =>
      a = allPokemonList (fetchAllPokemonListOnce (response o) s).2 ∧ a ≠ [] ∧
      (selectRandomPokemonForGame o n s).1 =
        take (Z.to_nat (Z.min n (Z.of_nat (length a)))) (shuffled o) ∧
      (selectRandomPokemonForGame o n s).2 =
        if Z.of_nat (length a) <? n
        then set_numPairs (Z.of_nat (length a)) (fetchAllPokemonListOnce (response o) s).2
        else (fetchAllPokemonListOnce (response o) s).2
  end.
Proof.
  unfold selectRandomPokemonForGame.
  pose proof (result_fetch (response o) s) as Hres.
  destruct (fetchAllPokemonListOnce (response o) s) as [res s']. cbn [fst snd] in *.
  destruct (allPokemonList s') as [|p a] eqn:Ha; subst res; [done|].
  split; [done|]. split; [done|].
  destruct (Z.ltb_spec (Z.of_nat (length (p :: a))) n).
  - by rewrite Z.min_r by lia.
  - by rewrite Z.min_l by lia.
Qed.

(** A fetch that fails leaves "API Error!" in the message area, whatever it
    put there before. *)
Lemma fetch_failed r s :
  (fetchAllPokemonListOnce r s).1 = None →
  allPokemonList s = [] ∧
  ∃ M, (fetchAllPokemonListOnce r s).2 = set_messages ("API Error!" :: M ++ messages s) s ∧
       (M = ["Load Failed!"; "Fetching Data..."] ∨ M = ["Fetching Data..."]).
Proof.
  unfold fetchAllPokemonListOnce. destruct (allPokemonList s) eqn:Hl; [|done].
  destruct r as [results|].
  - cbn [allPokemonList set_allPokemonList say set_messages].
    destruct (omap usable results) eqn:Hr; [|done]. intros _. split; [done|].
    exists ["Load Failed!"; "Fetching Data..."]. split; [|by left].
    rewrite <-Hl. by destruct s.
  - intros _. split; [done|]. exists ["Fetching Data..."]. split; [done|by right].
Qed.

Lemma fetch_succeeded r s a :
  (fetchAllPokemonListOnce r s).1 = Some a →
  (fetchAllPokemonListOnce r s).2 = s ∨
  (allPokemonList s = [] ∧
   (fetchAllPokemonListOnce r s).2 =
     set_messages ("Data Loaded!" :: "Fetching Data..." :: messages s)
       (set_allPokemonList a s)).
Proof.
  unfold fetchAllPokemonListOnce. destruct (allPokemonList s) eqn:Hl; [|by left].
  destruct r as [results|]; [|done]. cbn [allPokemonList set_allPokemonList say set_messages].
  destruct (omap usable results) eqn:Hr; [done|]. intros [= <-]. right. done.
Qed.

Lemma length_buildCardsData sel :
  length (flat_map pairOf sel) = length (buildCardsData sel).
Proof.
  unfold buildCardsData, pairOf. induction sel as [|p sel IH]; [done|]. cbn [flat_map].
  rewrite !length_app, IH. by case_match.
Qed.




Lemma dealCards_none o s :
  head (messages s) ≠ Some "Loading Cards..." →
  dealCards o [] s = set_powerUpDisabled true (set_gameActive false s).
Proof. intros Hm. unfold dealCards. by rewrite bool_decide_eq_false_2. Qed.

Lemma dealCards_error o sel s :
  sel ≠ [] → buildCardsData sel = [] → dealCards o sel s = say "Card Data Error!" s.
Proof. intros Hs Hb. unfold dealCards. destruct sel; [done|]. by rewrite Hb. Qed.

Lemma dealCards_dealt o sel s :
  sel ≠ [] → buildCardsData sel ≠ [] → omap cardElement (dealt o) ≠ [] →
  dealCards o sel s =
    say "Match 'em All!"
      (startTimer
        (set_timeLeft (totalTime s)
          (set_grid (seq (length (dom s)) (length (omap cardElement (dealt o))))
             (set_dom (dom s ++ omap cardElement (dealt o)) s)))).
Proof.
  intros Hs Hb He. unfold dealCards. destruct sel; [done|].
  destruct (buildCardsData (p :: sel)); [done|].
  cbn zeta. cbn [grid set_grid set_dom].
  destruct (omap cardElement (dealt o)); [done|]. reflexivity.
Qed.

(** A start up to the deal: what is selected, and the state the cards are
    dealt in. *)
Lemma start_shape o s :
  let F := fetchAllPokemonListOnce (response o) (resetForNewGame s) in
  match catalogueFor o s with
  | None =>
      head (messages F.2) = Some "API Error!" ∧
      initializeGame o s = set_powerUpDisabled true (set_gameActive false F.2)
  | Some a =>
      a = allPokemonList F.2 ∧ a ≠ [] ∧
      selectedFor o s =
        take (Z.to_nat (Z.min (pairs (gameSettings (selectVal s))) (Z.of_nat (length a))))
          (shuffled o) ∧
      initializeGame o s =
        dealCards o (selectedFor o s)
          (if Z.of_nat (length a) <? pairs (gameSettings (selectVal s))
           then set_numPairs (Z.of_nat (length a)) F.2 else F.2)
  end.
Proof.
  cbn zeta. rewrite initializeGame_eq, catalogueFor_eq. unfold selectedFor.
  pose proof (select_cases o (numPairs (resetForNewGame s)) (resetForNewGame s)) as Hsel.
  destruct (resetForNewGame_config s) as (_ & _ & Hnp & _). rewrite <-Hnp. clear Hnp.
  destruct ((fetchAllPokemonListOnce (response o) (resetForNewGame s)).1) as [a|] eqn:HF.
  - destruct Hsel as (Ha & Hne & Hsel1 & Hsel2). rewrite Hsel2. done.
  - destruct Hsel as [Hsel1 Hsel2]. rewrite Hsel1, Hsel2.
    destruct (fetch_failed _ _ HF) as (_ & M & HM & _).
    split; [by rewrite HM|].
    apply dealCards_none. rewrite HM. cbn [messages set_messages head]. intros [=].
Qed.

(** The three ways a start can go, when the two [sort] calls rearrange
    their arrays: without a catalogue; with Pokemon selected of which none
    can be dealt; with the cards dealt and the timer started. *)
Lemma start_cases o s :
  sortOutcome o s →
  let F := fetchAllPokemonListOnce (response o) (resetForNewGame s) in
  (catalogueFor o s = None ∧ head (messages F.2) = Some "API Error!" ∧
   initializeGame o s = set_powerUpDisabled true (set_gameActive false F.2)) ∨
  (∃ a S1,
     catalogueFor o s = Some a ∧ a = allPokemonList F.2 ∧ shuffled o ≡ₚ a ∧
     Z.of_nat (length (selectedFor o s))
       = Z.min (pairs (gameSettings (selectVal s))) (Z.of_nat (length a)) ∧
     selectedFor o s `sublist_of` shuffled o ∧
     S1 = (if Z.of_nat (length a) <? pairs (gameSettings (selectVal s))
           then set_numPairs (Z.of_nat (length a)) F.2 else F.2) ∧
     ((buildCardsData (selectedFor o s) = [] ∧
       initializeGame o s = say "Card Data Error!" S1) ∨
      (buildCardsData (selectedFor o s) ≠ [] ∧
       omap cardElement (dealt o) ≡ₚ flat_map pairOf (selectedFor o s) ∧
       initializeGame o s =
         say "Match 'em All!"
           (startTimer
             (set_timeLeft (totalTime S1)
               (set_grid (seq (length (dom S1)) (length (omap cardElement (dealt o))))
                  (set_dom (dom S1 ++ omap cardElement (dealt o)) S1))))))).
Proof.
  intros [Hshuf Hdealt]. cbn zeta. pose proof (start_shape o s) as Hshape. cbn zeta in Hshape.
  destruct (catalogueFor o s) as [a|] eqn:Hcat; [|left; by destruct Hshape].
  right. destruct Hshape as (Ha & Hne & Hsel & Hinit). specialize (Hshuf a eq_refl).
  pose proof (pairs_positive (selectVal s)) as Hp.
  assert (Hlen : length (shuffled o) = length a) by by rewrite Hshuf.
  assert (0 < length a)%nat by (destruct a; [done|cbn; lia]).
  assert (Hsl : Z.of_nat (length (selectedFor o s))
       = Z.min (pairs (gameSettings (selectVal s))) (Z.of_nat (length a))).
  { rewrite Hsel, length_take, Hlen. lia. }
  eexists a, _. split_and!; [reflexivity|exact Ha|exact Hshuf|exact Hsl| |reflexivity|].
  { rewrite Hsel. apply sublist_take. }
  rewrite Hinit. clear Hinit Hsel. revert Hsl Hdealt. generalize (selectedFor o s).
  intros sel Hsl Hdealt.
  assert (Hsel' : sel ≠ []).
  { intros ->. cbn in Hsl. lia. }
  destruct (buildCardsData sel) as [|c l] eqn:Hb.
  - left. split; [reflexivity|]. by apply dealCards_error.
  - right. split; [discriminate|].
    assert (Hperm : omap cardElement (dealt o) ≡ₚ flat_map pairOf sel).
    { rewrite <-cardElement_buildCardsData, Hb. by apply omap_Permutation. }
    split; [exact Hperm|]. apply dealCards_dealt; [exact Hsel'|by rewrite Hb|].
    intros Hnil. apply Permutation_length in Hperm.
    rewrite Hnil, length_buildCardsData, Hb in Hperm. discriminate.
Qed.


Lemma lookup_seq_app {A} (l k : list A) c :
  c ∈ seq (length l) (length k) → ∃ x, (l ++ k) !! c = Some x ∧ x ∈ k.
Proof.
  intros [Hge Hlt]%elem_of_seq.
  destruct (lookup_lt_is_Some_2 k (c - length l)) as [x Hx]; [lia|].
  exists x. split; [|by eapply list_elem_of_lookup_2].
  rewrite lookup_app_r by lia. done.
Qed.


(** ** Messages *)

Lemma signals_cons_ne m x s s' :
  messages s' = x :: messages s → x ≠ m → signals m s' = signals m s.
Proof. unfold signals. intros -> Hx. by rewrite filter_cons_False. Qed.

Lemma signals_cons_eq m s s' :
  messages s' = m :: messages s → signals m s' = S (signals m s).
Proof. unfold signals. intros ->. by rewrite filter_cons_True. Qed.

Lemma signals_app m l s s' :
  messages s' = l ++ messages s → m ∉ l → signals m s' = signals m s.
Proof.
  unfold signals. intros -> Hm. rewrite filter_app, filter_none; [done|].
  intros x Hx ->. done.
Qed.

(** The texts a deal can put in the message area. *)
Lemma messages_dealCards o sel s :
  ∃ D, messages (dealCards o sel s) = D ++ messages s ∧
       (D = [] ∨ D = ["No Pokémon Data!"] ∨ D = ["Card Data Error!"] ∨
        D = ["Card Display Error!"] ∨ D = ["Match 'em All!"]).
Proof.
  unfold dealCards. repeat case_match.
  - exists ["No Pokémon Data!"]. split; [reflexivity|auto].
  - exists []. split; [reflexivity|auto].
  - exists ["Card Data Error!"]. split; [reflexivity|auto].
  - exists ["Card Display Error!"]. split; [reflexivity|auto].
  - exists ["Match 'em All!"]. split; [reflexivity|auto 6].
Qed.

(** The texts a fetch puts in the message area: none when the catalogue is
    cached, otherwise "Fetching Data..." once, and then the outcome. *)
Lemma messages_fetch r s :
  ∃ M, messages (fetchAllPokemonListOnce r s).2 = M ++ messages s ∧
       if bool_decide (allPokemonList s = [])
       then M = ["Data Loaded!"; "Fetching Data..."] ∨
            M = ["API Error!"; "Load Failed!"; "Fetching Data..."] ∨
            M = ["API Error!"; "Fetching Data..."]
       else M = [].
Proof.
  destruct (fetchAllPokemonListOnce r s).1 as [a|] eqn:HF.
  - destruct (fetch_succeeded r s a HF) as [Heq|[Hl Heq]]; rewrite Heq.
    + exists []. split; [done|]. case_bool_decide as Hl; [|done].
      rewrite result_fetch, Heq, Hl in HF. done.
    + exists ["Data Loaded!"; "Fetching Data..."]. split; [done|].
      rewrite bool_decide_eq_true_2 by done. auto.
  - destruct (fetch_failed r s HF) as (Hl & M & Heq & [-> | ->]); rewrite Heq.
    + exists ["API Error!"; "Load Failed!"; "Fetching Data..."]. split; [done|].
      rewrite bool_decide_eq_true_2 by done. auto.
    + exists ["API Error!"; "Fetching Data..."]. split; [done|].
      rewrite bool_decide_eq_true_2 by done. auto.
Qed.

Lemma messages_initializeGame o s :
  ∃ D M, messages (initializeGame o s) = D ++ M ++ "Loading Cards..." :: messages s ∧
    (D = [] ∨ D = ["No Pokémon Data!"] ∨ D = ["Card Data Error!"] ∨
     D = ["Card Display Error!"] ∨ D = ["Match 'em All!"]) ∧
    if bool_decide (allPokemonList s = [])
    then M = ["Data Loaded!"; "Fetching Data..."] ∨
         M = ["API Error!"; "Load Failed!"; "Fetching Data..."] ∨
         M = ["API Error!"; "Fetching Data..."]
    else M = [].
Proof.
  rewrite initializeGame_eq.
  destruct (messages_dealCards o
    (selectRandomPokemonForGame o (numPairs (resetForNewGame s)) (resetForNewGame s)).1
    (selectRandomPokemonForGame o (numPairs (resetForNewGame s)) (resetForNewGame s)).2)
    as (D & -> & HD).
  destruct (select_spec o (numPairs (resetForNewGame s)) (resetForNewGame s))
    as (_ & _ & _ & ->).
  destruct (messages_fetch (response o) (resetForNewGame s)) as (M & -> & HM).
  exists D, M. split; [done|]. split; [done|]. exact HM.
Qed.

Lemma messages_endGame b s :
  messages (endGame b s) = messages s ∨
  messages (endGame b s) = "You Won!" :: messages s ∨
  messages (endGame b s) = "Game Over!" :: messages s.
Proof. unfold endGame. repeat case_match; rewrite ?onCards_dom; auto. Qed.

Lemma messages_fire h s :
  messages (fire h s) = messages s ∨
  messages (fire h s) = "You Won!" :: messages s ∨
  messages (fire h s) = "Game Over!" :: messages s.
Proof.
  unfold fire. destruct (find _ _) as [t|]; [|by left]. case_match; [|by left].
  destruct (code t).
  - unfold onTimer. cbn zeta. case_match; [|by left].
    apply (messages_endGame false
      (set_timeLeft (timeLeft s - 1) (set_tasks (rearm h (now s + 1000) (tasks s)) s))).
  - left. by rewrite messages_onMismatchShown.
  - unfold onResetTurn. cbn zeta. case_match; [|by left].
    apply (messages_endGame true
      (set_lockBoard false (set_secondCard None (set_firstCard None
        (set_tasks (cancel h (tasks s)) s))))).
  - by left.
  - by left.
  - left. by rewrite messages_onRevealOver.
Qed.

(** Within a game the message area only ever gets the texts of a win, of a
    timeout and of a change of mode. *)
Lemma messages_sameGame e s :
  sameGame e →
  messages (step e s) = messages s ∨
  ∃ m, m ∈ ["You Won!"; "Game Over!"; "Mode Set. Start!"] ∧
       messages (step e s) = m :: messages s.
Proof.
  intros He. destruct e as [o|c| |k|d| |h]; simpl; try done.
  - left. case_bool_decide; [|done]. apply messages_handleCardClick.
  - left. apply messages_powerUpClick.
  - left. apply messages_onImageSettled.
  - unfold difficultyChange. case_match; [|by left]. right.
    exists "Mode Set. Start!". split; [|done]. do 2 right. left.
  - by left.
  - destruct (messages_fire h s) as [->|[-> | ->]]; [by left|right..].
    + exists "You Won!". split; [left|done].
    + exists "Game Over!". split; [right; left|done].
Qed.

Lemma signals_sameGame m e s :
  sameGame e → m ∉ ["You Won!"; "Game Over!"; "Mode Set. Start!"] →
  signals m (step e s) = signals m s.
Proof.
  intros He Hm. destruct (messages_sameGame e s He) as [Heq|(x & Hx & Heq)].
  - by apply signals_messages.
  - eapply signals_cons_ne; [exact Heq|]. by intros ->.
Qed.



Lemma sortOutcome_firstDeal : sortOutcome firstDeal (pageLoaded threeReply).
Proof.
  split.
  - intros available H. vm_compute in H. injection H as <-.
    apply (bool_decide_unpack _). vm_compute. exact I.
  - apply (bool_decide_unpack _). vm_compute. exact I.
Qed.

Lemma reachable_threeGame : Reachable threeGame.
Proof. apply clean_reachable, threeGame_clean. Qed.



Lemma head_messages_failed m X :
  head (messages X) = Some m →
  head (messages (set_powerUpDisabled true (set_gameActive false X))) = Some m.
Proof. intros H. exact H. Qed.

(** The text a start leaves in the message area. *)
Lemma start_head o s :
  sortOutcome o s →
  head (messages (initializeGame o s)) = Some "API Error!" ∨
  head (messages (initializeGame o s)) = Some "Card Data Error!" ∨
  head (messages (initializeGame o s)) = Some "Match 'em All!".
Proof.
  intros Hsort.
  destruct (start_cases o s Hsort)
    as [(_ & Hmsg & Heq)|(a & S1 & _ & _ & _ & _ & _ & _ & Hdeal)].
  - left. rewrite Heq. apply head_messages_failed. exact Hmsg.
  - destruct Hdeal as [[_ ->]|(_ & _ & ->)]; [right; left|right; right]; reflexivity.
Qed.

Lemma start_silent o s :
  sortOutcome o s →
  signals "No Pokémon Data!" (initializeGame o s) = signals "No Pokémon Data!" s ∧
  signals "Card Display Error!" (initializeGame o s) = signals "Card Display Error!" s.
Proof.
  intros Hsort. pose proof (start_head o s Hsort) as Hhead.
  destruct (messages_initializeGame o s) as (D & M & HM & HD & HMs).
  rewrite HM in Hhead.
  assert (HDs : D = [] ∨ D = ["Card Data Error!"] ∨ D = ["Match 'em All!"]).
  { destruct HD as [->|[->|[->|[->| ->]]]]; auto.
    - destruct Hhead as [[=]|[[=]|[=]]].
    - destruct Hhead as [[=]|[[=]|[=]]]. }
  assert (Hreset : D ++ M ++ "Loading Cards..." :: messages s
                   = (D ++ M ++ ["Loading Cards..."]) ++ messages s)
    by by rewrite <-!app_assoc.
  rewrite Hreset in HM. clear Hreset Hhead HD.
  split; apply (signals_app _ _ _ _ HM); intros Hin;
    repeat (apply elem_of_app in Hin as [Hin|Hin]).
  all: try (destruct HDs as [->|[-> | ->]];
            repeat (apply elem_of_cons in Hin as [[=]|Hin]); by apply elem_of_nil in Hin).
  all: try (repeat (apply elem_of_cons in Hin as [[=]|Hin]); by apply elem_of_nil in Hin).
  all: case_bool_decide; [destruct HMs as [->|[-> | ->]]|subst M];
         repeat (apply elem_of_cons in Hin as [[=]|Hin]); by apply elem_of_nil in Hin.
Qed.




(** ** A locked board with nothing outstanding *)

(** The board is locked and no callback of a turn or of a reveal and no
    image load is outstanding that could unlock it. *)
Lemma stuck_fire h s :
  TimerInv s → lockBoard s = true → foreground s = [] →
  lockBoard (fire h s) = true ∧ foreground (fire h s) = [] ∧
  activations (fire h s) = activations s ∧
  clicks (fire h s) = clicks s ∧ pairsMatched (fire h s) = pairsMatched s ∧
  wins (fire h s) = wins s ∧
  firstCard (fire h s) = firstCard s ∧ secondCard (fire h s) = secondCard s.
Proof.
  intros [Hok Hlive] Hlock Hfg. pose proof Hok as (_ & Hnd & _ & _). unfold fire.
  destruct (find _ _) as [t|] eqn:Hfind; [|done].
  apply find_Some_handle in Hfind as [Ht Hh]. case_match; [|done].
  assert (Hnf : isForeground (code t) = false).
  { destruct (isForeground (code t)) eqn:Hf; [|done].
    assert (t ∈ foreground s) as Hin by by apply list_elem_of_filter.
    rewrite Hfg in Hin. by apply elem_of_nil in Hin. }
  destruct (code t) eqn:Hcode; try done.
  - (* the interval *)
    assert (Hfg' : foreground (set_tasks (rearm h (now s + 1000) (tasks s)) s) = []).
    { by rewrite (foreground_rearm h _ t s). }
    unfold onTimer. cbn zeta. case_match; [|done].
    set (s1 := set_timeLeft _ _) in *.
    assert (Hok1 : tasksOK (tasks s1) (nextHandle s1) (timerInterval s1)).
    { by eapply tasksOK_rearm. }
    destruct (endGame_frame false s1 Hok1) as (H1 & H2 & H3 & H4 & H5 & H6 & _ & H8).
    rewrite H1, H2, H3, H4, H5, H6, wins_endGame_lose.
    split_and!; try done.
    destruct (gameActive s1) eqn:Ha; [by apply H8|by rewrite endGame_inactive].
  - (* the alert of a win *)
    split_and!; try done. cbn [alert]. rewrite <-Hfg.
    apply (foreground_cancel_other h t s); [done..|by rewrite Hcode].
  - (* the alert of a timeout *)
    split_and!; try done. cbn [alert]. rewrite <-Hfg.
    apply (foreground_cancel_other h t s); [done..|by rewrite Hcode].
Qed.

Lemma stuck_step e s :
  sameGame e → TimerInv s →
  lockBoard s = true → foreground s = [] → pendingLoads s = 0%nat →
  lockBoard (step e s) = true ∧ foreground (step e s) = [] ∧
  pendingLoads (step e s) = 0%nat ∧
  clicks (step e s) = clicks s ∧ pairsMatched (step e s) = pairsMatched s ∧
  wins (step e s) = wins s ∧
  firstCard (step e s) = firstCard s ∧ secondCard (step e s) = secondCard s.
Proof.
  intros He Hinv Hlock Hfg Hld. destruct e as [o|c| |k|d| |h]; simpl; try done.
  - case_bool_decide; [|done]. by rewrite handleCardClick_locked.
  - by rewrite powerUpClick_rejected by auto.
  - by rewrite onImageSettled_idle.
  - rewrite wins_difficultyChange. unfold difficultyChange. by case_match.
  - destruct (stuck_fire h s Hinv Hlock Hfg) as (H1 & H2 & H3 & H4 & H5 & H6 & H7 & H8).
    split_and!; try done. by rewrite (pendingLoads_activations s).
Qed.

Lemma stuck_run tr s :
  Forall sameGame tr → TimerInv s →
  lockBoard s = true → foreground s = [] → pendingLoads s = 0%nat →
  lockBoard (run tr s) = true ∧
  clicks (run tr s) = clicks s ∧ pairsMatched (run tr s) = pairsMatched s ∧
  wins (run tr s) = wins s ∧
  firstCard (run tr s) = firstCard s ∧ secondCard (run tr s) = secondCard s.
Proof.
  intros Htr. revert s. induction Htr as [|e tr He Htr IH]; intros s Hinv Hlock Hfg Hld; [done|].
  cbn [run foldl].
  destruct (stuck_step e s He Hinv Hlock Hfg Hld) as (H1 & H2 & H3 & H4 & H5 & H6 & H7 & H8).
  destruct (IH (step e s)) as (G1 & G2 & G3 & G4 & G5 & G6);
    [by apply TimerInv_step|done..|].
  unfold run in *. by rewrite G1, G2, G3, G4, G5, G6, H4, H5, H6, H7, H8.
Qed.

Lemma reveal_over_fields cs s :
  firstCard (onRevealOver cs s) = firstCard s ∧ secondCard (onRevealOver cs s) = secondCard s ∧
  clicks (onRevealOver cs s) = clicks s ∧ pairsMatched (onRevealOver cs s) = pairsMatched s ∧
  tasks (onRevealOver cs s) = tasks s ∧ activations (onRevealOver cs s) = activations s ∧
  messages (onRevealOver cs s) = messages s ∧ gameActive (onRevealOver cs s) = gameActive s ∧
  lockBoard (onRevealOver cs s)
    = match firstCard s, secondCard s with Some _, None => true | _, _ => false end.
Proof.
  unfold onRevealOver. cbn zeta. rewrite foldl_concealOne_dom, lockBoard_after_reveal. done.
Qed.

Lemma fire_pending h f d s :
  NoDup (handle <$> tasks s) → pending h f d s → d ≤ now s →
  fire h s =
    match f with
    | cbStartTimer => onTimer (set_tasks (rearm h (now s + 1000) (tasks s)) s)
    | cbProcessMismatch => onMismatchShown (set_tasks (cancel h (tasks s)) s)
    | cbResetTurnAfterDelay => onResetTurn (set_tasks (cancel h (tasks s)) s)
    | cbWinAlert =>
        alert "Congratulations! You matched all the Pokémon! You WIN!"
          (set_tasks (cancel h (tasks s)) s)
    | cbLoseAlert =>
        alert "Time's up! You LOST! Better luck next time, trainer!"
          (set_tasks (cancel h (tasks s)) s)
    | cbPowerUpReveal cardsArray => onRevealOver cardsArray (set_tasks (cancel h (tasks s)) s)
    end.
Proof.
  intros Hnd Hp Hd. unfold fire. rewrite (find_pending h f d s Hnd Hp). cbn [due code].
  by rewrite (proj2 (Z.leb_le _ _) Hd).
Qed.

Lemma reveal_freezes s h cs d :
  CleanReachable s → gameActive s = true →
  pending h (cbPowerUpReveal cs) d s → d ≤ now s →
  is_Some (firstCard s) → secondCard s = None →
  let s' := step (Fire h) s in
  gameActive s' = true ∧ lockBoard s' = true ∧ foreground s' = [] ∧ pendingLoads s' = 0%nat ∧
  firstCard s' = firstCard s ∧
  ∀ tr, Forall sameGame tr →
    lockBoard (run tr s') = true ∧
    clicks (run tr s') = clicks s ∧ pairsMatched (run tr s') = pairsMatched s ∧
    wins (run tr s') = wins s ∧ firstCard (run tr s') = firstCard s ∧
    ∀ c, step (CardClick c) (run tr s') = run tr s'.
Proof.
  intros Hclean Ha Hp Hd [f Hf] Hsec. cbn zeta.
  destruct (clean_invariants s Hclean) as [Htimer Hturn].
  pose proof Htimer as [(_ & Hnd & _ & _) _].
  destruct Hturn as (_ & _ & Hturn). destruct (Hturn Ha) as (_ & H2 & H3 & _ & _).
  destruct (foreground_cancel_only h _ s Hp eq_refl eq_refl H2) as [Hfg Hfg'].
  assert (Hld : pendingLoads s = 0%nat) by (destruct H3 as [H3|?]; [by rewrite Hfg in H3|done]).
  assert (Hfire : step (Fire h) s = onRevealOver cs (set_tasks (cancel h (tasks s)) s)).
  { cbn [step]. by rewrite (fire_pending h _ d s Hnd Hp Hd). }
  destruct (reveal_over_fields cs (set_tasks (cancel h (tasks s)) s))
    as (G1 & G2 & G3 & G4 & G5 & G6 & G7 & G8 & G9).
  cbn [firstCard secondCard clicks pairsMatched tasks activations messages gameActive set_tasks]
    in G1, G2, G3, G4, G5, G6, G7, G8, G9.
  rewrite Hf, Hsec in G9.
  assert (Hfg1 : foreground (step (Fire h) s) = []).
  { rewrite Hfire. by rewrite (foreground_tasks (set_tasks (cancel h (tasks s)) s)) by exact G5. }
  assert (Hld1 : pendingLoads (step (Fire h) s) = 0%nat).
  { rewrite Hfire. by rewrite (pendingLoads_activations s) by exact G6. }
  assert (Hlock1 : lockBoard (step (Fire h) s) = true) by by rewrite Hfire.
  split_and!; [by rewrite Hfire, G8|done|done|done|by rewrite Hfire, G1|].
  intros tr Htr.
  destruct (stuck_run tr (step (Fire h) s) Htr) as (R1 & R2 & R3 & R4 & R5 & R6);
    [by apply TimerInv_step|done..|].
  split; [exact R1|]. split; [rewrite R2, Hfire; exact G3|].
  split; [rewrite R3, Hfire; exact G4|].
  split; [rewrite R4; unfold wins; apply signals_messages; rewrite Hfire; exact G7|].
  split; [rewrite R5, Hfire; exact G1|].
  intros c. cbn [step]. case_bool_decide; [|done]. by apply handleCardClick_locked.
Qed.

(** ** Lazy loading *)

Lemma keepsRequests_refl d : keepsRequests d d.
Proof. done. Qed.

Lemma keepsRequests_trans d1 d2 d3 :
  keepsRequests d1 d2 → keepsRequests d2 d3 → keepsRequests d1 d3.
Proof. intros [H1 H2] [H3 H4]. split; auto. Qed.

(** A change of one element that keeps its request and leaves it in
    order. *)
Lemma images_alter (f : card → card) c d :
  (∀ cd, d !! c = Some cd → imageOK cd → imageOK (f cd)) →
  (∀ cd, imageRequested cd → imageRequested (f cd)) →
  Forall imageOK d → Forall imageOK (alter f c d) ∧ keepsRequests d (alter f c d).
Proof.
  intros Hok Hreq Hd. split; [|split].
  - apply Forall_alter; [done|]. intros cd Hcd Hcdok. by apply Hok.
  - intros i [cd Hi]. destruct (decide (c = i)) as [->|Hne].
    + rewrite list_lookup_alter_eq, Hi. by eexists.
    + rewrite list_lookup_alter_ne by done. by eexists.
  - intros i (cd & Hi & Hr). destruct (decide (c = i)) as [->|Hne].
    + exists (f cd). rewrite list_lookup_alter_eq, Hi. split; [done|by apply Hreq].
    + exists cd. by rewrite list_lookup_alter_ne.
Qed.

Lemma imageOK_removeClass_flipped cd : imageOK cd → imageOK (removeClass_flipped cd).
Proof.
  intros (H1 & H2 & H3). split_and!; [done|done|]. cbn. intros [?|Hm]; [done|]. apply H3. auto.
Qed.

Lemma imageOK_attr_src cd : imageOK cd → imageOK (attr_src cd).
Proof. intros (H1 & H2 & H3). split_and!; [done|by right|done]. Qed.

Lemma imageOK_lazy cd : imageOK cd → imageOK (if needsLoad cd then attr_src cd else cd).
Proof. intros H. case_match; [by apply imageOK_attr_src|done]. Qed.

Lemma imageRequested_lazy cd :
  imageOK cd → imageRequested (if needsLoad cd then attr_src cd else cd).
Proof.
  intros (H1 & H2 & H3). unfold needsLoad. rewrite H1, andb_true_r.
  destruct H2 as [H2|H2]; [rewrite H2; reflexivity|].
  unfold imageRequested in *. rewrite H2. cbn. by rewrite H1.
Qed.

Lemma imageOK_endFlip cd : imageOK cd → imageOK (if matched cd then addClass_flipped cd else cd).
Proof.
  intros H. case_match eqn:Hm; [|exact H]. destruct H as (H1 & H2 & H3).
  split_and!; [done|done|]. intros _. apply H3. auto.
Qed.

Lemma imageOK_addClass_flipped cd :
  imageOK cd → imageRequested cd → imageOK (addClass_flipped cd).
Proof. intros (H1 & H2 & H3) Hr. split_and!; done. Qed.

Lemma imageOK_addClass_matched cd :
  imageOK cd → imageRequested cd → imageOK (addClass_matched cd).
Proof. intros (H1 & H2 & H3) Hr. split_and!; done. Qed.

Lemma requestedAt_lookup d c cd : requestedAt d c → d !! c = Some cd → imageRequested cd.
Proof. intros (cd' & Hc & Hr) Hcd. by simplify_eq. Qed.

(** Showing the face of a card, or marking it as matched, when its image
    has been requested. *)
Lemma images_show (f : card → card) c d :
  (∀ cd, imageOK cd → imageRequested cd → imageOK (f cd)) →
  (∀ cd, imageRequested cd → imageRequested (f cd)) →
  requestedAt d c →
  Forall imageOK d → Forall imageOK (alter f c d) ∧ keepsRequests d (alter f c d).
Proof.
  intros Hok Hreq Hc Hd. apply images_alter; [|done..].
  intros cd Hcd Hcdok. apply Hok; [done|]. by eapply requestedAt_lookup.
Qed.

Lemma images_show_all (f : card → card) cs d :
  (∀ cd, imageOK cd → imageRequested cd → imageOK (f cd)) →
  (∀ cd, imageRequested cd → imageRequested (f cd)) →
  (∀ c, c ∈ cs → requestedAt d c) →
  Forall imageOK d →
  Forall imageOK (foldl (λ d c, alter f c d) d cs) ∧
  keepsRequests d (foldl (λ d c, alter f c d) d cs).
Proof.
  intros Hok Hreq. revert d. induction cs as [|c cs IH]; intros d Hcs Hd; [done|].
  cbn [foldl]. destruct (images_show f c d Hok Hreq) as [Hd' Hk]; [apply Hcs; left|done|].
  destruct (IH (alter f c d)) as [Hd'' Hk']; [|done|].
  { intros i Hi. apply Hk, Hcs. by right. }
  split; [done|]. by eapply keepsRequests_trans.
Qed.

Lemma images_alter_all (f : card → card) cs d :
  (∀ cd, imageOK cd → imageOK (f cd)) →
  (∀ cd, imageRequested cd → imageRequested (f cd)) →
  Forall imageOK d →
  Forall imageOK (foldl (λ d c, alter f c d) d cs) ∧
  keepsRequests d (foldl (λ d c, alter f c d) d cs).
Proof.
  intros Hok Hreq. revert d. induction cs as [|c cs IH]; intros d Hd; [done|].
  cbn [foldl]. destruct (images_alter f c d) as [Hd' Hk]; [by auto|done..|].
  destruct (IH (alter f c d) Hd') as [Hd'' Hk'].
  split; [done|]. by eapply keepsRequests_trans.
Qed.

Lemma images_conceal first cs d :
  Forall imageOK d →
  Forall imageOK (foldl (λ d c, concealDom first c d) d cs) ∧
  keepsRequests d (foldl (λ d c, concealDom first c d) d cs).
Proof.
  revert d. induction cs as [|c cs IH]; intros d Hd; [done|]. cbn [foldl].
  assert (Hstep : Forall imageOK (concealDom first c d) ∧ keepsRequests d (concealDom first c d)).
  { unfold concealDom. case_match; [done|].
    apply images_alter; [intros; by apply imageOK_removeClass_flipped|done..]. }
  destruct Hstep as [Hd' Hk]. destruct (IH _ Hd') as [Hd'' Hk'].
  split; [done|]. by eapply keepsRequests_trans.
Qed.

(** Once a card is selected its image is requested. *)
Lemma images_selected c s :
  Forall imageOK (dom s) → is_Some (dom s !! c) →
  Forall imageOK (dom (selected c s)) ∧ keepsRequests (dom s) (dom (selected c s)) ∧
  requestedAt (dom (selected c s)) c.
Proof.
  intros Hd [cd Hcd]. unfold selected. cbn [dom onCard set_dom set_clicks].
  destruct (images_alter (λ cd, if needsLoad cd then attr_src cd else cd) c (dom s))
    as [Hd1 Hk1]; [intros; by apply imageOK_lazy|by intros ? ?; case_match|done|].
  assert (Hreq : requestedAt (alter (λ cd, if needsLoad cd then attr_src cd else cd) c (dom s)) c).
  { eexists. rewrite list_lookup_alter_eq, Hcd. split; [done|].
    apply imageRequested_lazy. exact (Forall_lookup_1 _ _ _ _ Hd Hcd). }
  destruct (images_show addClass_flipped c _ imageOK_addClass_flipped (λ _ H, H) Hreq Hd1)
    as [Hd2 Hk2].
  split; [done|]. split; [by eapply keepsRequests_trans|]. by apply Hk2.
Qed.

Lemma imagesOK_frame s s' :
  Forall imageOK (dom s') → keepsRequests (dom s) (dom s') →
  grid s' = grid s →
  (firstCard s' = firstCard s ∨ firstCard s' = None) →
  (secondCard s' = secondCard s ∨ secondCard s' = None) →
  activations s' = activations s →
  imagesOK s → imagesOK s'.
Proof.
  intros Hd [Hk1 Hk2] Hg Hf Hsec Ha (_ & H2 & H3 & H4 & H5). split_and!; [done|..].
  - intros c Hc. rewrite Hg in Hc. auto.
  - intros f Hf'. apply Hk2, H3. destruct Hf as [<-|Hn]; [done|by rewrite Hn in Hf'].
  - intros g Hg'. apply Hk2, H4. destruct Hsec as [<-|Hn]; [done|by rewrite Hn in Hg'].
  - intros a c Ha' Hc. rewrite Ha in Ha'. eauto.
Qed.

Lemma endGame_held b s :
  firstCard (endGame b s) = firstCard s ∧ secondCard (endGame b s) = secondCard s ∧
  activations (endGame b s) = activations s ∧ grid (endGame b s) = grid s ∧
  (dom (endGame b s) = dom s ∨
   dom (endGame b s)
     = foldl (λ d c, alter (λ cd, if matched cd then addClass_flipped cd else cd) c d)
         (dom s) (grid s)).
Proof.
  unfold endGame. repeat case_match; rewrite ?onCards_dom; split_and!; auto.
Qed.

Lemma imagesOK_endGame b s : imagesOK s → imagesOK (endGame b s).
Proof.
  intros Hinv. pose proof Hinv as (Hd & _).
  destruct (endGame_held b s) as (Hf & Hg & Ha & Hgrid & Hdom).
  destruct (images_alter_all (λ cd, if matched cd then addClass_flipped cd else cd)
              (grid s) (dom s)) as [Hd' Hk];
    [apply imageOK_endFlip|by intros ? ?; case_match|done|].
  eapply (imagesOK_frame s); [| |exact Hgrid|by left|by left|exact Ha|exact Hinv].
  - destruct Hdom as [-> | ->]; done.
  - destruct Hdom as [-> | ->]; [apply keepsRequests_refl|done].
Qed.

Lemma imagesOK_handleCardClick c s :
  c ∈ grid s → imagesOK s → imagesOK (handleCardClick c s).
Proof.
  intros Hc Hinv. pose proof Hinv as (Hd & Hgrid & Hfirst & Hsecond & Hacts).
  destruct (images_selected c s Hd (Hgrid c Hc)) as (Hd1 & Hk1 & Hreq).
  destruct (handleCardClick_cases c s)
    as [(_ & _ & ->)|[(_ & _ & _ & ->)|[(f & _ & _ & _ & _ & ->)|(f & _ & _ & Hf & _ & ->)]]].
  - done.
  - destruct Hk1 as [Hk1 Hk2]. split_and!; [done|..].
    + intros i Hi. apply Hk1, Hgrid, Hi.
    + intros f [= <-]. exact Hreq.
    + intros g Hg. apply Hk2, Hsecond, Hg.
    + intros a i Ha Hi. eapply Hk2, Hacts; done.
  - destruct (images_alter removeClass_flipped c (dom (selected c s)))
      as [Hd2 Hk2]; [intros; by apply imageOK_removeClass_flipped|done..|].
    eapply (imagesOK_frame s); [exact Hd2| |done|by left|by left|done|exact Hinv].
    by eapply keepsRequests_trans.
  - unfold checkForMatch. rewrite (isMatch_second _ _ _ Hf).
    assert (Hf' : firstCard (selected c s) = Some f) by done.
    case_bool_decide.
    + unfold processMatch, resetTurnAfterDelay. cbn -[selected]. rewrite Hf'. cbn -[selected].
      assert (Hreqf : requestedAt (dom (selected c s)) f) by (apply Hk1, Hfirst, Hf).
      destruct (images_show addClass_matched f _ imageOK_addClass_matched (λ _ H, H) Hreqf Hd1)
        as [Hd2 Hk2].
      destruct (images_show addClass_matched c _ imageOK_addClass_matched (λ _ H, H)
                  (proj2 Hk2 _ Hreq) Hd2) as [Hd3 Hk3].
      pose proof (keepsRequests_trans _ _ _ Hk1 (keepsRequests_trans _ _ _ Hk2 Hk3)) as [Hk4 Hk5].
      split_and!; [done|..].
      * intros i Hi. apply Hk4, Hgrid, Hi.
      * intros f' Hf''. apply Hk5, Hfirst. exact Hf''.
      * intros g [= <-]. apply Hk3, Hk2, Hreq.
      * intros a i Ha Hi. eapply Hk5, Hacts; done.
    + unfold processMismatch. destruct Hk1 as [Hk1 Hk2]. split_and!; [done|..].
      * intros i Hi. apply Hk1, Hgrid, Hi.
      * intros f' Hf''. apply Hk2, Hfirst. exact Hf''.
      * intros g [= <-]. exact Hreq.
      * intros a i Ha Hi. eapply Hk2, Hacts; done.
Qed.

Lemma imagesOK_executePowerUpReveal cs s :
  (∀ c, c ∈ cs → requestedAt (dom s) c) →
  imagesOK s → imagesOK (executePowerUpReveal cs s).
Proof.
  intros Hcs Hinv. pose proof Hinv as (Hd & _).
  destruct (images_show_all addClass_flipped cs (dom s) imageOK_addClass_flipped (λ _ H, H)
              Hcs Hd) as [Hd' Hk].
  unfold executePowerUpReveal. rewrite onCards_dom.
  eapply (imagesOK_frame s); [exact Hd'|exact Hk|done|by left|by left|done|exact Hinv].
Qed.

(** The loop of the power-up handler requests the image of every card it
    goes through. *)
Lemma images_prepare cs n s :
  Forall imageOK (dom s) →
  Forall imageOK (dom (foldl (λ acc c, prepareCard c acc) (n, s) cs).2) ∧
  keepsRequests (dom s) (dom (foldl (λ acc c, prepareCard c acc) (n, s) cs).2) ∧
  ∀ c, c ∈ cs → is_Some (dom s !! c) →
       requestedAt (dom (foldl (λ acc c, prepareCard c acc) (n, s) cs).2) c.
Proof.
  revert n s. induction cs as [|c cs IH]; intros n s Hd.
  { split; [done|]. split; [done|]. by intros c ?%elem_of_nil. }
  cbn [foldl].
  assert (Hstep : Forall imageOK (dom (prepareCard c (n, s)).2) ∧
                  keepsRequests (dom s) (dom (prepareCard c (n, s)).2) ∧
                  (is_Some (dom s !! c) → requestedAt (dom (prepareCard c (n, s)).2) c)).
  { unfold prepareCard. cbn [fst snd]. destruct (dom s !! c) as [cd|] eqn:Hcd.
    2: { split; [done|]. split; [done|]. by intros [? ?]. }
    pose proof (Forall_lookup_1 _ _ _ _ Hd Hcd) as Hcdok.
    change (default false (needsLoad <$> Some cd)) with (needsLoad cd).
    destruct (needsLoad cd) eqn:Hn; cbn [snd].
    - destruct (images_alter attr_src c (dom s)) as [Hd' Hk];
        [intros; by apply imageOK_attr_src|done..|].
      split; [done|]. split; [done|]. intros _. exists (attr_src cd).
      cbn [snd dom onCard set_dom]. rewrite list_lookup_alter_eq, Hcd. done.
    - split; [done|]. split; [done|]. intros _. exists cd. split; [done|].
      pose proof (imageRequested_lazy cd Hcdok) as Hr. by rewrite Hn in Hr. }
  destruct Hstep as (Hd1 & Hk1 & Hreq1).
  destruct (prepareCard c (n, s)) as [n' s']. cbn [snd] in *.
  destruct (IH n' s' Hd1) as (Hd2 & Hk2 & Hreq2).
  split; [done|]. split; [by eapply keepsRequests_trans|].
  intros i [->|Hi]%elem_of_cons His.
  - apply Hk2. by apply Hreq1.
  - apply Hreq2; [done|]. by apply Hk1.
Qed.

Lemma imagesOK_powerUpClick s : imagesOK s → imagesOK (powerUpClick s).
Proof.
  intros Hinv. pose proof Hinv as (Hd & Hgrid & Hfirst & Hsecond & Hacts).
  rewrite powerUpClick_eq. case_match; [done|]. cbn zeta.
  destruct (images_prepare (unmatchedCards s) O (armed s) Hd) as (Hd1 & Hk1 & Hreq).
  fold (prepared s) in Hd1, Hk1, Hreq.
  assert (Hcards : ∀ c, c ∈ unmatchedCards s → requestedAt (dom (prepared s).2) c).
  { intros c Hc. apply Hreq; [done|]. apply Hgrid.
    unfold unmatchedCards in Hc. by apply list_elem_of_filter in Hc as [_ ?]. }
  set (s1 := set_activations _ _).
  assert (Hinv1 : imagesOK s1).
  { subst s1. destruct Hk1 as [Hk1 Hk2]. split_and!; [done|..].
    - intros c Hc. cbn in Hc. rewrite prepared_frame in Hc. apply Hk1, Hgrid, Hc.
    - intros f Hf. cbn in Hf. rewrite prepared_frame in Hf. apply Hk2, Hfirst, Hf.
    - intros g Hg. cbn in Hg. rewrite prepared_frame in Hg. apply Hk2, Hsecond, Hg.
    - intros a c Ha Hc. cbn in Ha. apply elem_of_app in Ha as [Ha|Ha%list_elem_of_singleton].
      + rewrite prepared_frame in Ha. eapply Hk2, Hacts; done.
      + subst a. by apply Hcards. }
  case_match; [|done]. by apply imagesOK_executePowerUpReveal.
Qed.

Lemma imagesOK_onImageSettled k s : imagesOK s → imagesOK (onImageSettled k s).
Proof.
  intros Hinv. pose proof Hinv as (Hd & Hgrid & Hfirst & Hsecond & Hacts).
  unfold onImageSettled. destruct (activations s !! k) as [a|] eqn:Hk; [|done].
  destruct (imagesToLoad a) as [|n]; [done|].
  set (s1 := set_activations _ s).
  assert (Hinv1 : imagesOK s1).
  { subst s1. split_and!; [done..|].
    intros a' c Ha' Hc. cbn in Ha'.
    apply list_elem_of_lookup in Ha' as [i Hi].
    destruct (decide (i = k)) as [->|Hne].
    - rewrite list_lookup_insert_eq in Hi by by eapply lookup_lt_Some.
      injection Hi as <-. eapply Hacts; [by eapply list_elem_of_lookup_2|done].
    - rewrite list_lookup_insert_ne in Hi by done.
      eapply Hacts; [by eapply list_elem_of_lookup_2|done]. }
  case_match; [|done]. apply imagesOK_executePowerUpReveal; [|done].
  intros c Hc. eapply Hacts; [by eapply list_elem_of_lookup_2|done].
Qed.

Lemma imagesOK_tasks s ts : imagesOK s → imagesOK (set_tasks ts s).
Proof. done. Qed.

Lemma imagesOK_fire h s : imagesOK s → imagesOK (fire h s).
Proof.
  intros Hinv. unfold fire. destruct (find _ _) as [t|]; [|done]. case_match; [|done].
  destruct (code t).
  - unfold onTimer. cbn zeta. case_match; [|done]. by apply imagesOK_endGame.
  - pose proof (imagesOK_tasks s (cancel h (tasks s)) Hinv) as Hinv1.
    revert Hinv1. generalize (set_tasks (cancel h (tasks s)) s). clear Hinv. intros s1 Hinv.
    pose proof Hinv as (Hd & Hgrid & Hfirst & Hsecond & Hacts).
    unfold onMismatchShown, resetTurnAfterDelay.
    set (s2 := match firstCard s1 with Some f => onCard removeClass_flipped f s1 | None => s1 end).
    assert (Hinv2 : imagesOK s2 ∧ secondCard s2 = secondCard s1).
    { subst s2. destruct (firstCard s1) as [f|]; [|done]. split; [|done].
      destruct (images_alter removeClass_flipped f (dom s1))
        as [Hd2 Hk2]; [intros; by apply imageOK_removeClass_flipped|done..|].
      eapply (imagesOK_frame s1); [exact Hd2|exact Hk2|done|by left|by left|done|exact Hinv]. }
    destruct Hinv2 as [Hinv2 Hsec]. clearbody s2.
    set (s3 := match secondCard s2 with Some g => onCard removeClass_flipped g s2 | None => s2 end).
    assert (Hinv3 : imagesOK s3).
    { subst s3. destruct (secondCard s2) as [g|]; [|done].
      destruct (images_alter removeClass_flipped g (dom s2))
        as [Hd3 Hk3]; [intros; by apply imageOK_removeClass_flipped|done|apply Hinv2|].
      eapply (imagesOK_frame s2); [exact Hd3|exact Hk3|done|by left|by left|done|exact Hinv2]. }
    done.
  - unfold onResetTurn. cbn zeta.
    assert (Hinv1 : imagesOK (set_lockBoard false (set_secondCard None (set_firstCard None
                      (set_tasks (cancel h (tasks s)) s))))).
    { destruct Hinv as (Hd & Hgrid & Hfirst & Hsecond & Hacts). split_and!; done. }
    case_match; [|done]. by apply imagesOK_endGame.
  - done.
  - done.
  - unfold onRevealOver. cbn zeta. rewrite foldl_concealOne_dom.
    pose proof Hinv as (Hd & _).
    destruct (images_conceal (firstCard s) cardsArray (dom s) Hd) as [Hd' Hk].
    eapply (imagesOK_frame s); [exact Hd'|exact Hk|done|by left|by left|done|exact Hinv].
Qed.

Lemma imageOK_cardElement data cd : cardElement data = Some cd → imageOK cd.
Proof.
  unfold cardElement. case_match eqn:Hc; [done|]. intros [= <-].
  apply orb_false_elim in Hc as [Hi%negb_false_iff _].
  split_and!; [done|by left|]. cbn. by intros [?|?].
Qed.

Lemma imagesOK_dealCards o sel s : imagesOK s → imagesOK (dealCards o sel s).
Proof.
  intros Hinv. pose proof Hinv as (Hd & Hgrid & Hfirst & Hsecond & Hacts).
  unfold dealCards. destruct sel as [|p sel]; [by case_match|].
  destruct (buildCardsData (p :: sel)) as [|data0 datas]; [done|]. cbn zeta.
  set (elements := omap cardElement (dealt o)).
  assert (Hk : keepsRequests (dom s) (dom s ++ elements)).
  { split.
    - intros i [cd Hc]. exists cd. by apply lookup_app_l_Some.
    - intros i (cd & Hc & Hr). exists cd. split; [|done]. by apply lookup_app_l_Some. }
  assert (Hel : Forall imageOK (dom s ++ elements)).
  { apply Forall_app. split; [done|]. apply Forall_forall. intros cd Hcd.
    apply list_elem_of_omap in Hcd as (data & _ & Hdata). by eapply imageOK_cardElement. }
  assert (Hgrid' : ∀ c, c ∈ seq (length (dom s)) (length elements) →
                        is_Some ((dom s ++ elements) !! c)).
  { intros i Hc. destruct (lookup_seq_app _ _ _ Hc) as (cd & Hcd & _). by eexists. }
  destruct Hk as [Hk1 Hk2].
  cbn [grid set_grid set_dom]. case_match eqn:Hg.
  - split_and!; [done|..]; cbn.
    + by intros i ?%elem_of_nil.
    + intros f Hf. apply Hk2, Hfirst, Hf.
    + intros g Hg'. apply Hk2, Hsecond, Hg'.
    + intros a i Ha Hc. eapply Hk2, Hacts; done.
  - split_and!; [done|..]; cbn.
    + exact Hgrid'.
    + intros f Hf. apply Hk2, Hfirst, Hf.
    + intros g Hg'. apply Hk2, Hsecond, Hg'.
    + intros a i Ha Hc. eapply Hk2, Hacts; done.
Qed.

Lemma imagesOK_reset s S :
  dom S = dom s → grid S = [] → firstCard S = None → secondCard S = None →
  activations S = activations s → imagesOK s → imagesOK S.
Proof.
  intros Hd Hg Hf Hsec Ha (H1 & H2 & H3 & H4 & H5). unfold imagesOK.
  rewrite Hd, Hg, Hf, Hsec, Ha. split_and!; [done| |done|done|done].
  by intros c ?%elem_of_nil.
Qed.

Lemma imagesOK_initializeGame o s : imagesOK s → imagesOK (initializeGame o s).
Proof.
  intros Hinv. rewrite initializeGame_eq. apply imagesOK_dealCards.
  destruct (select_frame o (numPairs (resetForNewGame s)) (resetForNewGame s))
    as (_ & _ & _ & _ & _ & Hg & Hd & _ & _ & _ & _ & _ & _ & _ & Hf & Hsec & _ & _ & _ & Ha).
  by apply (imagesOK_reset s).
Qed.

Lemma imagesOK_step e s : imagesOK s → imagesOK (step e s).
Proof.
  intros Hinv. destruct e as [o|c| |k|d| |h]; simpl.
  - by apply imagesOK_initializeGame.
  - case_bool_decide; [by apply imagesOK_handleCardClick|done].
  - by apply imagesOK_powerUpClick.
  - by apply imagesOK_onImageSettled.
  - unfold difficultyChange. by case_match.
  - done.
  - by apply imagesOK_fire.
Qed.

Lemma imagesOK_pageLoaded r : imagesOK (pageLoaded r).
Proof.
  unfold pageLoaded. destruct (fetch_frame r (updateGameConfig
    {| selectVal := medium; currentDifficulty := medium; numPairs := 0; totalTime := 0;
       firstCard := None; secondCard := None; lockBoard := false; gameActive := false;
       clicks := 0; pairsMatched := 0; timeLeft := 0; timerInterval := None;
       powerUpUsedThisGame := false; allPokemonList := []; dom := []; grid := [];
       powerUpDisabled := true; messages := ["Select mode & Start!"]; alerts := [];
       now := 0; nextHandle := O; tasks := []; activations := [] |})) as [M ->].
  split_and!; cbn; [constructor|by intros c ?%elem_of_nil|done|done|].
  by intros a c ?%elem_of_nil.
Qed.

Lemma imagesOK_reachable s : Reachable s → imagesOK s.
Proof. induction 1; [apply imagesOK_pageLoaded|by apply imagesOK_step]. Qed.

(** ** Matched pairs *)

Lemma sameMatched_refl d : sameMatched d d.
Proof. done. Qed.

Lemma sameMatched_trans d1 d2 d3 : sameMatched d1 d2 → sameMatched d2 d3 → sameMatched d1 d3.
Proof. intros H1 H2 i. by rewrite H2, H1. Qed.

Lemma sameMatched_alter (f : card → card) c d :
  (∀ cd, matched (f cd) = matched cd) → sameMatched d (alter f c d).
Proof. intros Hf i. by apply lookup_alter_class. Qed.

Lemma sameMatched_foldl_alter (f : card → card) cs d :
  (∀ cd, matched (f cd) = matched cd) → sameMatched d (foldl (λ d c, alter f c d) d cs).
Proof.
  intros Hf. revert d. induction cs as [|c cs IH]; intros d; [done|]. cbn [foldl].
  eapply sameMatched_trans; [by apply sameMatched_alter|apply IH].
Qed.

Lemma sameMatched_conceal first cs d :
  sameMatched d (foldl (λ d c, concealDom first c d) d cs).
Proof.
  revert d. induction cs as [|c cs IH]; intros d; [done|]. cbn [foldl].
  eapply sameMatched_trans; [|apply IH]. unfold concealDom. case_match; [done|].
  by apply sameMatched_alter.
Qed.

Lemma sameMatched_prepare cs n s :
  sameMatched (dom s) (dom (foldl (λ acc c, prepareCard c acc) (n, s) cs).2).
Proof.
  revert n s. induction cs as [|c cs IH]; intros n s; cbn [foldl]; [done|].
  unfold prepareCard at 2. cbn [fst snd]. case_match; [|apply IH].
  eapply sameMatched_trans; [|apply IH]. by apply sameMatched_alter.
Qed.

Lemma matched_endFlip cd :
  matched (if matched cd then addClass_flipped cd else cd) = matched cd.
Proof. by case_match. Qed.

Lemma matched_lazy cd : matched (if needsLoad cd then attr_src cd else cd) = matched cd.
Proof. by case_match. Qed.

Lemma sameMatched_endGame b s : sameMatched (dom s) (dom (endGame b s)).
Proof.
  destruct (endGame_held b s) as (_ & _ & _ & _ & [-> | ->]); [done|].
  apply sameMatched_foldl_alter, matched_endFlip.
Qed.

Lemma sameMatched_selected c s : sameMatched (dom s) (dom (selected c s)).
Proof.
  unfold selected. cbn [dom onCard set_dom set_clicks].
  eapply sameMatched_trans; [apply sameMatched_alter, matched_lazy|by apply sameMatched_alter].
Qed.

Lemma sameMatched_executePowerUpReveal cs s :
  sameMatched (dom s) (dom (executePowerUpReveal cs s)).
Proof.
  unfold executePowerUpReveal. rewrite onCards_dom. by apply sameMatched_foldl_alter.
Qed.

Lemma sameMatched_powerUpClick s : sameMatched (dom s) (dom (powerUpClick s)).
Proof.
  rewrite powerUpClick_eq. case_match; [done|]. cbn zeta.
  pose proof (sameMatched_prepare (unmatchedCards s) O (armed s)) as Hp. fold (prepared s) in Hp.
  case_match; [|exact Hp]. eapply sameMatched_trans; [exact Hp|].
  apply (sameMatched_executePowerUpReveal _ (set_activations _ _)).
Qed.

Lemma sameMatched_onImageSettled k s : sameMatched (dom s) (dom (onImageSettled k s)).
Proof.
  unfold onImageSettled. repeat case_match; try done.
  apply (sameMatched_executePowerUpReveal _ (set_activations _ s)).
Qed.

Lemma sameMatched_onMismatchShown s : sameMatched (dom s) (dom (onMismatchShown s)).
Proof.
  unfold onMismatchShown, resetTurnAfterDelay. cbn [dom schedule set_nextHandle set_tasks].
  destruct (firstCard s) as [f|].
  - set (s1 := onCard removeClass_flipped f s).
    assert (H1 : sameMatched (dom s) (dom s1)) by by apply sameMatched_alter.
    destruct (secondCard s1) as [g|]; [|done].
    eapply sameMatched_trans; [exact H1|by apply sameMatched_alter].
  - destruct (secondCard s) as [g|]; [|done]. by apply sameMatched_alter.
Qed.

Lemma sameMatched_fire h s : sameMatched (dom s) (dom (fire h s)).
Proof.
  unfold fire. destruct (find _ _) as [t|]; [|done]. case_match; [|done].
  destruct (code t).
  - unfold onTimer. cbn zeta. case_match; [|done].
    apply (sameMatched_endGame false (set_timeLeft _ (set_tasks _ s))).
  - apply (sameMatched_onMismatchShown (set_tasks _ s)).
  - unfold onResetTurn. cbn zeta. case_match; [|done].
    apply (sameMatched_endGame true
      (set_lockBoard false (set_secondCard None (set_firstCard None (set_tasks _ s))))).
  - done.
  - done.
  - unfold onRevealOver. cbn zeta. rewrite foldl_concealOne_dom.
    apply sameMatched_conceal.
Qed.

Lemma hasClass_matched_same s s' c :
  sameMatched (dom s) (dom s') → hasClass_matched s' c = hasClass_matched s c.
Proof. intros H. unfold hasClass_matched. by rewrite H. Qed.

Lemma matchedOnBoard_same s s' :
  grid s' = grid s → sameMatched (dom s) (dom s') → matchedOnBoard s' = matchedOnBoard s.
Proof.
  intros Hg Hm. unfold matchedOnBoard. rewrite Hg. apply list_filter_iff.
  intros c. by rewrite (hasClass_matched_same s s').
Qed.

(** Nothing but a matching second card changes what is matched, what is
    selected stays unmatched, and no reset of the turn appears or is lost. *)
Lemma pairsOK_same s s' :
  grid s' = grid s → sameMatched (dom s) (dom s') → pairsMatched s' = pairsMatched s →
  (resetPending s → resetPending s') →
  (¬ resetPending s' →
     (∀ f, firstCard s' = Some f → firstCard s = Some f ∨ hasClass_matched s f = false) ∧
     (∀ g, secondCard s' = Some g → secondCard s = Some g ∨ hasClass_matched s g = false)) →
  pairsOK s → pairsOK s'.
Proof.
  intros Hg Hm Hp Hr Hsel (H1 & H2 & H3). split_and!.
  - by rewrite Hg.
  - by rewrite Hp, (matchedOnBoard_same s s').
  - intros Hnr. destruct (Hsel Hnr) as [Hf Hs]. destruct H3 as [H3 H4]; [by auto|].
    split.
    + intros f Hf'. rewrite (hasClass_matched_same s s') by done.
      destruct (Hf f Hf'); auto.
    + intros g Hg'. rewrite (hasClass_matched_same s s') by done.
      destruct (Hs g Hg'); auto.
Qed.

Lemma resetPending_tasks s s' : tasks s' = tasks s → resetPending s → resetPending s'.
Proof. intros Ht (t & Hin & Hc). exists t. by rewrite Ht. Qed.

Lemma resetPending_schedule f d s : resetPending s → resetPending (schedule f d s).
Proof.
  intros (t & Hin & Hc). exists t. split; [|done]. unfold schedule.
  cbn [tasks set_nextHandle set_tasks]. apply elem_of_app. by left.
Qed.

Lemma resetPending_scheduled d s : resetPending (schedule cbResetTurnAfterDelay d s).
Proof.
  exists {| handle := nextHandle s; due := now s + d; code := cbResetTurnAfterDelay |}.
  split; [|reflexivity]. unfold schedule. cbn [tasks set_nextHandle set_tasks].
  apply elem_of_app. right. left.
Qed.

Lemma resetPending_cancel h t s :
  NoDup (handle <$> tasks s) → t ∈ tasks s → handle t = h → code t ≠ cbResetTurnAfterDelay →
  resetPending s → resetPending (set_tasks (cancel h (tasks s)) s).
Proof.
  intros Hnd Ht Hh Hcode (t' & Hin & Hc). exists t'. split; [|done].
  cbn [tasks set_tasks]. apply elem_of_cancel. split; [|done]. intros Heq.
  apply Hcode. rewrite <-Hc. f_equal. apply (NoDup_fmap_elem_inj handle (tasks s)); try done.
  by rewrite Hh.
Qed.

Lemma resetPending_rearm h d s :
  resetPending s → resetPending (set_tasks (rearm h d (tasks s)) s) ∨
  ∃ t, t ∈ tasks s ∧ handle t = h ∧ code t = cbResetTurnAfterDelay.
Proof.
  intros (t & Hin & Hc). destruct (decide (handle t = h)) as [Hh|Hne].
  - right. eauto.
  - left. exists t. split; [|done]. cbn [tasks set_tasks]. unfold rearm.
    apply list_elem_of_In, in_map_iff. exists t. split; [|by apply list_elem_of_In].
    by rewrite (proj2 (Nat.eqb_neq _ _)).
Qed.

Lemma resetPending_clearInterval s :
  tasksOK (tasks s) (nextHandle s) (timerInterval s) →
  resetPending s → resetPending (clearInterval s).
Proof.
  intros (_ & _ & _ & Hti) (t & Hin & Hc). exists t. split; [|done].
  unfold clearInterval. cbn [tasks set_tasks]. destruct (timerInterval s) as [h|] eqn:Hh; [|done].
  apply elem_of_cancel. split; [|done]. intros Heq.
  assert (code t = cbStartTimer) as Hc'; [|by rewrite Hc in Hc'].
  apply Hti; [done|]. by rewrite Heq.
Qed.

Lemma resetPending_endGame b s :
  tasksOK (tasks s) (nextHandle s) (timerInterval s) →
  resetPending s → resetPending (endGame b s).
Proof.
  intros Hok Hr. destruct (gameActive s) eqn:Ha; [|by rewrite endGame_inactive].
  rewrite endGame_active by done. cbn zeta. rewrite onCards_dom.
  pose proof (resetPending_clearInterval (set_gameActive false s) Hok Hr) as Hr1.
  repeat case_match; try apply resetPending_schedule; by eapply resetPending_tasks.
Qed.

Lemma held_endGame b s :
  firstCard (endGame b s) = firstCard s ∧ secondCard (endGame b s) = secondCard s ∧
  pairsMatched (endGame b s) = pairsMatched s ∧ grid (endGame b s) = grid s.
Proof. unfold endGame. repeat case_match; rewrite ?onCards_dom; done. Qed.

Lemma held_powerUpClick s :
  firstCard (powerUpClick s) = firstCard s ∧ secondCard (powerUpClick s) = secondCard s ∧
  pairsMatched (powerUpClick s) = pairsMatched s ∧ grid (powerUpClick s) = grid s ∧
  (resetPending s → resetPending (powerUpClick s)).
Proof.
  rewrite powerUpClick_eq. case_match; [done|]. cbn zeta.
  unfold executePowerUpReveal. case_match; rewrite ?onCards_dom.
  - split_and!; try (cbn; by rewrite prepared_frame).
    all: intros Hr; apply resetPending_schedule; eapply resetPending_tasks; [|exact Hr].
    all: cbn; by rewrite prepared_frame.
  - split_and!; try (cbn; by rewrite prepared_frame).
    all: intros Hr; eapply resetPending_tasks; [|exact Hr]; cbn; by rewrite prepared_frame.
Qed.

Lemma held_onImageSettled k s :
  firstCard (onImageSettled k s) = firstCard s ∧
  secondCard (onImageSettled k s) = secondCard s ∧
  pairsMatched (onImageSettled k s) = pairsMatched s ∧ grid (onImageSettled k s) = grid s ∧
  (resetPending s → resetPending (onImageSettled k s)).
Proof.
  unfold onImageSettled, executePowerUpReveal. repeat case_match; rewrite ?onCards_dom; try done.
  split_and!; try done.
  all: intros Hr; apply resetPending_schedule; eapply resetPending_tasks; [|exact Hr]; done.
Qed.

Lemma filter_iff_in {A} (P Q : A → Prop) `{∀ x, Decision (P x)} `{∀ x, Decision (Q x)}
    (l : list A) :
  (∀ x, x ∈ l → P x ↔ Q x) → filter P l = filter Q l.
Proof.
  induction l as [|x l IH]; intros Hl; [done|].
  rewrite !filter_cons. rewrite IH by (intros y Hy; apply Hl; by right).
  destruct (Hl x) as [H1 H2]; [left|]. repeat case_decide; try done; tauto.
Qed.

(** Marking one more card of the board as matched. *)
Lemma matched_one_more (g : list nat) c (d : list card) cd :
  NoDup g → c ∈ g → d !! c = Some cd → matched cd = false →
  length (filter (λ i, default false (matched <$> alter addClass_matched c d !! i) = true) g)
  = S (length (filter (λ i, default false (matched <$> d !! i) = true) g)).
Proof.
  intros Hnd Hc Hcd Hm. induction g as [|x g IH]; [by apply elem_of_nil in Hc|].
  apply NoDup_cons in Hnd as [Hx Hnd]. rewrite !filter_cons.
  apply elem_of_cons in Hc as [<-|Hc].
  - rewrite list_lookup_alter_eq, Hcd.
    cbn [fmap option_fmap option_map default addClass_matched matched].
    rewrite Hm. rewrite decide_True by done. rewrite decide_False by done.
    cbn [length]. f_equal. f_equal. apply filter_iff_in. intros i Hi.
    assert (c ≠ i) by (intros ->; done). by rewrite list_lookup_alter_ne.
  - assert (x ≠ c) by (intros ->; done).
    rewrite list_lookup_alter_ne by done.
    specialize (IH Hnd Hc). case_decide; cbn [length]; by rewrite IH.
Qed.

(** A handler that leaves the matched cards and the counter alone keeps
    [pairsOK] when it clears the selection or leaves it as it is. *)
Lemma pairsOK_held s s' :
  grid s' = grid s → sameMatched (dom s) (dom s') → pairsMatched s' = pairsMatched s →
  (firstCard s' = None ∧ secondCard s' = None) ∨
  (firstCard s' = firstCard s ∧ secondCard s' = secondCard s ∧
   (resetPending s → resetPending s')) →
  pairsOK s → pairsOK s'.
Proof.
  intros Hg Hm Hp Hsel (H1 & H2 & H3). split_and!.
  - by rewrite Hg.
  - by rewrite Hp, (matchedOnBoard_same s s').
  - intros Hnr. destruct Hsel as [[-> ->]|(-> & -> & Hr)]; [done|].
    destruct H3 as [H3 H4]; [by auto|].
    split; intros f Hf; rewrite (hasClass_matched_same s s') by done; auto.
Qed.

Lemma resetPending_cancel_other h t s :
  TimerInv s → t ∈ tasks s → handle t = h → code t ≠ cbResetTurnAfterDelay →
  resetPending s → resetPending (set_tasks (cancel h (tasks s)) s).
Proof. intros [(_ & Hnd & _) _]. by apply resetPending_cancel. Qed.

Lemma held_fire h s :
  TimerInv s →
  grid (fire h s) = grid s ∧ pairsMatched (fire h s) = pairsMatched s ∧
  ((firstCard (fire h s) = None ∧ secondCard (fire h s) = None) ∨
   (firstCard (fire h s) = firstCard s ∧ secondCard (fire h s) = secondCard s ∧
    (resetPending s → resetPending (fire h s)))).
Proof.
  intros Hinv. unfold fire. destruct (find _ _) as [t|] eqn:Hfind; [|by auto 10].
  apply find_Some_handle in Hfind as [Ht Hh]. case_match; [|by auto 10].
  destruct (code t) eqn:Hcode.
  - set (s1 := set_tasks (rearm h (now s + 1000) (tasks s)) s).
    assert (Hr1 : resetPending s → resetPending s1).
    { intros Hr. destruct (resetPending_rearm h (now s + 1000) s Hr) as [|(t' & Ht' & Hh' & Hc')];
        [done|].
      destruct Hinv as [(_ & Hnd & _) _].
      assert (t' = t) as ->; [|by rewrite Hcode in Hc'].
      apply (NoDup_fmap_elem_inj handle (tasks s)); try done. by rewrite Hh, Hh'. }
    assert (Hok1 : tasksOK (tasks (set_timeLeft (timeLeft s1 - 1) s1))
                     (nextHandle s) (timerInterval s)).
    { destruct Hinv as [Hok _]. cbn [tasks set_timeLeft set_tasks s1].
      by eapply tasksOK_rearm. }
    unfold onTimer. cbn zeta. fold s1. case_match.
    + destruct (held_endGame false (set_timeLeft (timeLeft s1 - 1) s1)) as (-> & -> & -> & ->).
      split_and!; [done..|]. right. split_and!; [done..|]. intros Hr.
      apply resetPending_endGame; [exact Hok1|]. by apply Hr1.
    + split_and!; [done..|]. right. split_and!; [done..|]. exact Hr1.
  - unfold onMismatchShown, resetTurnAfterDelay. split_and!.
    + by repeat case_match.
    + by repeat case_match.
    + right. split_and!; [by repeat case_match..|]. intros _. apply resetPending_scheduled.
  - unfold onResetTurn. cbn zeta. case_match.
    + destruct (held_endGame true (set_lockBoard false (set_secondCard None
        (set_firstCard None (set_tasks (cancel h (tasks s)) s))))) as (-> & -> & -> & ->).
      split_and!; [done..|]. by left.
    + split_and!; [done..|]. by left.
  - split_and!; [done..|]. right. split_and!; [done..|].
    apply (resetPending_cancel_other h t); try done. by rewrite Hcode.
  - split_and!; [done..|]. right. split_and!; [done..|].
    apply (resetPending_cancel_other h t); try done. by rewrite Hcode.
  - destruct (reveal_over_fields cardsArray (set_tasks (cancel h (tasks s)) s))
      as (-> & -> & _ & -> & Htasks & _).
    split_and!.
    + unfold onRevealOver. cbn zeta. by rewrite foldl_concealOne_dom.
    + done.
    + right. split_and!; [done..|]. intros Hr.
      eapply (resetPending_tasks (set_tasks (cancel h (tasks s)) s)); [exact Htasks|].
      apply (resetPending_cancel_other h t); try done. by rewrite Hcode.
Qed.

Lemma pairsOK_fire h s : TimerInv s → pairsOK s → pairsOK (fire h s).
Proof.
  intros Hinv. destruct (held_fire h s Hinv) as (Hg & Hp & Hsel).
  apply pairsOK_held; try done. apply sameMatched_fire.
Qed.

Lemma pairsOK_powerUpClick s : pairsOK s → pairsOK (powerUpClick s).
Proof.
  destruct (held_powerUpClick s) as (Hf & Hs & Hp & Hg & Hr).
  apply pairsOK_held; try done; [apply sameMatched_powerUpClick|by right].
Qed.

Lemma pairsOK_onImageSettled k s : pairsOK s → pairsOK (onImageSettled k s).
Proof.
  destruct (held_onImageSettled k s) as (Hf & Hs & Hp & Hg & Hr).
  apply pairsOK_held; try done; [apply sameMatched_onImageSettled|by right].
Qed.

Lemma resetPending_foreground s : foreground s = [] → ¬ resetPending s.
Proof.
  intros Hfg (t & Ht & Hc). assert (t ∈ foreground s) as Hin; [|by rewrite Hfg in Hin;
    apply elem_of_nil in Hin].
  unfold foreground. apply list_elem_of_filter. by rewrite Hc.
Qed.

Lemma matchedOnBoard_eq s :
  matchedOnBoard s = filter (λ i, default false (matched <$> dom s !! i) = true) (grid s).
Proof. reflexivity. Qed.

(** The two cards of a match: the counter goes up by one and the number of
    matched cards by two. *)
Lemma pairsOK_processMatch f c s :
  firstCard s = Some f → secondCard s = Some c → f ≠ c → f ∈ grid s → c ∈ grid s →
  is_Some (dom s !! f) → is_Some (dom s !! c) →
  hasClass_matched s f = false → hasClass_matched s c = false →
  NoDup (grid s) → 2 * pairsMatched s = Z.of_nat (length (matchedOnBoard s)) →
  pairsOK (processMatch s).
Proof.
  intros Hf Hs Hne Hfg Hcg [cdf Hcdf] [cdc Hcdc] Hmf Hmc Hnd Hcount.
  unfold processMatch. rewrite Hf. cbn zeta.
  assert (Hs' : secondCard (onCard addClass_matched f s) = Some c) by done. rewrite Hs'.
  unfold resetTurnAfterDelay. split_and!.
  - done.
  - cbn [pairsMatched schedule set_nextHandle set_tasks set_pairsMatched onCard set_dom].
    rewrite matchedOnBoard_eq.
    cbn [dom grid schedule set_nextHandle set_tasks set_pairsMatched onCard set_dom].
    unfold hasClass_matched in Hmf, Hmc. rewrite Hcdf in Hmf. rewrite Hcdc in Hmc.
    rewrite (matched_one_more (grid s) c (alter addClass_matched f (dom s)) cdc);
      [|done|done|by rewrite list_lookup_alter_ne|done].
    rewrite (matched_one_more (grid s) f (dom s) cdf) by done.
    rewrite matchedOnBoard_eq in Hcount. lia.
  - intros Hnr. destruct Hnr. apply resetPending_scheduled.
Qed.

Lemma pairsOK_handleCardClick c s :
  TurnInv s → c ∈ grid s → pairsOK s → pairsOK (handleCardClick c s).
Proof.
  intros (Hboard & Hfirst & Hturn) Hc Hok.
  destruct (handleCardClick_cases c s)
    as [(_ & _ & ->)|[(_ & Hacc & Hf & ->)|[(f & _ & Hacc & Hf & _ & ->)|
        (f & _ & Hacc & Hf & Hid & ->)]]]; [done|..].
  - destruct Hacc as (_ & _ & _ & Hm).
    apply (pairsOK_same s); [done|apply sameMatched_selected|done|done| |done].
    intros _. split; [|by auto]. intros g [= <-]. by right.
  - apply (pairsOK_held s); try done; [|by right].
    cbn -[selected].
    eapply sameMatched_trans; [apply sameMatched_selected|by apply sameMatched_alter].
  - destruct Hacc as (Ha & Hl & Hfl & Hm).
    destruct (Hturn Ha) as [Hunl _]. destruct (Hunl Hl) as (Hfg & _ & Hsec & Hflf).
    pose proof (resetPending_foreground s Hfg) as Hnr.
    destruct Hok as (Hnd & Hcount & Hsel). destruct (Hsel Hnr) as [Hselm _].
    assert (Hne : f ≠ c).
    { intros ->. rewrite (Hflf c Hf) in Hfl. done. }
    unfold checkForMatch. rewrite (isMatch_second _ _ _ Hf). case_bool_decide.
    + set (s1 := set_lockBoard true (set_secondCard (Some c) (selected c s))).
      assert (Hm1 : ∀ i, hasClass_matched s1 i = hasClass_matched s i).
      { intros i. apply (hasClass_matched_same s (selected c s)), sameMatched_selected. }
      destruct Hboard as [Hex _].
      assert (Hex1 : ∀ i, is_Some (dom s !! i) → is_Some (dom s1 !! i)).
      { intros i Hi. pose proof (domStep_selected c s i) as Hd.
        destruct Hi as [cd Hcd]. rewrite Hcd in Hd.
        change (dom s1) with (dom (selected c s)).
        by destruct (dom (selected c s) !! i). }
      apply (pairsOK_processMatch f c s1); try done.
      * by apply Hfirst.
      * apply Hex1, Hex, Hfirst, Hf.
      * by apply Hex1, Hex.
      * rewrite Hm1. by apply Hselm.
      * by rewrite Hm1.
      * rewrite (matchedOnBoard_same s s1); [exact Hcount|done|apply sameMatched_selected].
    + unfold processMismatch.
      apply (pairsOK_same s); [done|apply sameMatched_selected|done| | |done].
      * intros Hr. apply resetPending_schedule. by eapply resetPending_tasks.
      * intros _. split; [by auto|]. intros g [= <-]. by right.
Qed.

Lemma pairsOK_step e s : sameGame e → TimerInv s → TurnInv s → pairsOK s → pairsOK (step e s).
Proof.
  intros He Htimer Hturn Hok. destruct e as [o|c| |k|d| |h]; simpl; try done.
  - case_bool_decide; [|done]. by apply pairsOK_handleCardClick.
  - by apply pairsOK_powerUpClick.
  - by apply pairsOK_onImageSettled.
  - unfold difficultyChange. by case_match.
  - by apply pairsOK_fire.
Qed.

(** A start leaves a board without matched cards. *)
Lemma pairsOK_dealCards o sel s :
  grid s = [] → pairsMatched s = 0 → firstCard s = None → secondCard s = None →
  pairsOK (dealCards o sel s).
Proof.
  intros Hg Hp Hf Hs.
  assert (Hempty : ∀ S, grid S = [] → pairsMatched S = 0 → firstCard S = None →
                        secondCard S = None → pairsOK S).
  { intros S HgS HpS HfS HsS. unfold pairsOK, matchedOnBoard.
    rewrite HgS, HpS, HfS, HsS. split_and!; [constructor|done|done]. }
  unfold dealCards. destruct sel as [|p sel]; [by case_match; apply Hempty|].
  destruct (buildCardsData (p :: sel)) as [|data0 datas]; [by apply Hempty|]. cbn zeta.
  set (elements := omap cardElement (dealt o)).
  assert (Hnone : filter (λ i, default false (matched <$> (dom s ++ elements) !! i) = true)
                    (seq (length (dom s)) (length elements)) = []).
  { apply filter_none. intros i Hi. destruct (lookup_seq_app _ _ _ Hi) as (cd & -> & Hcd).
    apply list_elem_of_omap in Hcd as (data & _ & Hdata). unfold cardElement in Hdata.
    case_match; [done|]. injection Hdata as <-. done. }
  cbn [grid set_grid set_dom]. case_match eqn:Hgrid.
  - apply Hempty; done.
  - split_and!.
    + change (NoDup (n :: l)). rewrite <-Hgrid. apply NoDup_seq.
    + rewrite matchedOnBoard_eq.
      change (2 * pairsMatched s = Z.of_nat (length (filter
        (λ i, default false (matched <$> (dom s ++ elements) !! i) = true) (n :: l)))).
      by rewrite Hnone, Hp.
    + intros _. split; intros f Hf'.
      * change (firstCard s = Some f) in Hf'. congruence.
      * change (secondCard s = Some f) in Hf'. congruence.
Qed.

Lemma pairsOK_initializeGame o s : pairsOK (initializeGame o s).
Proof.
  rewrite initializeGame_eq.
  destruct (select_frame o (numPairs (resetForNewGame s)) (resetForNewGame s))
    as (_ & _ & _ & _ & _ & Hg & _ & _ & _ & _ & _ & _ & _ & Hp & Hf & Hsec & _).
  by apply pairsOK_dealCards.
Qed.

Lemma pairsOK_pageLoaded r : pairsOK (pageLoaded r).
Proof.
  unfold pageLoaded. destruct (fetch_frame r (updateGameConfig
    {| selectVal := medium; currentDifficulty := medium; numPairs := 0; totalTime := 0;
       firstCard := None; secondCard := None; lockBoard := false; gameActive := false;
       clicks := 0; pairsMatched := 0; timeLeft := 0; timerInterval := None;
       powerUpUsedThisGame := false; allPokemonList := []; dom := []; grid := [];
       powerUpDisabled := true; messages := ["Select mode & Start!"]; alerts := [];
       now := 0; nextHandle := O; tasks := []; activations := [] |})) as [M ->].
  split_and!; cbn; [constructor|done|done].
Qed.

Lemma pairsOK_clean s : CleanReachable s → pairsOK s.
Proof.
  induction 1 as [r|e s Hs IH He|o s Hs IH Hq Hsort Hdist].
  - apply pairsOK_pageLoaded.
  - destruct (clean_invariants s Hs). by apply pairsOK_step.
  - apply pairsOK_initializeGame.
Qed.

(** ** The win *)

(** Only the callback of [resetTurnAfterDelay] puts the win in the message
    area, in an active game whose counter stands at [numPairs]. *)
Lemma wins_step_cases e s :
  sameGame e → wins (step e s) ≠ wins s →
  ∃ h, e = Fire h ∧ gameActive s = true ∧ pairsMatched s = numPairs s.
Proof.
  intros He Hw. destruct e as [o|c| |k|d| |h]; simpl in Hw; try done.
  - destruct Hw. case_bool_decide; [|done]. unfold wins, signals.
    by rewrite messages_handleCardClick.
  - destruct Hw. unfold wins, signals. by rewrite messages_powerUpClick.
  - destruct Hw. unfold wins, signals. by rewrite messages_onImageSettled.
  - destruct Hw. apply wins_difficultyChange.
  - exists h. split; [done|]. unfold fire in Hw.
    destruct (find _ _) as [t|] eqn:Hfind; [|done].
    destruct (due t <=? now s); [|done]. destruct (code t) eqn:Hcode.
    + destruct Hw. unfold onTimer. cbn zeta. case_match; [|done]. by rewrite wins_endGame_lose.
    + destruct Hw. unfold wins, signals. by rewrite messages_onMismatchShown.
    + unfold onResetTurn in Hw. cbn zeta in Hw.
      cbn [gameActive pairsMatched numPairs set_lockBoard set_secondCard set_firstCard
           set_tasks] in Hw.
      destruct (gameActive s); [|done]. destruct (Z.eqb_spec (pairsMatched s) (numPairs s));
        [done|]. by destruct Hw.
    + by destruct Hw.
    + by destruct Hw.
    + destruct Hw. unfold wins, signals. by rewrite messages_onRevealOver.
Qed.

Lemma filter_all {A} (P : A → Prop) `{∀ x, Decision (P x)} (l : list A) x :
  length (filter P l) = length l → x ∈ l → P x.
Proof.
  intros Hlen Hx. destruct (decide (P x)) as [|Hn]; [done|].
  pose proof (length_filter_lt P l x Hx Hn). lia.
Qed.

Lemma pairs_bounds s :
  pairsOK s → 0 ≤ pairsMatched s ∧ 2 * pairsMatched s ≤ Z.of_nat (length (grid s)).
Proof.
  intros (_ & Hcount & _).
  pose proof (length_filter (λ c, hasClass_matched s c = true) (grid s)) as Hle.
  fold (matchedOnBoard s) in Hle. lia.
Qed.



(** ** The properties *)







(** X4.  Every entry of the cached catalogue, in every state the page can
    reach, has an id between 1 and [MAX_POKEMON_ID_FOR_ARTWORK] and the
    artwork URL of that id as its image. *)
Theorem catalogue_entries_valid s p :
  Reachable s → p ∈ allPokemonList s →
  0 < id p ≤ MAX_POKEMON_ID_FOR_ARTWORK ∧ imageUrl p = POKEMON_IMAGE_PATH (id p).
Proof. intros Hr Hp. by apply (catalogue_valid s Hr). Qed.

Lemma catalogue_entries_valid_witness :
  (Reachable threeGame ∧ ivysaur ∈ allPokemonList threeGame) ∧
  0 < id ivysaur ≤ MAX_POKEMON_ID_FOR_ARTWORK ∧
  imageUrl ivysaur = POKEMON_IMAGE_PATH (id ivysaur).
Proof.
  assert (Hin : ivysaur ∈ allPokemonList threeGame)
    by (apply (bool_decide_unpack _); vm_compute; exact I).
  split; [split; [exact reachable_threeGame|exact Hin]|].
  exact (catalogue_entries_valid threeGame ivysaur reachable_threeGame Hin).
Defined.



(** X6.  In every state the page can reach each "You Won!" put in the
    message area is matched by exactly one alert box of the win, shown or
    still pending, and each "Game Over!" by exactly one alert box of the
    timeout: wins = win alerts shown + win alerts pending, and the same for
    timeouts.  No alert is shown without its message and none is lost, also
    across a new start. *)
Theorem alerts_accounted s :
  Reachable s →
  wins s = (shown winAlert s + queued cbWinAlert s)%nat ∧
  timeouts s = (shown loseAlert s + queued cbLoseAlert s)%nat.
Proof. apply alertsDue_reachable. Qed.

Lemma alerts_accounted_witness :
  let s := run ([CardClick 0; CardClick 1] ++ replicate 200 Wait ++ [Fire 1]) oneGame in
  let s' := run (replicate 100 Wait ++ [Fire 2]) s in
  Reachable s' ∧
  (wins s = 1%nat ∧ shown winAlert s = 0%nat ∧ queued cbWinAlert s = 1%nat) ∧
  wins s' = (shown winAlert s' + queued cbWinAlert s')%nat ∧
  timeouts s' = (shown loseAlert s' + queued cbLoseAlert s')%nat ∧
  shown winAlert s' = 1%nat.
Proof.
  cbv zeta.
  set (s := run ([CardClick 0; CardClick 1] ++ replicate 200 Wait ++ [Fire 1]) oneGame).
  assert (Hr : Reachable (run (replicate 100 Wait ++ [Fire 2]) s)).
  { apply reachable_run, reachable_run, clean_reachable, oneGame_clean. }
  destruct (alerts_accounted _ Hr) as [Hw Hl].
  split; [exact Hr|]. split; [split_and!; vm_compute; reflexivity|].
  split; [exact Hw|]. split; [exact Hl|]. vm_compute. reflexivity.
Defined.





(** X9.  Two of the error texts of [initializeGame] are never put out.  No
    event other than a start puts "No Pokémon Data!" or "Card Display
    Error!" in the message area, and a start whose two random sorts
    rearrange their arrays does not either: without a catalogue the message
    is "API Error!" by then, with one the selection is not empty, and every
    entry of [cardsData] gets its element. *)
Theorem start_errors_never_shown e s :
  (∀ o, e = Start o → sortOutcome o s) →
  signals "No Pokémon Data!" (step e s) = signals "No Pokémon Data!" s ∧
  signals "Card Display Error!" (step e s) = signals "Card Display Error!" s.
Proof.
  intros Hsort. destruct e as [o|c| |k|d| |h].
  1: { rewrite step_Start. apply start_silent. by apply Hsort. }
  all: split; (apply signals_sameGame; [done|]).
  all: intros Hin; repeat (apply elem_of_cons in Hin as [[=]|Hin]); by apply elem_of_nil in Hin.
Qed.

Lemma start_errors_never_shown_witness :
  let s := pageLoaded threeReply in
  sortOutcome firstDeal s ∧
  signals "No Pokémon Data!" (step (Start firstDeal) s) = signals "No Pokémon Data!" s ∧
  signals "Card Display Error!" (step (Start firstDeal) s)
    = signals "Card Display Error!" s.
Proof.
  cbv zeta. split; [exact sortOutcome_firstDeal|].
  apply (start_errors_never_shown (Start firstDeal) (pageLoaded threeReply)).
  intros o [= <-]. exact sortOutcome_firstDeal.
Defined.

Lemma sameGame_replicate e n : sameGame e → Forall sameGame (replicate n e).
Proof. intros He. induction n; constructor; done. Qed.

Lemma revealDue_clean : CleanReachable revealDue.
Proof.
  apply clean_run; [|apply threeGame_clean].
  repeat (apply Forall_app; split); [by repeat constructor|by apply sameGame_replicate..].
Qed.

(** X10.  The power-up used while a first card is selected freezes the
    board.  In an active game started cleanly, when the callback of
    [executePowerUpReveal] runs with a first card selected and no second,
    it leaves [lockBoard] set, the game active and no callback of a turn or
    reveal outstanding; from then on, whatever happens in that game, the
    board stays locked, every click on a card is ignored, the counters and
    the selected card stay as they are and no win is signalled: the game
    can only time out or be restarted. *)
Theorem reveal_with_selection_freezes_board s h cs d :
  CleanReachable s → gameActive s = true →
  pending h (cbPowerUpReveal cs) d s → d ≤ now s →
  is_Some (firstCard s) → secondCard s = None →
  let s' := step (Fire h) s in
  gameActive s' = true ∧ lockBoard s' = true ∧ foreground s' = [] ∧ pendingLoads s' = 0%nat ∧
  firstCard s' = firstCard s ∧
  ∀ tr, Forall sameGame tr →
    lockBoard (run tr s') = true ∧
    clicks (run tr s') = clicks s ∧ pairsMatched (run tr s') = pairsMatched s ∧
    wins (run tr s') = wins s ∧ firstCard (run tr s') = firstCard s ∧
    ∀ c, step (CardClick c) (run tr s') = run tr s'.
Proof. apply reveal_freezes. Qed.

Lemma reveal_with_selection_freezes_board_witness :
  let s := revealDue in
  let s' := step (Fire 1) s in
  let tr := [CardClick 1; PowerUp; Fire 0; Wait] in
  (gameActive s = true ∧ pending 1 (cbPowerUpReveal [0; 1; 2; 3; 4; 5]%nat) 2000 s ∧
   2000 ≤ now s ∧ firstCard s = Some 0%nat ∧ secondCard s = None) ∧
  gameActive s' = true ∧ lockBoard s' = true ∧
  lockBoard (run tr s') = true ∧ clicks (run tr s') = clicks s ∧
  step (CardClick 2) (run tr s') = run tr s'.
Proof.
  cbv zeta.
  assert (H1 : gameActive revealDue = true) by (vm_compute; reflexivity).
  assert (H2 : pending 1 (cbPowerUpReveal [0; 1; 2; 3; 4; 5]%nat) 2000 revealDue).
  { unfold pending. apply (bool_decide_unpack _). vm_compute. exact I. }
  assert (H3 : 2000 ≤ now revealDue) by (vm_compute; discriminate).
  assert (H4 : firstCard revealDue = Some 0%nat) by (vm_compute; reflexivity).
  assert (H5 : secondCard revealDue = None) by (vm_compute; reflexivity).
  assert (H4' : is_Some (firstCard revealDue)) by (rewrite H4; eexists; reflexivity).
  destruct (reveal_with_selection_freezes_board revealDue 1 _ 2000
              revealDue_clean H1 H2 H3 H4' H5) as (G1 & G2 & _ & _ & _ & Hrest).
  assert (Htr : Forall sameGame [CardClick 1; PowerUp; Fire 0; Wait]) by (repeat constructor).
  destruct (Hrest _ Htr) as (R1 & R2 & _ & _ & _ & R6).
  split; [split_and!; [exact H1|exact H2|exact H3|exact H4|exact H5]|].
  split_and!; [exact G1|exact G2|exact R1|exact R2|exact (R6 2%nat)].
Defined.

(** X11.  Lazy loading never shows a card without its picture.  In every
    state the page can reach, every card element has a non-empty
    [data-src]; its [src] is either not set or equal to its [data-src]; and
    a card that is face up or matched has its [src] set. *)
Theorem shown_cards_have_images s c cd :
  Reachable s → dom s !! c = Some cd →
  truthy (dataSrc cd) = true ∧
  (src cd = None ∨ src cd = Some (dataSrc cd)) ∧
  (flipped cd = true ∨ matched cd = true → src cd = Some (dataSrc cd)).
Proof.
  intros Hr Hcd. destruct (imagesOK_reachable s Hr) as (Hd & _).
  exact (Forall_lookup_1 _ _ _ _ Hd Hcd).
Qed.

Lemma shown_cards_have_images_witness :
  let s := run [CardClick 0] threeGame in
  let cd := {| pokemonId := 1; cardId := "1-a"; dataSrc := POKEMON_IMAGE_PATH 1;
               src := Some (POKEMON_IMAGE_PATH 1); flipped := true; matched := false |} in
  (Reachable s ∧ dom s !! 0%nat = Some cd) ∧
  truthy (dataSrc cd) = true ∧
  (src cd = None ∨ src cd = Some (dataSrc cd)) ∧
  (flipped cd = true ∨ matched cd = true → src cd = Some (dataSrc cd)).
Proof.
  cbv zeta.
  assert (Hr : Reachable (run [CardClick 0] threeGame)).
  { apply reachable_run, reachable_threeGame. }
  assert (Hcd : dom (run [CardClick 0] threeGame) !! 0%nat
                = Some {| pokemonId := 1; cardId := "1-a"; dataSrc := POKEMON_IMAGE_PATH 1;
                          src := Some (POKEMON_IMAGE_PATH 1); flipped := true;
                          matched := false |}) by (vm_compute; reflexivity).
  split; [split; [exact Hr|exact Hcd]|].
  exact (shown_cards_have_images _ _ _ Hr Hcd).
Defined.

(** X12.  The pair counter counts the matched cards.  In every state of
    games that are started cleanly, the board lists no card twice,
    [pairsMatched] is half the number of cards of the board that carry the
    class [matched], and so lies between 0 and half the size of the
    board. *)
Theorem pairsMatched_counts_matched_cards s :
  CleanReachable s →
  NoDup (grid s) ∧
  2 * pairsMatched s = Z.of_nat (length (matchedOnBoard s)) ∧
  0 ≤ pairsMatched s ∧ 2 * pairsMatched s ≤ Z.of_nat (length (grid s)).
Proof.
  intros Hs. pose proof (pairsOK_clean s Hs) as Hok.
  destruct (pairs_bounds s Hok). destruct Hok as (Hnd & Hcount & _). done.
Qed.

Lemma pairsMatched_counts_matched_cards_witness :
  let s := run [CardClick 0; CardClick 2] threeGame in
  CleanReachable s ∧ pairsMatched s = 1 ∧ matchedOnBoard s = [0; 2]%nat ∧
  NoDup (grid s) ∧
  2 * pairsMatched s = Z.of_nat (length (matchedOnBoard s)) ∧
  0 ≤ pairsMatched s ∧ 2 * pairsMatched s ≤ Z.of_nat (length (grid s)).
Proof.
  cbv zeta.
  assert (Hs : CleanReachable (run [CardClick 0; CardClick 2] threeGame)).
  { apply clean_run; [by repeat constructor|apply threeGame_clean]. }
  split; [exact Hs|]. split; [vm_compute; reflexivity|]. split; [vm_compute; reflexivity|].
  exact (pairsMatched_counts_matched_cards _ Hs).
Defined.

(** X13.  What a win means.  When an event of a cleanly started game puts
    "You Won!" in the message area, the counter equals [numPairs] and
    exactly 2 * [numPairs] cards of the board are matched; on a board of
    2 * [numPairs] cards every card is matched. *)
Theorem win_means_numPairs_pairs_matched e s :
  CleanReachable s → sameGame e → wins (step e s) ≠ wins s →
  let s' := step e s in
  pairsMatched s' = numPairs s' ∧
  Z.of_nat (length (matchedOnBoard s')) = 2 * numPairs s' ∧
  (Z.of_nat (length (grid s')) = 2 * numPairs s' →
   ∀ c, c ∈ grid s' → hasClass_matched s' c = true).
Proof.
  intros Hs He Hw. cbn zeta.
  destruct (wins_step_cases e s He Hw) as (h & -> & _ & Hp).
  assert (Hok : pairsOK (step (Fire h) s)).
  { destruct (clean_invariants s Hs). apply pairsOK_step; try done. by apply pairsOK_clean. }
  destruct Hok as (_ & Hcount & _).
  destruct (held_fire h s) as (_ & Hp' & _); [by destruct (clean_invariants s Hs)|].
  destruct (config_fire h s) as (_ & _ & Hn & _).
  assert (Heq : pairsMatched (step (Fire h) s) = numPairs (step (Fire h) s)).
  { cbn [step]. by rewrite Hp', Hn. }
  split; [exact Heq|]. split; [lia|].
  intros Hfull c Hc.
  apply (filter_all (λ c, hasClass_matched (step (Fire h) s) c = true)
           (grid (step (Fire h) s))); [|done].
  fold (matchedOnBoard (step (Fire h) s)). lia.
Qed.

Lemma win_means_numPairs_pairs_matched_witness :
  let s := run ([CardClick 0; CardClick 1] ++ replicate 200 Wait) oneGame in
  let s' := step (Fire 1) s in
  (CleanReachable s ∧ sameGame (Fire 1) ∧ wins s' ≠ wins s) ∧
  pairsMatched s' = numPairs s' ∧
  Z.of_nat (length (matchedOnBoard s')) = 2 * numPairs s' ∧
  (Z.of_nat (length (grid s')) = 2 * numPairs s' →
   ∀ c, c ∈ grid s' → hasClass_matched s' c = true).
Proof.
  cbv zeta.
  assert (Hs : CleanReachable (run ([CardClick 0; CardClick 1] ++ replicate 200 Wait) oneGame)).
  { apply clean_run; [|apply oneGame_clean].
    apply Forall_app. split; [by repeat constructor|apply sameGame_replicate_Wait]. }
  assert (Hw : wins (step (Fire 1)
                 (run ([CardClick 0; CardClick 1] ++ replicate 200 Wait) oneGame))
               ≠ wins (run ([CardClick 0; CardClick 1] ++ replicate 200 Wait) oneGame)).
  { vm_compute. discriminate. }
  split; [split; [exact Hs|split; [exact I|exact Hw]]|].
  exact (win_means_numPairs_pairs_matched (Fire 1) _ Hs I Hw).
Defined.



(** ** The clock *)

Lemma append_split s1 s2 t1 t2 :
  s1 +:+ t1 = s2 +:+ t2 → String.length t1 = String.length t2 → s1 = s2 ∧ t1 = t2.
Proof.
  revert s2. induction s1 as [|a s1 IH]; intros [|b s2] H Hlen.
  - done.
  - apply (f_equal String.length) in H. rewrite !length_append in H.
    cbn [String.length] in H. lia.
  - apply (f_equal String.length) in H. rewrite !length_append in H.
    cbn [String.length] in H. lia.
  - rewrite !append_cons in H. injection H as -> H. destruct (IH s2 H Hlen) as [-> ->]. done.
Qed.

Lemma below_cases (P : Z → Prop) (k : nat) :
  (∀ i : nat, (i < k)%nat → P (Z.of_nat i)) → ∀ n, 0 ≤ n < Z.of_nat k → P n.
Proof. intros HP n Hn. rewrite <-(Z2Nat.id n) by lia. apply HP. lia. Qed.

Lemma length_pretty_digit d : 0 ≤ d ≤ 9 → String.length (pretty d) = 1%nat.
Proof.
  intros Hd. apply (below_cases (λ d, String.length (pretty d) = 1%nat) 10); [|lia].
  intros i Hi. do 10 (destruct i as [|i]; [vm_compute; reflexivity|]). lia.
Qed.

(** The seconds of [formatTime] are their two digits. *)
Lemma secs_text n :
  0 ≤ n < 60 →
  (if n <? 10 then "0" else EmptyString) +:+ pretty n = pretty (n / 10) +:+ pretty (n mod 10).
Proof.
  intros Hn.
  apply (below_cases (λ n, (if n <? 10 then "0" else EmptyString) +:+ pretty n
                           = pretty (n / 10) +:+ pretty (n mod 10)) 60); [|lia].
  intros i Hi. do 60 (destruct i as [|i]; [vm_compute; reflexivity|]). lia.
Qed.

Lemma formatTime_shape t :
  0 ≤ t →
  formatTime t = pretty (t / 60) +:+ ":" +:+ pretty (t mod 60 / 10) +:+ pretty (t mod 60 mod 10).
Proof.
  intros Ht. unfold formatTime. cbn zeta. rewrite Z.rem_mod_nonneg by lia.
  rewrite secs_text; [done|]. by apply Z.mod_pos_bound.
Qed.


Lemma formatTime_0 : formatTime 0 = "0:00".
Proof. vm_compute. reflexivity. Qed.

Lemma formatTime_injective a b : 0 ≤ a → 0 ≤ b → formatTime a = formatTime b → a = b.
Proof.
  intros Ha Hb H. rewrite !formatTime_shape in H by done.
  assert (Hd : ∀ t, 0 ≤ t → 0 ≤ t mod 60 / 10 ≤ 9 ∧ 0 ≤ t mod 60 mod 10 ≤ 9).
  { intros t Ht. split; Z.to_euclidean_division_equations; lia. }
  destruct (Hd a Ha) as [Ha1 Ha0]. destruct (Hd b Hb) as [Hb1 Hb0].
  apply append_split in H as [Hm H].
  2: { rewrite !length_append.
       rewrite (length_pretty_digit _ Ha1), (length_pretty_digit _ Ha0).
       by rewrite (length_pretty_digit _ Hb1), (length_pretty_digit _ Hb0). }
  apply (inj (String.append ":")) in H. apply append_split in H as [H1 H0].
  2: { by rewrite (length_pretty_digit _ Ha0), (length_pretty_digit _ Hb0). }
  apply (inj pretty) in Hm. apply (inj pretty) in H1. apply (inj pretty) in H0.
  Z.to_euclidean_division_equations. lia.
Qed.

(** ** The panel *)

Lemma updateStatsDisplay_ext s s' :
  clicks s' = clicks s → pairsMatched s' = pairsMatched s → numPairs s' = numPairs s →
  timeLeft s' = timeLeft s → updateStatsDisplay s' = updateStatsDisplay s.
Proof. unfold updateStatsDisplay. by intros -> -> -> ->. Qed.

Lemma pageSetup_st r : st (pageSetup r) = pageLoaded r.
Proof. reflexivity. Qed.

Lemma pageReachable_st p : PageReachable p → Reachable (st p).
Proof.
  induction 1 as [r|e p Hp IH]; [rewrite pageSetup_st; constructor|].
  cbn [st pageStep]. by constructor.
Qed.


Lemma endGame_stats_win s v : endGame_stats true s v = v.
Proof. unfold endGame_stats. by repeat case_match. Qed.

(** An accepted click leaves the panel up to date. *)
Lemma handleCardClick_panel c s v :
  (handleCardClick_stats c s v = v ∧ handleCardClick c s = s) ∨
  handleCardClick_stats c s v = updateStatsDisplay (handleCardClick c s).
Proof.
  unfold handleCardClick_stats, handleCardClick.
  destruct (negb (gameActive s) || lockBoard s || hasClass_flipped s c || hasClass_matched s c);
    [by left|].
  right. destruct s as [x1 x2 x3 x4 first x6 x7 x8 x9 x10 x11 x12 x13 x14 x15 x16 x17 x18 x19
                        x20 x21 x22 x23].
  cbn zeta. cbn [firstCard onCard set_dom set_clicks dom].
  destruct first as [f|]; [|reflexivity].
  case_bool_decide; [reflexivity|].
  unfold checkForMatch_stats, checkForMatch. case_match; [|reflexivity].
  reflexivity.
Qed.

Lemma dealCards_panel o sel s v :
  dealCards_stats o sel s v = updateStatsDisplay (dealCards o sel s) ∨
  (dealCards_stats o sel s v = v ∧ gameActive (dealCards o sel s) = false).
Proof.
  unfold dealCards_stats, dealCards. destruct sel as [|p sel]; [by right|]. left.
  destruct (buildCardsData (p :: sel)); [done|]. cbn zeta.
  cbn [grid set_grid set_dom]. by case_match.
Qed.

Lemma start_panel o s v :
  step_stats (Start o) s v = updateStatsDisplay (step (Start o) s) ∨
  (step_stats (Start o) s v = v ∧ gameActive (step (Start o) s) = false).
Proof.
  cbn [step step_stats]. rewrite initializeGame_eq. unfold initializeGame_stats. cbn zeta.
  apply dealCards_panel.
Qed.

(** The tick of the timer. *)
Lemma onTimer_panel s v :
  gameActive s = true → 1 ≤ timeLeft s →
  onTimer_stats s v = text_timeLeft (formatTime (timeLeft (onTimer s))) v ∧
  timeLeft (onTimer s) = timeLeft s - 1 ∧ clicks (onTimer s) = clicks s ∧
  pairsMatched (onTimer s) = pairsMatched s ∧ numPairs (onTimer s) = numPairs s.
Proof.
  intros Ha Ht. unfold onTimer_stats, onTimer. cbn zeta.
  cbn [timeLeft gameActive set_timeLeft]. rewrite Ha, andb_true_r.
  destruct (Z.leb_spec (timeLeft s - 1) 0) as [Hle|Hgt]; [|done].
  rewrite timeLeft_endGame, clicks_endGame, pairsMatched_endGame.
  destruct (config_endGame false (set_timeLeft (timeLeft s - 1) s)) as (_ & _ & -> & _).
  split_and!; try done.
  unfold endGame_stats. cbn [timeLeft gameActive set_timeLeft negb andb].
  rewrite Ha. cbn [negb andb]. rewrite (proj2 (Z.leb_le _ _) Hle).
  assert (timeLeft s - 1 = 0) as -> by lia. by rewrite formatTime_0.
Qed.

(** What an event of the game does to the panel: it brings all of it up to
    date, leaves it alone while the values it shows stay, shows the time
    after a tick, or shows the time of the mode set between games. *)
Lemma step_panel e s v :
  sameGame e → TimerInv s →
  let s' := step e s in
  let v' := step_stats e s v in
  v' = updateStatsDisplay s' ∨
  (v' = v ∧ clicks s' = clicks s ∧ pairsMatched s' = pairsMatched s ∧
   timeLeft s' = timeLeft s ∧ ((∀ d, e ≠ DifficultyChange d) → numPairs s' = numPairs s)) ∨
  (v' = text_timeLeft (formatTime (timeLeft s')) v ∧ clicks s' = clicks s ∧
   pairsMatched s' = pairsMatched s ∧ numPairs s' = numPairs s) ∨
  ((∃ d, e = DifficultyChange d) ∧ gameActive s' = false ∧
   v' = text_timeLeft (formatTime (totalTime s')) (updateStatsDisplay s')).
Proof.
  intros He Hinv. cbn zeta. destruct e as [o|c| |k|d| |h]; cbn [step step_stats]; try done.
  - case_bool_decide; [|by right; left].
    destruct (handleCardClick_panel c s v) as [[-> ->] | ->]; [by right; left|by left].
  - right. left. destruct (held_powerUpClick s) as (_ & _ & -> & _).
    destruct (config_powerUpClick s) as (_ & _ & -> & _).
    by rewrite clicks_powerUpClick, timeLeft_powerUpClick.
  - right. left. destruct (held_onImageSettled k s) as (_ & _ & -> & _).
    destruct (config_onImageSettled k s) as (_ & _ & -> & _).
    by rewrite clicks_onImageSettled, timeLeft_onImageSettled.
  - unfold difficultyChange_stats, difficultyChange. cbn zeta.
    cbn [gameActive updateGameConfig set_totalTime set_numPairs set_currentDifficulty
         set_selectVal].
    destruct (gameActive s) eqn:Ha; cbn [negb].
    + right. left. split_and!; try done. intros Hd. by destruct (Hd d).
    + right. right. right. split; [by exists d|]. split; [exact Ha|done].
  - by right; left.
  - destruct (held_fire h s Hinv) as (_ & Hp & _).
    destruct (config_fire h s) as (_ & _ & Hn & _).
    pose proof (clicks_fire h s) as Hc.
    revert Hp Hn Hc. unfold fire_stats, fire.
    destruct (find _ _) as [t|] eqn:Hfind; [|by right; left].
    apply find_Some_handle in Hfind as [Ht Hh]. case_match; [|by right; left].
    destruct (code t) eqn:Hcode; intros Hp Hn Hc.
    + destruct Hinv as [_ Hlive]. destruct (Hlive t Ht Hcode) as [Ha Hl].
      destruct (onTimer_panel (set_tasks (rearm h (now s + 1000) (tasks s)) s) v Ha Hl)
        as (-> & _ & _ & _ & _).
      right. right. left. done.
    + right. left. split_and!; try done. by rewrite timeLeft_onMismatchShown.
    + right. left. unfold onResetTurn_stats. cbn zeta.
      split_and!; try done; [by case_match; rewrite ?endGame_stats_win|].
      by rewrite timeLeft_onResetTurn.
    + right. left. done.
    + right. left. done.
    + right. left. split_and!; try done. by rewrite timeLeft_onRevealOver.
Qed.




(** While the selector is left alone, an up-to-date panel stays so. *)
Lemma panel_kept e p :
  PageReachable p → sameMode e → panel p = updateStatsDisplay (st p) →
  panel (pageStep e p) = updateStatsDisplay (st (pageStep e p)).
Proof.
  intros Hp [He Hd] Hcur. cbn [st panel pageStep].
  pose proof (TimerInv_reachable _ (pageReachable_st p Hp)) as Hinv.
  destruct (step_panel e (st p) (panel p) He Hinv)
    as [->|[(-> & Hc & Hm & Ht & Hn)|[(-> & Hc & Hm & Hn)|([d ->] & _)]]].
  - done.
  - rewrite Hcur. symmetry. apply updateStatsDisplay_ext; auto.
  - rewrite Hcur. unfold updateStatsDisplay, text_timeLeft.
    cbn [clicksDisplay pairsMatchedDisplay totalPairsDisplay pairsLeftDisplay].
    by rewrite Hc, Hm, Hn.
  - by destruct (Hd d).
Qed.

Lemma panel_kept_run tr p :
  PageReachable p → Forall sameMode tr → panel p = updateStatsDisplay (st p) →
  panel (pageRun tr p) = updateStatsDisplay (st (pageRun tr p)).
Proof.
  intros Hp Htr. revert p Hp. induction Htr as [|e tr He Htr IH]; intros p Hp Hcur; [done|].
  cbn [pageRun foldl]. apply IH; [by constructor|by apply panel_kept].
Qed.


(** ** The power-up button *)

Lemma buttonOK_same s s' :
  gameActive s' = gameActive s → powerUpUsedThisGame s' = powerUpUsedThisGame s →
  powerUpDisabled s' = powerUpDisabled s → buttonOK s → buttonOK s'.
Proof. unfold buttonOK. by intros -> -> ->. Qed.

Lemma buttonOK_endGame b s : buttonOK s → buttonOK (endGame b s).
Proof.
  intros Hok. destruct (gameActive s) eqn:Ha; [|by rewrite endGame_inactive].
  rewrite endGame_active by done. cbn zeta. rewrite onCards_dom. unfold buttonOK.
  by repeat case_match.
Qed.

Lemma buttonOK_handleCardClick c s : buttonOK s → buttonOK (handleCardClick c s).
Proof.
  apply buttonOK_same;
    unfold handleCardClick, checkForMatch, processMatch, processMismatch;
    repeat case_match; done.
Qed.

Lemma buttonOK_executePowerUpReveal cs s : buttonOK s → buttonOK (executePowerUpReveal cs s).
Proof. apply buttonOK_same; unfold executePowerUpReveal; by rewrite onCards_dom. Qed.

Lemma buttonOK_powerUpClick s : buttonOK s → buttonOK (powerUpClick s).
Proof.
  intros Hok. rewrite powerUpClick_eq. case_match; [done|]. cbn zeta.
  assert (Hset : buttonOK (set_activations
            (activations (prepared s).2 ++
               [{| imagesToLoad := (prepared s).1; cardsToVisuallyFlip := unmatchedCards s |}])
            (prepared s).2)).
  { unfold buttonOK. cbn [gameActive powerUpUsedThisGame powerUpDisabled set_activations].
    rewrite prepared_frame. cbn. by rewrite orb_true_r. }
  case_match; [by apply buttonOK_executePowerUpReveal|done].
Qed.

Lemma buttonOK_onImageSettled k s : buttonOK s → buttonOK (onImageSettled k s).
Proof.
  intros Hok. unfold onImageSettled. repeat case_match; try done.
  by apply buttonOK_executePowerUpReveal.
Qed.

Lemma buttonOK_fire h s : buttonOK s → buttonOK (fire h s).
Proof.
  intros Hok. unfold fire. destruct (find _ _) as [t|]; [|done]. case_match; [|done].
  destruct (code t).
  - unfold onTimer. cbn zeta. case_match; [by apply buttonOK_endGame|done].
  - revert Hok. apply buttonOK_same; unfold onMismatchShown; repeat case_match; done.
  - unfold onResetTurn. cbn zeta. case_match; [by apply buttonOK_endGame|done].
  - done.
  - done.
  - revert Hok. apply buttonOK_same; unfold onRevealOver; cbn zeta;
      by rewrite foldl_concealOne_dom.
Qed.

Lemma buttonOK_dealCards o sel s : buttonOK s → buttonOK (dealCards o sel s).
Proof.
  intros Hok. unfold dealCards. destruct sel as [|p sel]; [by case_match|].
  destruct (buildCardsData (p :: sel)); [done|]. cbn zeta.
  cbn [grid set_grid set_dom]. by case_match.
Qed.

Lemma buttonOK_initializeGame o s : buttonOK (initializeGame o s).
Proof.
  rewrite initializeGame_eq. apply buttonOK_dealCards.
  destruct (select_frame o (numPairs (resetForNewGame s)) (resetForNewGame s))
    as (_ & _ & _ & _ & Ha & _ & _ & _ & _ & _ & _ & _ & _ & _ & _ & _ & _ & Hu & Hd & _).
  unfold buttonOK. by rewrite Ha, Hu, Hd.
Qed.

Lemma buttonOK_step e s : buttonOK s → buttonOK (step e s).
Proof.
  intros Hok. destruct e as [o|c| |k|d| |h]; cbn [step].
  - apply buttonOK_initializeGame.
  - case_bool_decide; [by apply buttonOK_handleCardClick|done].
  - by apply buttonOK_powerUpClick.
  - by apply buttonOK_onImageSettled.
  - unfold difficultyChange. by case_match.
  - done.
  - by apply buttonOK_fire.
Qed.

Lemma buttonOK_reachable s : Reachable s → buttonOK s.
Proof.
  induction 1 as [r|e s Hs IH]; [|by apply buttonOK_step].
  rewrite <-pageSetup_st. cbn [st pageSetup]. by destruct (fetch_frame r setup) as [M ->].
Qed.

(** X15.  [formatTime] tells times apart: two different non-negative
    numbers of seconds never get the same text. *)
Theorem formatTime_tells_times_apart a b :
  0 ≤ a → 0 ≤ b → a ≠ b → formatTime a ≠ formatTime b.
Proof. intros Ha Hb Hne H. by apply Hne, formatTime_injective. Qed.

Lemma formatTime_tells_times_apart_witness :
  (0 ≤ 59 ∧ 0 ≤ 60 ∧ 59 ≠ 60) ∧
  formatTime 59 = "0:59" ∧ formatTime 60 = "1:00" ∧ formatTime 59 ≠ formatTime 60.
Proof.
  assert (Hne : 59 ≠ 60) by discriminate.
  split; [split; [discriminate|split; [discriminate|exact Hne]]|].
  split; [vm_compute; reflexivity|]. split; [vm_compute; reflexivity|].
  apply (formatTime_tells_times_apart 59 60); [discriminate|discriminate|exact Hne].
Defined.





(** X18.  From a start that leaves the game active, and for as long as the
    difficulty selector is left alone, the whole panel is up to date after
    every event, also once the game is won or lost: the five displays show
    [clicks], [pairsMatched], [numPairs], [numPairs - pairsMatched] and
    [formatTime(timeLeft)]. *)
Theorem panel_current_from_start o tr p :
  PageReachable p → gameActive (step (Start o) (st p)) = true → Forall sameMode tr →
  let p' := pageRun (Start o :: tr) p in
  clicksDisplay (panel p') = pretty (clicks (st p')) ∧
  pairsMatchedDisplay (panel p') = pretty (pairsMatched (st p')) ∧
  totalPairsDisplay (panel p') = pretty (numPairs (st p')) ∧
  pairsLeftDisplay (panel p') = pretty (numPairs (st p') - pairsMatched (st p')) ∧
  timeLeftDisplay (panel p') = formatTime (timeLeft (st p')).
Proof.
  intros Hp Ha Htr. cbn zeta. cbn [pageRun foldl]. fold (pageRun tr (pageStep (Start o) p)).
  rewrite (panel_kept_run tr (pageStep (Start o) p)); [done|by constructor|done|].
  cbn [st panel pageStep].
  destruct (start_panel o (st p) (panel p)) as [->|[_ Hoff]]; [done|].
  by rewrite Hoff in Ha.
Qed.

Lemma panel_current_from_start_witness :
  let p := pageSetup oneReply in
  let tr := [CardClick 0; CardClick 1] ++ replicate 200 Wait ++ [Fire 1] in
  let p' := pageRun (Start oneDeal :: tr) p in
  (PageReachable p ∧ gameActive (step (Start oneDeal) (st p)) = true ∧ Forall sameMode tr) ∧
  (clicksDisplay (panel p') = "2" ∧ pairsLeftDisplay (panel p') = "0") ∧
  clicksDisplay (panel p') = pretty (clicks (st p')) ∧
  pairsMatchedDisplay (panel p') = pretty (pairsMatched (st p')) ∧
  totalPairsDisplay (panel p') = pretty (numPairs (st p')) ∧
  pairsLeftDisplay (panel p') = pretty (numPairs (st p') - pairsMatched (st p')) ∧
  timeLeftDisplay (panel p') = formatTime (timeLeft (st p')).
Proof.
  cbv zeta.
  assert (Hp : PageReachable (pageSetup oneReply)) by constructor.
  assert (Ha : gameActive (step (Start oneDeal) (st (pageSetup oneReply))) = true)
    by (vm_compute; reflexivity).
  assert (Htr : Forall sameMode ([CardClick 0; CardClick 1] ++ replicate 200 Wait ++ [Fire 1])).
  { apply Forall_app. split; [by repeat constructor|].
    apply Forall_app. split; [apply Forall_replicate; by split|by repeat constructor]. }
  split; [split; [exact Hp|split; [exact Ha|exact Htr]]|].
  split; [split; vm_compute; reflexivity|].
  exact (panel_current_from_start oneDeal _ _ Hp Ha Htr).
Defined.

(** X19.  The power-up button is enabled exactly while a press can count.
    In every state the page can reach the button is disabled if and only
    if no game is active or the power-up of the game has been used; so a
    press of the enabled button is ignored only while the board is locked,
    and otherwise spends the power-up and disables the button. *)
Theorem power_up_button_enabled_iff s :
  Reachable s →
  powerUpDisabled s = negb (gameActive s) || powerUpUsedThisGame s ∧
  (powerUpDisabled s = false → lockBoard s = false →
   powerUpUsedThisGame (powerUpClick s) = true ∧ powerUpDisabled (powerUpClick s) = true).
Proof.
  intros Hr. pose proof (buttonOK_reachable s Hr) as Hok. split; [exact Hok|].
  intros Hd Hl. unfold buttonOK in Hok. rewrite Hd in Hok.
  destruct (gameActive s) eqn:Ha; [|done]. destruct (powerUpUsedThisGame s) eqn:Hu; [done|].
  pose proof (powerUpClick_accepted s Ha Hl Hu) as Hused. split; [done|].
  pose proof (buttonOK_powerUpClick s) as Hok'. unfold buttonOK in Hok'.
  rewrite Hok', Hused by (by rewrite Hd, Ha, Hu). by rewrite orb_true_r.
Qed.

Lemma power_up_button_enabled_iff_witness :
  (Reachable threeGame ∧ powerUpDisabled threeGame = false ∧ lockBoard threeGame = false) ∧
  powerUpDisabled threeGame = negb (gameActive threeGame) || powerUpUsedThisGame threeGame ∧
  powerUpUsedThisGame (powerUpClick threeGame) = true ∧
  powerUpDisabled (powerUpClick threeGame) = true.
Proof.
  assert (Hd : powerUpDisabled threeGame = false) by (vm_compute; reflexivity).
  assert (Hl : lockBoard threeGame = false) by (vm_compute; reflexivity).
  split; [split; [exact reachable_threeGame|split; [exact Hd|exact Hl]]|].
  destruct (power_up_button_enabled_iff threeGame reachable_threeGame) as [H1 H2].
  split; [exact H1|]. exact (H2 Hd Hl).
Defined.

(** ** Cards that show their picture *)

Lemma sameFlipped_refl d : sameFlipped d d.
Proof. done. Qed.



Lemma flipped_lazy cd : flipped (if needsLoad cd then attr_src cd else cd) = flipped cd.
Proof. by case_match. Qed.






























